(** * Digit-canvas preprocessing and test-time-augmented inference

    A shallow embedding of the numeric core of [script.js] (fixed 560x560
    hidden canvas) and of its near-duplicate with a resizable canvas:
    bounding-box extraction, centre of mass, the 28x28 canonical frame and the
    click handler that averages five shifted predictions.

    Conventions.
    - Pixel data ([ImageData.data], a [Uint8ClampedArray]) is a [list Z] of
      RGBA bytes in row-major order; reading past the end gives [None]
      (JavaScript's [undefined]), and [undefined > 50] is false.
    - Loop counters, box coordinates and the byte sums of the centre of mass
      are integers far below 2^53, where JavaScript numbers are exact; they
      are kept in [Z].
    - Every other JavaScript number is an IEEE-754 binary64 value, modelled by
      Rocq's primitive [float] (the same format, round-to-nearest-even).
      Definitions whose algebra matters are written once over a small
      [Number] interface, instantiated with [float] (what the browser
      computes) and with [Qc] (the same formula in exact arithmetic).
    - The browser's canvas operations and the TensorFlow model are
      interfaces ([CanvasAPI], [TFModel]): the development proves what holds
      whatever they compute. The writes to the page that only present the
      result (confidence bar, contender rows, latency) are left out. *)

From Stdlib Require Import ZArith List String Floats Uint63 QArith Qcanon Lia.
From Stdlib Require Import Sorting.Permutation Sorting.Sorted.
From stdpp Require Import base tactics option list numbers.
From Stdlib Require DecimalString.

#[local] Set Warnings "-inexact-float".
#[local] Open Scope Z_scope.

(** ** JavaScript numbers *)

(** An integer as a binary64 number (exact below 2^53 in absolute value). *)
Definition of_Z (z : Z) : float :=
  if z <? 0 then PrimFloat.opp (PrimFloat.of_uint63 (Uint63.of_Z (- z)))
  else PrimFloat.of_uint63 (Uint63.of_Z z).

(** The arithmetic the pipeline uses on non-integer numbers. [num_nan] is what
    arithmetic on [undefined] yields; exact arithmetic has no such value, and
    no statement about [Qc] reads an array out of range. *)
Class Number (T : Type) := {
  num_of_Z : Z -> T;
  num_nan : T;
  num_add : T -> T -> T;
  num_sub : T -> T -> T;
  num_mul : T -> T -> T;
  num_div : T -> T -> T;
  num_ltb : T -> T -> bool;
}.

#[export] Instance float_Number : Number float := {|
  num_of_Z := of_Z;
  num_nan := PrimFloat.nan;
  num_add := PrimFloat.add;
  num_sub := PrimFloat.sub;
  num_mul := PrimFloat.mul;
  num_div := PrimFloat.div;
  num_ltb := PrimFloat.ltb;
|}.

Definition Qc_ltb (a b : Qc) : bool :=
  match (a ?= b)%Qc with Lt => true | _ => false end.

#[export] Instance Qc_Number : Number Qc := {|
  num_of_Z := fun z => Q2Qc (inject_Z z);
  num_nan := Q2Qc 0;
  num_add := Qcplus;
  num_sub := Qcminus;
  num_mul := Qcmult;
  num_div := Qcdiv;
  num_ltb := Qc_ltb;
|}.

(** ** Rasters *)

(** [data[i]]: [None] stands for [undefined]. *)
Definition sampleAt (data : list Z) (i : Z) : option Z :=
  if i <? 0 then None else data !! Z.to_nat i.

(** [data[i] > 50], false for [undefined]. *)
Definition above50 (v : option Z) : bool :=
  match v with
  | Some n => 50 <? n
  | None => false
  end.

(** The first channel of the sample at column [x] of row [y]. *)
Definition channel0 (data : list Z) (w x y : Z) : option Z :=
  sampleAt data ((y * w + x) * 4).

Definition isInk (data : list Z) (w x y : Z) : bool :=
  above50 (channel0 data w x y).

Definition inRaster (w h x y : Z) : Prop :=
  0 <= x < w /\ 0 <= y < h.

(** The cells [(x, y)] in the order the two nested loops visit them. *)
Definition cells (w h : Z) : list (Z * Z) :=
  y ← seqZ 0 h; x ← seqZ 0 w; [(x, y)].

(** ** getBoundingBox *)

Record BBox := mkBBox {
  minX : Z;
  minY : Z;
  bbox_w : Z;   (* field [w] *)
  bbox_h : Z;   (* field [h] *)
}.

(** The loop variables [minX, minY, maxX, maxY, found]. *)
Record Scan := mkScan {
  s_minX : Z;
  s_minY : Z;
  s_maxX : Z;
  s_maxY : Z;
  s_found : bool;
}.

Definition scanCell (data : list Z) (w : Z) (s : Scan) (x y : Z) : Scan :=
  if isInk data w x y then
    {| s_minX := if x <? s_minX s then x else s_minX s;
       s_maxX := if s_maxX s <? x then x else s_maxX s;
       s_minY := if y <? s_minY s then y else s_minY s;
       s_maxY := if s_maxY s <? y then y else s_maxY s;
       s_found := true |}
  else s.

Definition scanStart (w h : Z) : Scan :=
  {| s_minX := w; s_minY := h; s_maxX := 0; s_maxY := 0; s_found := false |}.

Definition scanAll (data : list Z) (w h : Z) : Scan :=
  foldl (fun s y => foldl (fun s x => scanCell data w s x y) s (seqZ 0 w))
        (scanStart w h) (seqZ 0 h).

Definition boxOfScan (s : Scan) : option BBox :=
  if s_found s then
    Some {| minX := s_minX s; minY := s_minY s;
            bbox_w := s_maxX s - s_minX s + 1;
            bbox_h := s_maxY s - s_minY s + 1 |}
  else None.

Definition getBoundingBox (data : list Z) (w h : Z) : option BBox :=
  boxOfScan (scanAll data w h).


(** The same scan, over an explicit list of cells (used to state what the
    loop variables mean half-way through). *)
Definition scanList (data : list Z) (w h : Z) (l : list (Z * Z)) : Scan :=
  foldl (fun s c => scanCell data w s (fst c) (snd c)) (scanStart w h) l.

(** What the loop variables mean after the cells of [l] have been visited. *)
Record ScanInv (data : list Z) (w h : Z) (l : list (Z * Z)) (s : Scan) : Prop := {
  inv_blank : s_found s = false ->
    s = scanStart w h /\ forall x y, (x, y) ∈ l -> isInk data w x y = false;
  inv_some : s_found s = true -> exists x y, (x, y) ∈ l /\ isInk data w x y = true;
  inv_bounds : s_found s = true -> forall x y, (x, y) ∈ l -> isInk data w x y = true ->
    s_minX s <= x <= s_maxX s /\ s_minY s <= y <= s_maxY s;
  inv_left : s_found s = true -> exists y, (s_minX s, y) ∈ l /\ isInk data w (s_minX s) y = true;
  inv_right : s_found s = true -> exists y, (s_maxX s, y) ∈ l /\ isInk data w (s_maxX s) y = true;
  inv_top : s_found s = true -> exists x, (x, s_minY s) ∈ l /\ isInk data w x (s_minY s) = true;
  inv_bottom : s_found s = true -> exists x, (x, s_maxY s) ∈ l /\ isInk data w x (s_maxY s) = true;
}.

(** A box is tight for a raster when it contains every ink sample and each of
    its four sides touches one. *)
Record TightBox (data : list Z) (w h : Z) (b : BBox) : Prop := {
  tight_contains : forall x y, inRaster w h x y -> isInk data w x y = true ->
    minX b <= x <= minX b + bbox_w b - 1 /\ minY b <= y <= minY b + bbox_h b - 1;
  tight_left : exists y, inRaster w h (minX b) y /\ isInk data w (minX b) y = true;
  tight_right : exists y, inRaster w h (minX b + bbox_w b - 1) y
                          /\ isInk data w (minX b + bbox_w b - 1) y = true;
  tight_top : exists x, inRaster w h x (minY b) /\ isInk data w x (minY b) = true;
  tight_bottom : exists x, inRaster w h x (minY b + bbox_h b - 1)
                           /\ isInk data w x (minY b + bbox_h b - 1) = true;
}.

(** ** getCenterOfMass *)

(** The returned object [{x, y}]. *)
Record Point := mkPoint {
  pt_x : float;
  pt_y : float;
}.

(** The loop variables [sumX, sumY, mass]. *)
Record Moments := mkMoments {
  sumX : Z;
  sumY : Z;
  mass : Z;
}.

Definition massCell (data : list Z) (w : Z) (m : Moments) (x y : Z) : Moments :=
  let val := channel0 data w x y in
  if above50 val then
    match val with
    | Some v => {| sumX := sumX m + x * v; sumY := sumY m + y * v; mass := mass m + v |}
    | None => m
    end
  else m.

Definition momentsAll (data : list Z) (w h : Z) : Moments :=
  foldl (fun m y => foldl (fun m x => massCell data w m x y) m (seqZ 0 w))
        {| sumX := 0; sumY := 0; mass := 0 |} (seqZ 0 h).

Definition getCenterOfMass (data : list Z) (w h : Z) : option Point :=
  let m := momentsAll data w h in
  if mass m =? 0 then None
  else Some {| pt_x := of_Z (sumX m) / of_Z (mass m);
               pt_y := of_Z (sumY m) / of_Z (mass m) |}%float.

(** The ink samples one cell contributes: itself with its value, or nothing. *)
Definition inkOfCell (data : list Z) (w : Z) (c : Z * Z) : list (Z * Z * Z) :=
  match channel0 data w (fst c) (snd c) with
  | Some v => if 50 <? v then [(fst c, snd c, v)] else []
  | None => []
  end.

(** The ink samples [(x, y, value)] of a raster, in scan order. *)
Definition inkSamples (data : list Z) (w h : Z) : list (Z * Z * Z) :=
  cells w h ≫= inkOfCell data w.

Definition sumZ (l : list Z) : Z := foldr Z.add 0 l.

(** The three sums of the centre of mass, over a list of samples. *)
Definition momentX (s : list (Z * Z * Z)) : Z := sumZ ((fun t => fst (fst t) * snd t) <$> s).
Definition momentY (s : list (Z * Z * Z)) : Z := sumZ ((fun t => snd (fst t) * snd t) <$> s).
Definition totalMass (s : list (Z * Z * Z)) : Z := sumZ (snd <$> s).

(** The centroid of the binary ink mask, every ink sample counting once:
    what [getCenterOfMass] is contrasted with. *)
Definition maskCentroid (data : list Z) (w h : Z) : option Point :=
  let s := inkSamples data w h in
  let n := Z.of_nat (length s) in
  if n =? 0 then None
  else Some {| pt_x := of_Z (sumZ ((fun t => fst (fst t)) <$> s)) / of_Z n;
               pt_y := of_Z (sumZ ((fun t => snd (fst t)) <$> s)) / of_Z n |}%float.

(** The loop variables as the tuples the second copy keeps them in. *)
Definition scanTuple (s : Scan) : Z * Z * Z * Z * bool :=
  (s_minX s, s_minY s, s_maxX s, s_maxY s, s_found s).

Definition momentsTuple (m : Moments) : Z * Z * Z := (sumX m, sumY m, mass m).

(** ** The second copy of the two scans (the resizable-canvas script) *)

Module Resizable.

Definition getBoundingBox (data : list Z) (w h : Z) : option BBox :=
  let '(minX, minY, maxX, maxY, found) :=
    foldl (fun st y =>
      foldl (fun st x =>
        let '(minX, minY, maxX, maxY, found) := st in
        if above50 (sampleAt data ((y * w + x) * 4)) then
          (if x <? minX then x else minX,
           if y <? minY then y else minY,
           if maxX <? x then x else maxX,
           if maxY <? y then y else maxY,
           true)
        else st) st (seqZ 0 w))
      (w, h, 0, 0, false) (seqZ 0 h) in
  if found then Some {| minX := minX; minY := minY;
                        bbox_w := maxX - minX + 1; bbox_h := maxY - minY + 1 |}
  else None.

Definition getCenterOfMass (data : list Z) (w h : Z) : option Point :=
  let '(sumX, sumY, mass) :=
    foldl (fun st y =>
      foldl (fun st x =>
        let '(sumX, sumY, mass) := st in
        match sampleAt data ((y * w + x) * 4) with
        | Some val => if 50 <? val then (sumX + x * val, sumY + y * val, mass + val) else st
        | None => st
        end) st (seqZ 0 w))
      (0, 0, 0) (seqZ 0 h) in
  if mass =? 0 then None
  else Some {| pt_x := of_Z sumX / of_Z mass; pt_y := of_Z sumY / of_Z mass |}%float.

End Resizable.

(** ** Number helpers of the runtime *)

(** [Math.min(a, b)]: NaN if either is NaN, and -0 below +0. *)
Definition Math_min (a b : float) : float :=
  if (PrimFloat.is_nan a || PrimFloat.is_nan b)%bool then PrimFloat.nan
  else if (b <? a)%float then b
  else if (a <? b)%float then a
  else if PrimFloat.get_sign b then b else a.

(** [Math.max(a, b)]: NaN if either is NaN, and +0 above -0. *)
Definition Math_max (a b : float) : float :=
  if (PrimFloat.is_nan a || PrimFloat.is_nan b)%bool then PrimFloat.nan
  else if (a <? b)%float then b
  else if (b <? a)%float then a
  else if PrimFloat.get_sign a then b else a.

(** [Math.max(...l)], which is [-Infinity] for no argument. *)
Definition Math_max_list (l : list float) : float :=
  foldl Math_max PrimFloat.neg_infinity l.

(** [l.indexOf(v)], comparing with [===]; [-1] when absent. *)
Fixpoint indexOfFrom (l : list float) (v : float) (i : Z) : Z :=
  match l with
  | [] => -1
  | a :: l' => if (a =? v)%float then i else indexOfFrom l' v (i + 1)
  end.

Definition indexOf (l : list float) (v : float) : Z := indexOfFrom l v 0.

(** ** The 20-pixel envelope *)

Section Scaling.
Context {T : Type} `{Number T}.

(** [scale = 20 / Math.max(bbox.w, bbox.h)] *)
Definition scale (b : BBox) : T :=
  num_div (num_of_Z 20) (num_of_Z (Z.max (bbox_w b) (bbox_h b))).

(** [sw = bbox.w * scale] *)
Definition sw (b : BBox) : T := num_mul (num_of_Z (bbox_w b)) (scale b).

(** [sh = bbox.h * scale] *)
Definition sh (b : BBox) : T := num_mul (num_of_Z (bbox_h b)) (scale b).

End Scaling.

(** [|v - 20| <= 2^-48], one unit in the last place of 20. *)
Definition near20 (v : float) : bool :=
  ((20 - 0x1p-48 <=? v) && (v <=? 20 + 0x1p-48))%float.

(** [f] holds on [fuel] consecutive integers from [z] on. *)
Fixpoint allFrom (fuel : nat) (z : Z) (f : Z -> bool) : bool :=
  match fuel with
  | O => true
  | S k => f z && allFrom k (z + 1) f
  end.

(** The check behind the bounded statement about [sw] and [sh], for the boxes
    whose longer side is [m]: with [s = 20 / m], the larger of [m * s] and
    [k * s] is within 2^-48 of 20 for every shorter side [k], whichever of
    the two is the width. *)
Definition rowOk (m : Z) : bool :=
  let s := (20 / of_Z m)%float in
  allFrom (Z.to_nat m) 1
          (fun k => near20 (Math_max (of_Z m * s) (of_Z k * s))
                    && near20 (Math_max (of_Z k * s) (of_Z m * s))).

Definition rowsOk (n : Z) : bool := allFrom (Z.to_nat n) 1 rowOk.

(** ** The canvas interface of the browser *)

Inductive Smoothing := SmoothDefault | SmoothHigh.

(** The canvas operations the script calls. What they draw is the browser's
    business; only the shape of what [getImageData] returns is assumed
    ([CanvasLaws]). *)
Class CanvasAPI := {
  Canvas : Type;
  (** [document.createElement('canvas')] with [width] and [height] set *)
  createCanvas : Z -> Z -> Canvas;
  (** [ctx.fillStyle = style; ctx.fillRect(x, y, w, h)] *)
  fillRect : string -> Z -> Z -> Z -> Z -> Canvas -> Canvas;
  (** [ctx.drawImage(src, sx, sy, sw, sh, dx, dy, dw, dh)] on the last
      argument, under the context's smoothing setting *)
  drawImage : Smoothing -> Canvas -> float -> float -> float -> float ->
              float -> float -> float -> float -> Canvas -> Canvas;
  (** [ctx.drawImage(src, dx, dy)] *)
  drawImageAt : Canvas -> Z -> Z -> Canvas -> Canvas;
  (** [ctx.getImageData(x, y, w, h).data] *)
  getImageData : Canvas -> Z -> Z -> Z -> Z -> list Z;
}.

Class CanvasLaws `{CanvasAPI} := {
  getImageData_length : forall c x y w h, 0 <= w -> 0 <= h ->
    length (getImageData c x y w h) = Z.to_nat (4 * w * h);
  getImageData_bytes : forall c x y w h v,
    v ∈ getImageData c x y w h -> 0 <= v <= 255;
}.

(** ** extractInputTensor *)

Definition HIDDEN_SIZE : Z := 560.

Inductive Label := Unknown | Digit (idx : Z).

(** The part of the page the pipeline reads and writes. [boxCalls] is a ghost
    log: every call of [getBoundingBox] appends its result. *)
Record Page `{CanvasAPI} := mkPage {
  hiddenCanvas : Canvas;
  sensorCanvas : Canvas;
  model : bool;                      (* [model !== null] *)
  predictionResult : Label;          (* [predictionResult.innerText] *)
  liveTensors : list nat;            (* tensors created and not disposed *)
  tensorCount : nat;                 (* tensors created so far *)
  boxCalls : list (option BBox);
}.

Section Frame.
Context `{CanvasAPI}.

Definition logBox (b : option BBox) (pg : Page) : Page :=
  {| hiddenCanvas := hiddenCanvas pg; sensorCanvas := sensorCanvas pg;
     model := model pg; predictionResult := predictionResult pg;
     liveTensors := liveTensors pg; tensorCount := tensorCount pg;
     boxCalls := boxCalls pg ++ [b] |}.

Definition setSensor (c : Canvas) (pg : Page) : Page :=
  {| hiddenCanvas := hiddenCanvas pg; sensorCanvas := c;
     model := model pg; predictionResult := predictionResult pg;
     liveTensors := liveTensors pg; tensorCount := tensorCount pg;
     boxCalls := boxCalls pg |}.

(** [temp]: a 28x28 canvas filled black. *)
Definition blackFrame : Canvas := fillRect "black" 0 0 28 28 (createCanvas 28 28).

(** [scaler]: the box resampled to [sw] x [sh] at the origin. *)
Definition scalerOf (hidden : Canvas) (b : BBox) : Canvas :=
  drawImage SmoothHigh hidden
            (of_Z (minX b)) (of_Z (minY b)) (of_Z (bbox_w b)) (of_Z (bbox_h b))
            0 0 (sw b) (sh b) (createCanvas 28 28).

(** [helper]: the scaled image pasted at the centre, to measure its centroid. *)
Definition helperOf (scaler : Canvas) (b : BBox) : Canvas :=
  drawImage SmoothDefault scaler 0 0 (sw b) (sh b)
            ((28 - sw b) / 2) ((28 - sh b) / 2) (sw b) (sh b) (createCanvas 28 28).

(** [tx, ty] after the centroid correction and the shift. *)
Definition offsetOf (com : option Point) (b : BBox) (shiftX shiftY : Z) : float * float :=
  let tx := ((28 - sw b) / 2)%float in
  let ty := ((28 - sh b) / 2)%float in
  let '(tx, ty) :=
    match com with
    | Some c => (tx + (14 - pt_x c), ty + (14 - pt_y c))%float
    | None => (tx, ty)
    end in
  (tx + of_Z shiftX, ty + of_Z shiftY)%float.

(** [temp] after the last [drawImage]: the rendered 28x28 frame. *)
Definition frameOf (hidden : Canvas) (b : BBox) (shiftX shiftY : Z) : Canvas :=
  let scaler := scalerOf hidden b in
  let helper := helperOf scaler b in
  let com := getCenterOfMass (getImageData helper 0 0 28 28) 28 28 in
  let '(tx, ty) := offsetOf com b shiftX shiftY in
  drawImage SmoothDefault scaler 0 0 (sw b) (sh b) tx ty (sw b) (sh b) blackFrame.

(** [val = finalData[i] / 255.0; val = Math.min(1.0, val * 1.3)] *)
Definition boost (raw : option Z) : float :=
  let val := (match raw with Some v => of_Z v | None => PrimFloat.nan end / 255)%float in
  Math_min 1 (val * 1.3)%float.

(** The boosted value of byte [v] lies between 0 and 1. *)
Definition boostInRange (v : Z) : bool :=
  ((0 <=? boost (Some v)) && (boost (Some v) <=? 1))%float.

(** The values of [i] in [for (i = 0; i < len; i += 4)]. *)
Definition strideIndices (len : Z) : list Z :=
  (fun k => 4 * k) <$> seqZ 0 ((len + 3) / 4).

(** The read-back loop: one boosted value per sample of [finalData]. *)
Definition readInput (finalData : list Z) : list float :=
  (fun i => boost (sampleAt finalData i)) <$> strideIndices (Z.of_nat (length finalData)).

(** The box [extractInputTensor] works from. *)
Definition boxOfPage (pg : Page) : option BBox :=
  getBoundingBox (getImageData (hiddenCanvas pg) 0 0 HIDDEN_SIZE HIDDEN_SIZE)
                 HIDDEN_SIZE HIDDEN_SIZE.

(** The 28x28 pixel data [extractInputTensor] reads back. *)
Definition finalDataOf (pg : Page) (b : BBox) (shiftX shiftY : Z) : list Z :=
  getImageData (frameOf (hiddenCanvas pg) b shiftX shiftY) 0 0 28 28.

Definition extractInputTensor (shiftX shiftY : Z) (pg : Page) : option (list float) * Page :=
  let rawData := getImageData (hiddenCanvas pg) 0 0 HIDDEN_SIZE HIDDEN_SIZE in
  let bbox := getBoundingBox rawData HIDDEN_SIZE HIDDEN_SIZE in
  let pg := logBox bbox pg in
  match bbox with
  | None => (None, pg)
  | Some b =>
      let temp := frameOf (hiddenCanvas pg) b shiftX shiftY in
      let pg := if ((shiftX =? 0) && (shiftY =? 0))%bool
                then setSensor (drawImageAt temp 0 0 (sensorCanvas pg)) pg
                else pg in
      (Some (readInput (getImageData temp 0 0 28 28)), pg)
  end.

End Frame.

(** ** Averaging the batch and ranking the classes *)

Section Aggregation.
Context {T : Type} `{Number T}.

(** [probs[k]] as an operand of [+=]. *)
Definition probAt (probs : list T) (k : nat) : T :=
  match probs !! k with
  | Some p => p
  | None => num_nan
  end.

(** [for (j = 0; j < 10; j++) avg[j] += probs[i*10 + j]] *)
Definition addRow (probs : list T) (avg : list T) (i : nat) : list T :=
  foldl (fun avg j => alter (fun a => num_add a (probAt probs (i * 10 + j))) j avg)
        avg (seq 0 10).

(** [avg] after the two loops, for a batch of [n] rows. *)
Definition average (probs : list T) (n : nat) : list T :=
  let sums := foldl (addRow probs) (replicate 10 (num_of_Z 0)) (seq 0 n) in
  foldl (fun avg j => alter (fun a => num_div a (num_of_Z (Z.of_nat n))) j avg)
        sums (seq 0 10).

(** Row [i] of the batch of probabilities. *)
Definition rowOf (probs : list T) (i : nat) : list T :=
  (fun j => probAt probs (i * 10 + j)) <$> seq 0 10.

(** The sum of a vector, added up from the left. *)
Definition sumList (l : list T) : T := foldl num_add (num_of_Z 0) l.

(** The sum of column [j] over the first [n] rows, added up from the top. *)
Definition columnSum (probs : list T) (n : nat) (j : nat) : T :=
  foldl (fun s i => num_add s (probAt probs (i * 10 + j))) (num_of_Z 0) (seq 0 n).

(** The arithmetic mean of column [j], as the specification words it: the
    column summed over the rows, then divided by the number of rows. *)
Definition columnMean (probs : list T) (n : nat) (j : nat) : T :=
  num_div (columnSum probs n j) (num_of_Z (Z.of_nat n)).

(** An entry [{p, i}] of the ranking. *)
Definition Entry : Type := T * nat.

(** [(a, b) => b.p - a.p] *)
Definition byProbability (a b : Entry) : T := num_sub (fst b) (fst a).

(** A comparator result above zero: the first argument goes after the second. *)
Definition aboveZero (v : T) : bool := num_ltb (num_of_Z 0) v.

(** [Array.prototype.sort(cmp)]. ECMAScript requires the sort to be stable;
    for a comparator that orders its arguments consistently the outcome is
    the one of this insertion sort, which puts each element behind the
    entries it does not have to precede. *)
Fixpoint insertSorted (cmp : Entry -> Entry -> T) (x : Entry) (l : list Entry) : list Entry :=
  match l with
  | [] => [x]
  | y :: l' => if aboveZero (cmp y x) then x :: y :: l' else y :: insertSorted cmp x l'
  end.

Definition sort (cmp : Entry -> Entry -> T) (l : list Entry) : list Entry :=
  foldl (fun acc x => insertSorted cmp x acc) [] l.

(** [avg.map((p, i) => ({p, i}))] *)
Definition entries (avg : list T) : list Entry := imap (fun i p => (p, i)) avg.

(** [avg.map(...).sort((a, b) => b.p - a.p).slice(0, 3)] *)
Definition contenders (avg : list T) : list Entry :=
  take 3 (sort byProbability (entries avg)).

(** [a] is ranked before [b]: a larger probability, or the same probability
    and a lower class index. *)
Definition rankedBefore (a b : Entry) : Prop :=
  num_ltb (fst b) (fst a) = true
  \/ (num_ltb (fst a) (fst b) = false /\ num_ltb (fst b) (fst a) = false
      /\ (snd a < snd b)%nat).

(** The comparator agrees with the order on the numbers of [l], and that order
    is a strict weak order on them: what the ranking needs from the
    arithmetic. It holds of every list of doubles without NaN and of every
    list of exact rationals. *)
Definition orderedNumbers (l : list T) : bool :=
  forallb (fun a => forallb (fun b =>
    Bool.eqb (aboveZero (num_sub b a)) (num_ltb a b)
    && implb (num_ltb a b) (negb (num_ltb b a))
    && forallb (fun c => implb (negb (num_ltb a b) && num_ltb a c) (num_ltb b c)) l) l) l.

(** The class indices grow along the list, as they do in [entries avg]. *)
Definition increasingIdx (l : list Entry) : Prop :=
  forall i j a b, l !! i = Some a -> l !! j = Some b -> (i < j)%nat -> (snd a < snd b)%nat.

End Aggregation.

(** ** The click handler of the predict button *)

(** What the model does with a batch: [model.predict] throws, or it returns
    and [preds.data()] rejects, or the probabilities arrive (row-major, ten
    per row). *)
Inductive Inference :=
| PredictThrows
| DataThrows
| Probabilities (probs : list float).

Class TFModel := infer : list (list float) -> Inference.

(** How the handler leaves. *)
Inductive Exit :=
| ExitNoModel
| ExitNoInk
| ExitThrown
| ExitDone (idx : Z) (max : float) (sorted : list (float * nat)).

Definition shifts : list (Z * Z) := [(0, 0); (0, 1); (0, -1); (1, 0); (-1, 0)].

Section Handler.
Context `{CanvasAPI} `{TFModel}.

Definition setPrediction (l : Label) (pg : Page) : Page :=
  {| hiddenCanvas := hiddenCanvas pg; sensorCanvas := sensorCanvas pg;
     model := model pg; predictionResult := l;
     liveTensors := liveTensors pg; tensorCount := tensorCount pg;
     boxCalls := boxCalls pg |}.

(** A new tensor ([tf.tensor2d], or the result of [model.predict]). *)
Definition newTensor (pg : Page) : nat * Page :=
  (tensorCount pg,
   {| hiddenCanvas := hiddenCanvas pg; sensorCanvas := sensorCanvas pg;
      model := model pg; predictionResult := predictionResult pg;
      liveTensors := tensorCount pg :: liveTensors pg;
      tensorCount := S (tensorCount pg);
      boxCalls := boxCalls pg |}).

(** [t.dispose()] *)
Definition dispose (t : nat) (pg : Page) : Page :=
  {| hiddenCanvas := hiddenCanvas pg; sensorCanvas := sensorCanvas pg;
     model := model pg; predictionResult := predictionResult pg;
     liveTensors := filter (fun u => u <> t) (liveTensors pg);
     tensorCount := tensorCount pg;
     boxCalls := boxCalls pg |}.

(** One round of [for (let s of shifts) { inp = extractInputTensor(s[0], s[1]);
    if (inp) batchInputs.push(inp); }], on the pair of [batchInputs] and the
    page. *)
Definition collectStep (st : list (list float) * Page) (s : Z * Z) : list (list float) * Page :=
  let '(inp, pg') := extractInputTensor (fst s) (snd s) (snd st) in
  match inp with
  | Some v => (fst st ++ [v], pg')
  | None => (fst st, pg')
  end.

(** The whole loop over [shifts]. *)
Definition collectFrames (pg : Page) : list (list float) * Page :=
  foldl collectStep ([], pg) shifts.

(** The frames [extractInputTensor] builds for a list of shifts from box [b]. *)
Definition framesOf (pg : Page) (b : BBox) (l : list (Z * Z)) : list (list float) :=
  (fun s => readInput (finalDataOf pg b (fst s) (snd s))) <$> l.

(** The fields of the page a step of the pipeline leaves alone. *)
Definition sameButSensor (pg pg' : Page) : Prop :=
  hiddenCanvas pg' = hiddenCanvas pg
  /\ model pg' = model pg
  /\ predictionResult pg' = predictionResult pg
  /\ liveTensors pg' = liveTensors pg
  /\ tensorCount pg' = tensorCount pg.

Definition onPredictClick (pg : Page) : Exit * Page :=
  if negb (model pg) then (ExitNoModel, pg)
  else
    let '(batchInputs, pg) := collectFrames pg in
    if (length batchInputs =? 0)%nat then (ExitNoInk, setPrediction Unknown pg)
    else
      let '(batch, pg) := newTensor pg in
      match infer batchInputs with
      | PredictThrows => (ExitThrown, pg)
      | DataThrows =>
          let '(preds, pg) := newTensor pg in
          (ExitThrown, pg)
      | Probabilities probs =>
          let '(preds, pg) := newTensor pg in
          let avg := average probs (length batchInputs) in
          let max := Math_max_list avg in
          let idx := indexOf avg max in
          let pg := setPrediction (Digit idx) pg in
          let sorted := contenders avg in
          let pg := dispose batch pg in
          let pg := dispose preds pg in
          (ExitDone idx max sorted, pg)
      end.

End Handler.

(** ** A stand-in browser for the closed examples

    Canvases are their pixel data, drawing copies the source over the
    destination, and [getImageData] cuts or pads the data to the size asked
    for, clamping every byte. *)

Definition clampByte (v : Z) : Z := Z.max 0 (Z.min 255 v).

Definition resizeData (n : nat) (d : list Z) : list Z :=
  take n ((clampByte <$> d) ++ replicate n 0).

Definition stubCanvas : CanvasAPI := {|
  Canvas := list Z;
  createCanvas := fun w h => replicate (Z.to_nat (4 * w * h)) 0;
  fillRect := fun _ _ _ _ _ c => c;
  drawImage := fun _ src _ _ _ _ _ _ _ _ _ => src;
  drawImageAt := fun src _ _ _ => src;
  getImageData := fun c _ _ w h => resizeData (Z.to_nat (4 * w * h)) c;
|}.

(** A page whose hidden canvas holds one white sample in its top-left corner. *)
Definition inkPage : @Page stubCanvas :=
  {| hiddenCanvas := [255; 255; 255; 255] : @Canvas stubCanvas;
     sensorCanvas := [] : @Canvas stubCanvas;
     model := true; predictionResult := Unknown;
     liveTensors := []; tensorCount := 0; boxCalls := [] |}.

(** A page whose hidden canvas is blank. *)
Definition blankPage : @Page stubCanvas :=
  {| hiddenCanvas := [] : @Canvas stubCanvas;
     sensorCanvas := [] : @Canvas stubCanvas;
     model := true; predictionResult := Unknown;
     liveTensors := []; tensorCount := 0; boxCalls := [] |}.

(** The probabilities of the ranking example. *)
Definition exampleRow : list float :=
  [0.1; 0.05; 0.6; 0.0; 0.05; 0.0; 0.1; 0.0; 0.1; 0.0]%float.

Definition exampleRowQ : list Qc :=
  (fun q => Q2Qc q) <$> [1 # 10; 1 # 20; 6 # 10; 0; 1 # 20; 0; 1 # 10; 0; 1 # 10; 0]%Q.

(** A batch of two rows in exact arithmetic, and of five rows in binary64. *)
Definition twoRowsQ : list Qc := exampleRowQ ++ exampleRowQ.

Definition fiveRows : list float :=
  exampleRow ++ exampleRow ++ exampleRow ++ exampleRow ++ exampleRow.

(** [|v - 1| <= 1e-6] *)
Definition nearOne (v : float) : bool :=
  ((1 - 1e-6 <=? v) && (v <=? 1 + 1e-6))%float.

(** Three models: one whose [predict] throws, one whose read-back rejects,
    one that answers every row with [exampleRow]. *)
Definition throwingModel : TFModel := fun _ => PredictThrows.
Definition rejectingModel : TFModel := fun _ => DataThrows.
Definition steadyModel : TFModel :=
  fun batch => Probabilities (batch ≫= fun _ => exampleRow).

(** A 3x2 raster with ink at (1,0) and (2,1), of intensities 100 and 200. *)
Definition twoDots : list Z :=
  [0; 0; 0; 255;   100; 0; 0; 255;   0; 0; 0; 255;
   0; 0; 0; 255;   50; 0; 0; 255;    200; 0; 0; 255].

(** ** Binary64 values, for the order of the comparator *)

(** The value of a binary64 number in units of 2^-1074, the infinities put at
    2^2098 and its opposite, beyond every finite value. *)
Definition units (x : spec_float) : Z :=
  match x with
  | S754_zero _ => 0
  | S754_infinity s => if s then - 2 ^ 2098 else 2 ^ 2098
  | S754_nan => 0
  | S754_finite s m e => cond_Zopp s (Zpos m * 2 ^ (e + 1074))
  end.

Definition isNaN (x : spec_float) : bool :=
  match x with S754_nan => true | _ => false end.

Definition isPositive (x : spec_float) : bool :=
  match x with
  | S754_infinity false | S754_finite false _ _ => true
  | _ => false
  end.

(** ** Proof automation for the scan invariant *)

(** The witness of a side of the box stays the one recorded by hypothesis
    [I], or becomes the cell just visited. *)
Ltac old_cell I Hf field :=
  let v := fresh "v" in let Hin := fresh "Hin" in let Hk := fresh "Hk" in
  destruct (field _ _ _ _ _ I Hf) as (v & Hin & Hk);
  exists v; split; [apply elem_of_app; left; exact Hin | exact Hk].

Ltac new_cell y :=
  exists y; split;
  [apply elem_of_app; right; apply list_elem_of_singleton; reflexivity | assumption].

(** Closes a goal [Some c = Some (a ?= b)] by linear arithmetic. *)
Ltac settle_compare :=
  f_equal; symmetry;
  first [ apply Z.compare_lt_iff; lia
        | apply Z.compare_gt_iff; lia
        | apply Z.compare_eq_iff; lia ].

(** ** Exact values of doubles *)

(** The exact value of a double, in units of 2^-1074, and the exact sum of a
    vector of doubles; the number 1 is [2^1074] units. *)
Definition unitsOf (x : float) : Z := units (Prim2SF x).

Definition exactSum (l : list float) : Z := sumZ (unitsOf <$> l).

(** [|v - 1| <= 1/den], for [v] in units. *)
Definition withinOfOne (den : Z) (v : Z) : Prop :=
  Z.abs (v - 2 ^ 1074) * den <= 2 ^ 1074.

(** A double that is a number and is not below zero. *)
Definition nonNegative (x : float) : bool :=
  negb (PrimFloat.is_nan x) && negb (x <? 0)%float.

(** A number that is zero or positive, and below [2^1023]. *)
Definition moderate (x : spec_float) : Prop :=
  isNaN x = false /\ 0 <= units x < 2 ^ 2097.

(** Column [j] of the first [n] rows of a batch. *)
Definition columnOf {T : Type} `{Number T} (probs : list T) (n j : nat) : list T :=
  (fun i => probAt probs (i * 10 + j)) <$> seq 0 n.

(** ** Checks on the canonical frame *)

(** [|v - 20| <= 2^-45] *)
Definition about20 (v : float) : bool :=
  ((20 - 0x1p-45 <=? v) && (v <=? 20 + 0x1p-45))%float.

(** The profile of the contrast boost at byte [v] against byte [v']: it does
    not decrease, and it increases as long as it is not saturated. *)
Definition boostPairOk (v v' : Z) : bool :=
  implb (v <? v')
        ((boost (Some v) <=? boost (Some v'))%float
         && implb (v' <=? 197) (boost (Some v) <? boost (Some v'))%float).

(** The boost of byte [v] is 1 exactly from 197 on. *)
Definition boostProfileOk (v : Z) : bool :=
  Bool.eqb (boost (Some v) =? 1)%float (197 <=? v) && allFrom 256 0 (boostPairOk v).

(** ** The drawing engine

    The visual canvas and the hidden canvas as the user's strokes reach
    them: each is kept as its size and the list of calls made on its 2D
    context since its bitmap was last reset, oldest first. What the calls
    paint is the browser's business. *)

(** An integer as a template literal prints it. *)
Definition showInt (z : Z) : string := DecimalString.NilZero.string_of_int (Z.to_int z).

Inductive DrawCall :=
| SetLineCap (v : string)
| SetLineJoin (v : string)
| SetStrokeStyle (v : string)
| SetLineWidth (v : Z)
| SetShadowBlur (v : Z)
| SetShadowColor (v : string)
| SetFillStyle (v : string)
| FillRect (x y w h : Z)
| BeginPath
| Arc (x y r : float)          (* [arc(x, y, r, 0, Math.PI*2)] *)
| Fill
| MoveTo (x y : float)
| LineTo (x y : float)
| Stroke.

Record Surface := mkSurface {
  width : Z;
  height : Z;
  calls : list DrawCall;
}.

(** [canvas.getBoundingClientRect()] *)
Record ClientRect := mkRect {
  rect_left : float;
  rect_top : float;
  rect_width : float;
  rect_height : float;
}.

Record Touch := mkTouch {
  touch_clientX : float;
  touch_clientY : float;
}.

(** A mouse or touch event, with the rectangle of the visual canvas at the
    time. [touches] is absent on a mouse event; on [touchstart] and
    [touchmove] it holds at least one touch. *)
Record PointerEvent := mkPointer {
  touches : option (Touch * list Touch);
  clientX : float;
  clientY : float;
  clientRect : ClientRect;
}.

(** The variables and page elements the drawing engine works on. A text of
    [None] stands for an element the page does not have. *)
Record Board := mkBoard {
  visual : Surface;                 (* [canvas], [ctx] *)
  hidden : Surface;                 (* [hiddenCanvas], [hiddenCtx] *)
  sensor : Surface;                 (* [sensorCanvas], [sensorCtx] *)
  isDrawing : bool;
  lastX : float;
  lastY : float;
  resultText : option string;       (* [predictionResult.innerText] *)
  confidenceText : option string;   (* [confidenceValue.innerText] *)
  barWidth : option string;         (* [confidenceBar.style.width] *)
  contenderRows : option string;    (* [contendersList.innerHTML] *)
  resolutionText : option string;   (* [resolutionDisplay.innerText] *)
}.

Definition VISUAL_SIZE : Z := 560.
Definition VISUAL_COLOR : string := "#000000".
Definition VISUAL_GLOW_COLOR : string := "rgba(0,0,0,0)".
Definition VISUAL_GLOW_SIZE : Z := 0.
Definition VISUAL_STROKE_WIDTH : Z := 25.
Definition HIDDEN_STROKE_WIDTH : Z := 45.
Definition BG_COLOR : string := "#ffffff".
Definition DATA_BG_COLOR : string := "black".

(** Calls [l] on a context. *)
Definition draw (l : list DrawCall) (s : Surface) : Surface :=
  {| width := width s; height := height s; calls := calls s ++ l |}.

(** [c.width = w; c.height = h]: setting the size resets the bitmap and the
    context. *)
Definition resize (w h : Z) (s : Surface) : Surface :=
  {| width := w; height := h; calls := [] |}.

(** [if (el) el.prop = v] *)
Definition setText (v : string) (el : option string) : option string :=
  match el with
  | Some _ => Some v
  | None => None
  end.

Definition withSurfaces (v h s : Surface) (b : Board) : Board :=
  {| visual := v; hidden := h; sensor := s;
     isDrawing := isDrawing b; lastX := lastX b; lastY := lastY b;
     resultText := resultText b; confidenceText := confidenceText b;
     barWidth := barWidth b; contenderRows := contenderRows b;
     resolutionText := resolutionText b |}.

Definition withPen (d : bool) (x y : float) (b : Board) : Board :=
  {| visual := visual b; hidden := hidden b; sensor := sensor b;
     isDrawing := d; lastX := x; lastY := y;
     resultText := resultText b; confidenceText := confidenceText b;
     barWidth := barWidth b; contenderRows := contenderRows b;
     resolutionText := resolutionText b |}.

(** The four page elements [clearBoard] resets. *)
Definition resetReadout (b : Board) : Board :=
  {| visual := visual b; hidden := hidden b; sensor := sensor b;
     isDrawing := isDrawing b; lastX := lastX b; lastY := lastY b;
     resultText := setText "?" (resultText b);
     confidenceText := setText "0.0%" (confidenceText b);
     barWidth := setText "0%" (barWidth b);
     contenderRows := setText EmptyString (contenderRows b);
     resolutionText := resolutionText b |}.

(** [clearBoard] of [script.js]. *)
Definition clearBoard (b : Board) : Board :=
  resetReadout
    (withSurfaces
       (draw [SetFillStyle BG_COLOR; FillRect 0 0 VISUAL_SIZE VISUAL_SIZE] (visual b))
       (draw [SetFillStyle DATA_BG_COLOR; FillRect 0 0 HIDDEN_SIZE HIDDEN_SIZE] (hidden b))
       (draw [SetFillStyle "black"; FillRect 0 0 28 28] (sensor b))
       b).

(** [initCanvas] of [script.js]. *)
Definition initCanvas (b : Board) : Board :=
  clearBoard
    (withSurfaces
       (draw [SetLineCap "round"; SetLineJoin "round"; SetStrokeStyle VISUAL_COLOR;
              SetLineWidth VISUAL_STROKE_WIDTH; SetShadowBlur VISUAL_GLOW_SIZE;
              SetShadowColor VISUAL_GLOW_COLOR]
             (resize VISUAL_SIZE VISUAL_SIZE (visual b)))
       (draw [SetLineCap "round"; SetLineJoin "round"; SetStrokeStyle "#ffffff";
              SetLineWidth HIDDEN_STROKE_WIDTH; SetShadowBlur 0]
             (resize VISUAL_SIZE VISUAL_SIZE (hidden b)))
       (sensor b) b).

(** [e.touches ? e.touches[0].clientX : e.clientX], and the same for [y]. *)
Definition pointerOf (e : PointerEvent) : float * float :=
  match touches e with
  | Some (t, _) => (touch_clientX t, touch_clientY t)
  | None => (clientX e, clientY e)
  end.

(** [getCoords] of [script.js]. *)
Definition getCoords (b : Board) (e : PointerEvent) : float * float :=
  let rect := clientRect e in
  let '(cx, cy) := pointerOf e in
  let scaleX := (of_Z (width (visual b)) / rect_width rect)%float in
  let scaleY := (of_Z (height (visual b)) / rect_height rect)%float in
  ((cx - rect_left rect) * scaleX, (cy - rect_top rect) * scaleY)%float.

Section Strokes.
(** [getCoords], which differs between the two scripts. *)
Variable coords : Board -> PointerEvent -> float * float.

Definition start (e : PointerEvent) (b : Board) : Board :=
  let b := withPen true (lastX b) (lastY b) b in
  let '(x, y) := coords b e in
  let b := withPen true x y b in
  withSurfaces
    (draw [BeginPath; Arc x y (of_Z VISUAL_STROKE_WIDTH / 2); SetFillStyle VISUAL_COLOR; Fill]
          (visual b))
    (draw [BeginPath; Arc x y (of_Z HIDDEN_STROKE_WIDTH / 2); SetFillStyle "#ffffff"; Fill]
          (hidden b))
    (sensor b) b.

Definition move (e : PointerEvent) (b : Board) : Board :=
  if negb (isDrawing b) then b
  else
    let '(x, y) := coords b e in
    let b := withSurfaces
               (draw [BeginPath; MoveTo (lastX b) (lastY b); LineTo x y; Stroke] (visual b))
               (draw [BeginPath; MoveTo (lastX b) (lastY b); LineTo x y; Stroke] (hidden b))
               (sensor b) b in
    withPen (isDrawing b) x y b.

(** [end] *)
Definition end_ (b : Board) : Board :=
  let b := withPen false (lastX b) (lastY b) b in
  withSurfaces (draw [BeginPath] (visual b)) (draw [BeginPath] (hidden b)) (sensor b) b.

End Strokes.

(** What reaches the page: the listeners of both scripts, and the resize of
    the container the second script listens to. *)
Inductive Event :=
| Down (e : PointerEvent)      (* [mousedown], [touchstart] *)
| Move (e : PointerEvent)      (* [mousemove], [touchmove] *)
| Up                           (* [mouseup], [touchend] *)
| Clear                        (* click on the clear button *)
| Resized (w h : Z).           (* the container measures [w] x [h] *)

(** One event on the page of [script.js], which has no resize listener. *)
Definition step (b : Board) (ev : Event) : Board :=
  match ev with
  | Down e => start getCoords e b
  | Move e => move getCoords e b
  | Up => end_ b
  | Clear => clearBoard b
  | Resized _ _ => b
  end.

(** The drawing engine of the second script. *)
Module ResizableBoard.

Definition clearBoard (b : Board) : Board :=
  resetReadout
    (withSurfaces
       (draw [SetFillStyle BG_COLOR; FillRect 0 0 (width (visual b)) (height (visual b))]
             (visual b))
       (draw [SetFillStyle DATA_BG_COLOR; FillRect 0 0 (width (hidden b)) (height (hidden b))]
             (hidden b))
       (draw [SetFillStyle "black"; FillRect 0 0 28 28] (sensor b))
       b).

Definition setupContext (b : Board) : Board :=
  withSurfaces
    (draw [SetLineCap "round"; SetLineJoin "round"; SetStrokeStyle VISUAL_COLOR;
           SetLineWidth VISUAL_STROKE_WIDTH] (visual b))
    (draw [SetLineCap "round"; SetLineJoin "round"; SetStrokeStyle "#ffffff";
           SetLineWidth HIDDEN_STROKE_WIDTH] (hidden b))
    (sensor b) b.

(** [`${w} x ${h}px`] *)
Definition resolutionLabel (w h : Z) : string :=
  (showInt w ++ " x " ++ showInt h ++ "px")%string.

(** [resizeCanvas], the container measuring [w] x [h]. *)
Definition resizeCanvas (w h : Z) (b : Board) : Board :=
  if (negb (width (visual b) =? w) || negb (height (visual b) =? h))%bool then
    let b := withSurfaces (resize w h (visual b)) (resize w h (hidden b)) (sensor b) b in
    let b := {| visual := visual b; hidden := hidden b; sensor := sensor b;
                isDrawing := isDrawing b; lastX := lastX b; lastY := lastY b;
                resultText := resultText b; confidenceText := confidenceText b;
                barWidth := barWidth b; contenderRows := contenderRows b;
                resolutionText := setText (resolutionLabel w h) (resolutionText b) |} in
    clearBoard (setupContext b)
  else b.

Definition getCoords (b : Board) (e : PointerEvent) : float * float :=
  let rect := clientRect e in
  let '(cx, cy) := pointerOf e in
  (cx - rect_left rect, cy - rect_top rect)%float.

Definition step (b : Board) (ev : Event) : Board :=
  match ev with
  | Down e => start getCoords e b
  | Move e => move getCoords e b
  | Up => end_ b
  | Clear => clearBoard b
  | Resized w h => resizeCanvas w h b
  end.

End ResizableBoard.

(** The calls of a context with the dot radius and the colours erased: what
    is drawn where, whatever the pen. *)
Definition geometryOf (c : DrawCall) : option DrawCall :=
  match c with
  | BeginPath | Fill | Stroke | MoveTo _ _ | LineTo _ _ => Some c
  | Arc x y _ => Some (Arc x y 0)
  | FillRect x y w h => Some (FillRect x y w h)
  | SetLineCap _ | SetLineJoin _ | SetStrokeStyle _ | SetLineWidth _
  | SetShadowBlur _ | SetShadowColor _ | SetFillStyle _ => None
  end.

Definition geometry (l : list DrawCall) : list DrawCall := omap geometryOf l.

(** Where the pen of a context stands: the centre of the last dot or the end
    of the last line drawn on it. *)
Definition penPosition (l : list DrawCall) : option (float * float) :=
  list.last (omap (fun c => match c with
                       | Arc x y _ | LineTo x y => Some (x, y)
                       | _ => None
                       end) l).

(** The visual and the hidden canvas carry the same drawing, and have the
    same size. *)
Definition sameDrawing (b : Board) : Prop :=
  geometry (calls (visual b)) = geometry (calls (hidden b)).

Definition sameSize (b : Board) : Prop :=
  width (visual b) = width (hidden b) /\ height (visual b) = height (hidden b).

(** While the pen is down it stands, on the hidden canvas, where the last
    point was recorded. *)
Definition penTracked (b : Board) : Prop :=
  isDrawing b = true -> penPosition (calls (hidden b)) = Some (lastX b, lastY b).

(** ** Start-up *)

(** How the start-up goes: whether the TensorFlow library is on the page,
    and which of [tf.setBackend], [tf.loadLayersModel] and the warm-up
    [model.predict] succeed. *)
Record Startup := mkStartup {
  tfDefined : bool;
  backendOk : bool;
  modelLoads : bool;
  warmupOk : bool;
}.

(** The status line, the predict button and the alerts shown. *)
Record Shell := mkShell {
  statusText : option string;        (* [statusText.innerText] *)
  statusIndicator : option string;   (* [statusIndicator.className] *)
  predictDisabled : bool;            (* [predictBtn.disabled] *)
  alerts : list string;
}.

Definition updateStatus (msg type : string) (sh : Shell) : Shell :=
  {| statusText := setText msg (statusText sh);
     statusIndicator := setText ("indicator " ++ type) (statusIndicator sh);
     predictDisabled := predictDisabled sh;
     alerts := alerts sh |}.

Section Startup.
Context `{CanvasAPI}.

(** [model = await tf.loadLayersModel(...)] *)
Definition setModel (pg : Page) : Page :=
  {| hiddenCanvas := hiddenCanvas pg; sensorCanvas := sensorCanvas pg;
     model := true; predictionResult := predictionResult pg;
     liveTensors := liveTensors pg; tensorCount := tensorCount pg;
     boxCalls := boxCalls pg |}.

(** The [catch] block. *)
Definition modelError (sh : Shell) : Shell :=
  let sh := updateStatus "Model Error" "error" sh in
  {| statusText := statusText sh; statusIndicator := statusIndicator sh;
     predictDisabled := predictDisabled sh;
     alerts := alerts sh ++ ["Error loading model. Ensure files are served via HTTP."%string] |}.

(** [initApp]; [setup] is [initCanvas] in [script.js] and the first
    [resizeCanvas] in the second script. The page carries the model and the
    tensors here, the board the canvases. *)
Definition initApp (env : Startup) (setup : Board -> Board)
    (st : Board * Page * Shell) : Board * Page * Shell :=
  let '(b, pg, sh) := st in
  if negb (tfDefined env) then (b, pg, updateStatus "TF_LIB_ERROR" "error" sh)
  else
    let b := setup b in
    if negb (backendOk env) then (b, pg, modelError sh)
    else if negb (modelLoads env) then (b, pg, modelError sh)
    else
      let pg := setModel pg in
      let '(dummy, pg) := newTensor pg in
      if negb (warmupOk env) then (b, pg, modelError sh)
      else
        let '(out, pg) := newTensor pg in
        let pg := dispose out pg in
        let pg := dispose dummy pg in
        let sh := updateStatus "System Ready" "active" sh in
        (b, pg,
         {| statusText := statusText sh; statusIndicator := statusIndicator sh;
            predictDisabled := false; alerts := alerts sh |}).

End Startup.

(** ** The canonical frame of the second script *)

Module ResizableFrame.

(** How a call ends: with an exception, or with the value it returns. *)
Inductive Completion (A : Type) :=
| Throws                       (* an [IndexSizeError] *)
| Returns (a : A).

Arguments Throws {A}.
Arguments Returns {A} a.

Section Frame.
Context `{CanvasAPI}.

(** [temp] after the last [drawImage], with the second script's own
    [getCenterOfMass]. *)
Definition frameOf (hidden : Canvas) (b : BBox) (shiftX shiftY : Z) : Canvas :=
  let scaler := scalerOf hidden b in
  let helper := helperOf scaler b in
  let com := Resizable.getCenterOfMass (getImageData helper 0 0 28 28) 28 28 in
  let '(tx, ty) := offsetOf com b shiftX shiftY in
  drawImage SmoothDefault scaler 0 0 (sw b) (sh b) tx ty (sw b) (sh b) blackFrame.

(** [extractInputTensor] of the second script, [w] and [h] being
    [hiddenCanvas.width] and [hiddenCanvas.height], which are never
    negative. [hiddenCtx.getImageData(0, 0, w, h)] throws an
    [IndexSizeError] when [w] or [h] is 0, as they are once the container
    has measured 0: the call is left there, before anything is scanned. *)
Definition extractInputTensor (w h : Z) (shiftX shiftY : Z) (pg : Page)
    : Completion (option (list float)) * Page :=
  if ((w =? 0) || (h =? 0))%bool then (Throws, pg)
  else
    let rawData := getImageData (hiddenCanvas pg) 0 0 w h in
    let bbox := Resizable.getBoundingBox rawData w h in
    let pg := logBox bbox pg in
    match bbox with
    | None => (Returns None, pg)
    | Some b =>
        let temp := frameOf (hiddenCanvas pg) b shiftX shiftY in
        let pg := if ((shiftX =? 0) && (shiftY =? 0))%bool
                  then setSensor (drawImageAt temp 0 0 (sensorCanvas pg)) pg
                  else pg in
        (Returns (Some (readInput (getImageData temp 0 0 28 28))), pg)
    end.

End Frame.
End ResizableFrame.

(** * Properties *)

(** ** Facts about the scan order *)

Lemma foldl_bind {A B S : Type} (f : S -> B -> S) (g : A -> list B) (l : list A) (s : S) :
  foldl f s (l ≫= g) = foldl (fun s a => foldl f s (g a)) s l.
Proof.
  revert s. induction l as [|a l IH]; intros s; [reflexivity|].
  change ((a :: l) ≫= g) with (g a ++ (l ≫= g)).
  rewrite foldl_app. apply IH.
Qed.

Lemma foldl_ext_eq {A S : Type} (f g : S -> A -> S) (l : list A) (s : S) :
  (forall s a, f s a = g s a) -> foldl f s l = foldl g s l.
Proof.
  intros E. revert s. induction l as [|a l IH]; intros s; simpl; [reflexivity|].
  rewrite E. apply IH.
Qed.

Lemma foldl_cells {S : Type} (f : S -> Z -> Z -> S) (w h : Z) (s : S) :
  foldl (fun s y => foldl (fun s x => f s x y) s (seqZ 0 w)) s (seqZ 0 h)
  = foldl (fun s c => f s (fst c) (snd c)) s (cells w h).
Proof.
  unfold cells. rewrite foldl_bind.
  apply foldl_ext_eq. intros s' y.
  rewrite foldl_bind. apply foldl_ext_eq. intros s'' x. reflexivity.
Qed.

Lemma elem_of_cells (w h x y : Z) :
  (x, y) ∈ cells w h <-> inRaster w h x y.
Proof.
  unfold cells, inRaster. rewrite list_elem_of_bind. split.
  - intros (y' & Hx & Hy). apply list_elem_of_bind in Hx as (x' & Hc & Hx).
    apply list_elem_of_singleton in Hc. injection Hc as -> ->.
    apply elem_of_seqZ in Hx, Hy. lia.
  - intros [Hx Hy]. exists y. split.
    + apply list_elem_of_bind. exists x. split; [apply list_elem_of_singleton; reflexivity|].
      apply elem_of_seqZ. lia.
    + apply elem_of_seqZ. lia.
Qed.

(** ** The bounding-box scan keeps its invariant *)

Section ScanInvariant.
Variables (data : list Z) (w h : Z).

#[local] Abbreviation Inv := (ScanInv data w h).

Lemma scanList_snoc l c :
  scanList data w h (l ++ [c]) = scanCell data w (scanList data w h l) (fst c) (snd c).
Proof. unfold scanList. rewrite foldl_app. reflexivity. Qed.

Lemma scanInv_start : Inv [] (scanStart w h).
Proof.
  split; simpl; try discriminate.
  intros _. split; [reflexivity|]. intros x y Hin. inversion Hin.
Qed.

Lemma scanInv_skip l s x y :
  Inv l s -> isInk data w x y = false -> Inv (l ++ [(x, y)]) s.
Proof.
  intros I Hno. split.
  - intros Hf. destruct (inv_blank _ _ _ _ _ I Hf) as [-> Hall]. split; [reflexivity|].
    intros x' y' Hin. apply elem_of_app in Hin as [Hin|Hin]; [eauto|].
    apply list_elem_of_singleton in Hin. injection Hin as -> ->. exact Hno.
  - intros Hf. destruct (inv_some _ _ _ _ _ I Hf) as (x' & y' & Hin & Hk).
    exists x', y'. split; [apply elem_of_app; left|]; assumption.
  - intros Hf x' y' Hin Hk. apply elem_of_app in Hin as [Hin|Hin].
    + exact (inv_bounds _ _ _ _ _ I Hf _ _ Hin Hk).
    + apply list_elem_of_singleton in Hin. injection Hin as -> ->. congruence.
  - intros Hf. old_cell I Hf inv_left.
  - intros Hf. old_cell I Hf inv_right.
  - intros Hf. old_cell I Hf inv_top.
  - intros Hf. old_cell I Hf inv_bottom.
Qed.

Lemma scanInv_ink l s x y :
  Inv l s -> inRaster w h x y -> isInk data w x y = true ->
  Inv (l ++ [(x, y)])
    {| s_minX := if x <? s_minX s then x else s_minX s;
       s_maxX := if s_maxX s <? x then x else s_maxX s;
       s_minY := if y <? s_minY s then y else s_minY s;
       s_maxY := if s_maxY s <? y then y else s_maxY s;
       s_found := true |}.
Proof.
  intros I [Hx Hy] Hk.
  destruct (s_found s) eqn:Hf.
  - (* ink was already seen *)
    pose proof (inv_bounds _ _ _ _ _ I Hf) as Hb.
    split; simpl; try discriminate; intros _.
    + exists x, y. split; [|assumption].
      apply elem_of_app; right; apply list_elem_of_singleton; reflexivity.
    + intros x' y' Hin Hk'. apply elem_of_app in Hin as [Hin|Hin].
      * specialize (Hb x' y' Hin Hk').
        destruct (Z.ltb_spec x (s_minX s)), (Z.ltb_spec (s_maxX s) x),
                 (Z.ltb_spec y (s_minY s)), (Z.ltb_spec (s_maxY s) y); lia.
      * apply list_elem_of_singleton in Hin. injection Hin as -> ->.
        destruct (Z.ltb_spec x (s_minX s)), (Z.ltb_spec (s_maxX s) x),
                 (Z.ltb_spec y (s_minY s)), (Z.ltb_spec (s_maxY s) y); lia.
    + destruct (Z.ltb_spec x (s_minX s)); [new_cell y | old_cell I Hf inv_left].
    + destruct (Z.ltb_spec (s_maxX s) x); [new_cell y | old_cell I Hf inv_right].
    + destruct (Z.ltb_spec y (s_minY s)); [new_cell x | old_cell I Hf inv_top].
    + destruct (Z.ltb_spec (s_maxY s) y); [new_cell x | old_cell I Hf inv_bottom].
  - (* the first ink cell: the loop variables still hold w, h, 0, 0 *)
    destruct (inv_blank _ _ _ _ _ I Hf) as [-> Hall]. simpl.
    assert (Ex1 : (if x <? w then x else w) = x) by (destruct (Z.ltb_spec x w); lia).
    assert (Ex2 : (if 0 <? x then x else 0) = x) by (destruct (Z.ltb_spec 0 x); lia).
    assert (Ey1 : (if y <? h then y else h) = y) by (destruct (Z.ltb_spec y h); lia).
    assert (Ey2 : (if 0 <? y then y else 0) = y) by (destruct (Z.ltb_spec 0 y); lia).
    rewrite Ex1, Ex2, Ey1, Ey2.
    split; simpl; try discriminate; intros _.
    + exists x, y. split; [|assumption].
      apply elem_of_app; right; apply list_elem_of_singleton; reflexivity.
    + intros x' y' Hin Hk'. apply elem_of_app in Hin as [Hin|Hin].
      * rewrite (Hall _ _ Hin) in Hk'. discriminate.
      * apply list_elem_of_singleton in Hin. injection Hin as -> ->. lia.
    + new_cell y.
    + new_cell y.
    + new_cell x.
    + new_cell x.
Qed.

Lemma scanList_inv l :
  (forall x y, (x, y) ∈ l -> inRaster w h x y) ->
  Inv l (scanList data w h l).
Proof.
  induction l as [|[x y] l IH] using rev_ind; intros Hr.
  - apply scanInv_start.
  - rewrite scanList_snoc. simpl. unfold scanCell.
    assert (I : Inv l (scanList data w h l)).
    { apply IH. intros x' y' Hin. apply Hr, elem_of_app. left. exact Hin. }
    destruct (isInk data w x y) eqn:Hk.
    + apply scanInv_ink; [exact I | | exact Hk].
      apply Hr, elem_of_app. right. apply list_elem_of_singleton. reflexivity.
    + apply scanInv_skip; assumption.
Qed.

Lemma scanAll_inv : Inv (cells w h) (scanAll data w h).
Proof.
  unfold scanAll.
  rewrite (foldl_cells (fun s x y => scanCell data w s x y)).
  apply scanList_inv. intros x y. apply elem_of_cells.
Qed.

Lemma getBoundingBox_None_iff :
  getBoundingBox data w h = None <->
  forall x y, inRaster w h x y -> isInk data w x y = false.
Proof.
  unfold getBoundingBox, boxOfScan. pose proof scanAll_inv as I.
  destruct (s_found (scanAll data w h)) eqn:Hf; split; try discriminate.
  - intros Hall. destruct (inv_some _ _ _ _ _ I Hf) as (x & y & Hin & Hk).
    rewrite (Hall x y) in Hk; [discriminate|]. apply elem_of_cells, Hin.
  - intros _ x y Hr. destruct (inv_blank _ _ _ _ _ I Hf) as [_ Hall].
    apply Hall, elem_of_cells, Hr.
  - reflexivity.
Qed.

Lemma getBoundingBox_Some_tight b :
  getBoundingBox data w h = Some b ->
  TightBox data w h b /\ 1 <= bbox_w b /\ 1 <= bbox_h b.
Proof.
  unfold getBoundingBox, boxOfScan. pose proof scanAll_inv as I.
  destruct (s_found (scanAll data w h)) eqn:Hf; [|discriminate].
  intros [= <-]. simpl.
  pose proof (inv_bounds _ _ _ _ _ I Hf) as Hb.
  destruct (inv_left _ _ _ _ _ I Hf) as (yl & Hl & Hkl).
  destruct (inv_right _ _ _ _ _ I Hf) as (yr & Hr & Hkr).
  destruct (inv_top _ _ _ _ _ I Hf) as (xt & Ht & Hkt).
  destruct (inv_bottom _ _ _ _ _ I Hf) as (xb & Hbo & Hkb).
  pose proof (Hb _ _ Hl Hkl). pose proof (Hb _ _ Ht Hkt).
  split; [|lia]. split; simpl.
  - intros x y Hin Hk. apply elem_of_cells in Hin. specialize (Hb x y Hin Hk). lia.
  - exists yl. split; [apply elem_of_cells|]; assumption.
  - replace (s_minX (scanAll data w h) + (s_maxX (scanAll data w h) - s_minX (scanAll data w h) + 1) - 1)
      with (s_maxX (scanAll data w h)) by lia.
    exists yr. split; [apply elem_of_cells|]; assumption.
  - exists xt. split; [apply elem_of_cells|]; assumption.
  - replace (s_minY (scanAll data w h) + (s_maxY (scanAll data w h) - s_minY (scanAll data w h) + 1) - 1)
      with (s_maxY (scanAll data w h)) by lia.
    exists xb. split; [apply elem_of_cells|]; assumption.
Qed.

Lemma getBoundingBox_single x y :
  inRaster w h x y -> isInk data w x y = true ->
  (forall x' y', inRaster w h x' y' -> isInk data w x' y' = true -> x' = x /\ y' = y) ->
  getBoundingBox data w h = Some {| minX := x; minY := y; bbox_w := 1; bbox_h := 1 |}.
Proof.
  intros Hr Hk Hone.
  destruct (getBoundingBox data w h) as [b|] eqn:E.
  - destruct (getBoundingBox_Some_tight b E) as [T _].
    destruct (tight_left _ _ _ _ T) as (yl & Hl & Hkl).
    destruct (tight_right _ _ _ _ T) as (yr & Hri & Hkr).
    destruct (tight_top _ _ _ _ T) as (xt & Ht & Hkt).
    destruct (tight_bottom _ _ _ _ T) as (xb & Hbo & Hkb).
    destruct (Hone _ _ Hl Hkl), (Hone _ _ Hri Hkr), (Hone _ _ Ht Hkt), (Hone _ _ Hbo Hkb).
    destruct b as [bx by_ bw bh]; simpl in *. f_equal. f_equal; lia.
  - pose proof (proj1 getBoundingBox_None_iff E x y Hr) as Hno.
    rewrite Hno in Hk. discriminate.
Qed.

End ScanInvariant.

(** C1. [getBoundingBox] returns [null] exactly when no sample of the raster
    has a first channel above 50. Otherwise the box it returns is the tight
    inclusive box of the ink samples: it contains every one of them, its left,
    right, top and bottom sides (at [minX], [minX + w - 1], [minY],
    [minY + h - 1]) each touch one, so [w] and [h] are the largest minus the
    smallest ink coordinate plus one. A raster whose only ink sample is at
    [(x, y)] gives [{minX: x, minY: y, w: 1, h: 1}]. *)
Theorem getBoundingBox_spec (data : list Z) (w h : Z) :
  (getBoundingBox data w h = None <->
     forall x y, inRaster w h x y -> isInk data w x y = false)
  /\ (forall b, getBoundingBox data w h = Some b ->
        TightBox data w h b /\ 1 <= bbox_w b /\ 1 <= bbox_h b)
  /\ (forall x y, inRaster w h x y -> isInk data w x y = true ->
        (forall x' y', inRaster w h x' y' -> isInk data w x' y' = true -> x' = x /\ y' = y) ->
        getBoundingBox data w h = Some {| minX := x; minY := y; bbox_w := 1; bbox_h := 1 |}).
Proof.
  split; [apply getBoundingBox_None_iff|].
  split; [apply getBoundingBox_Some_tight|apply getBoundingBox_single].
Qed.

Example getBoundingBox_twoDots :
  getBoundingBox twoDots 3 2 = Some {| minX := 1; minY := 0; bbox_w := 2; bbox_h := 2 |}.
Proof. reflexivity. Qed.

Lemma getBoundingBox_spec_witness :
  TightBox twoDots 3 2 {| minX := 1; minY := 0; bbox_w := 2; bbox_h := 2 |}.
Proof.
  destruct (getBoundingBox_spec twoDots 3 2) as (_ & H & _).
  exact (proj1 (H _ eq_refl)).
Defined.

(** ** The centre of mass *)

Lemma sumZ_app (l k : list Z) : sumZ (l ++ k) = sumZ l + sumZ k.
Proof. unfold sumZ. induction l as [|a l IH]; simpl; lia. Qed.

Lemma massCell_inkOfCell data w m c :
  massCell data w m (fst c) (snd c) =
  {| sumX := sumX m + momentX (inkOfCell data w c);
     sumY := sumY m + momentY (inkOfCell data w c);
     mass := mass m + totalMass (inkOfCell data w c) |}.
Proof.
  unfold massCell, inkOfCell, above50, momentX, momentY, totalMass.
  destruct m as [sx sy ms].
  destruct (channel0 data w (fst c) (snd c)) as [v|]; [destruct (50 <? v)|];
    simpl; f_equal; lia.
Qed.

Lemma moments_fold data w (l : list (Z * Z)) (m : Moments) :
  foldl (fun m c => massCell data w m (fst c) (snd c)) m l =
  {| sumX := sumX m + momentX (l ≫= inkOfCell data w);
     sumY := sumY m + momentY (l ≫= inkOfCell data w);
     mass := mass m + totalMass (l ≫= inkOfCell data w) |}.
Proof.
  revert m. induction l as [|c l IH]; intros m.
  - destruct m; simpl. unfold momentX, momentY, totalMass; simpl. f_equal; lia.
  - simpl foldl. rewrite IH, massCell_inkOfCell, bind_cons. simpl.
    unfold momentX, momentY, totalMass. rewrite !fmap_app, !sumZ_app. f_equal; lia.
Qed.

Lemma momentsAll_sums data w h :
  momentsAll data w h =
  {| sumX := momentX (inkSamples data w h);
     sumY := momentY (inkSamples data w h);
     mass := totalMass (inkSamples data w h) |}.
Proof.
  unfold momentsAll.
  rewrite (foldl_cells (fun m x y => massCell data w m x y)).
  rewrite moments_fold. reflexivity.
Qed.

Lemma elem_of_inkSamples data w h x y v :
  (x, y, v) ∈ inkSamples data w h <->
  inRaster w h x y /\ channel0 data w x y = Some v /\ 50 < v.
Proof.
  unfold inkSamples. rewrite list_elem_of_bind. split.
  - intros ([cx cy] & Hin & Hc). unfold inkOfCell in Hin. simpl in Hin.
    destruct (channel0 data w cx cy) as [u|] eqn:E; [|inversion Hin].
    destruct (Z.ltb_spec 50 u); [|inversion Hin].
    apply list_elem_of_singleton in Hin. injection Hin as -> -> ->.
    apply elem_of_cells in Hc. auto.
  - intros (Hr & E & Hv). exists (x, y). split; [|apply elem_of_cells, Hr].
    unfold inkOfCell. simpl. rewrite E. destruct (Z.ltb_spec 50 v); [|lia].
    apply list_elem_of_singleton. reflexivity.
Qed.

Lemma NoDup_cells w h : NoDup (cells w h).
Proof.
  unfold cells. apply NoDup_bind; [| |apply NoDup_seqZ].
  - intros y1 y2 [x y] _ _ H1 H2.
    apply list_elem_of_bind in H1 as (x1 & H1 & _), H2 as (x2 & H2 & _).
    apply list_elem_of_singleton in H1, H2. congruence.
  - intros y _. apply NoDup_bind; [| |apply NoDup_seqZ].
    + intros x1 x2 c _ _ H1 H2. apply list_elem_of_singleton in H1, H2. congruence.
    + intros x _. apply NoDup_singleton.
Qed.

Lemma NoDup_inkSamples data w h : NoDup (inkSamples data w h).
Proof.
  unfold inkSamples. apply NoDup_bind; [| |apply NoDup_cells].
  - intros [x1 y1] [x2 y2] t _ _ H1 H2. unfold inkOfCell in H1, H2. simpl in H1, H2.
    destruct (channel0 data w x1 y1) as [u1|]; [|inversion H1].
    destruct (50 <? u1); [|inversion H1].
    destruct (channel0 data w x2 y2) as [u2|]; [|inversion H2].
    destruct (50 <? u2); [|inversion H2].
    apply list_elem_of_singleton in H1, H2. congruence.
  - intros [x y] _. unfold inkOfCell. simpl.
    destruct (channel0 data w x y) as [u|]; [|apply NoDup_nil_2].
    destruct (50 <? u); [apply NoDup_singleton|apply NoDup_nil_2].
Qed.

Lemma totalMass_lower data w h (s : list (Z * Z * Z)) :
  (forall t, t ∈ s -> t ∈ inkSamples data w h) ->
  51 * Z.of_nat (length s) <= totalMass s.
Proof.
  unfold totalMass, sumZ. induction s as [|[[x y] v] s IH]; intros Hs; [simpl; lia|].
  assert (Hv : 50 < v).
  { apply (elem_of_inkSamples data w h x y v), Hs. left. }
  assert (51 * Z.of_nat (length s) <= foldr Z.add 0 (snd <$> s)).
  { apply IH. intros t Ht. apply Hs. right. exact Ht. }
  change (length ((x, y, v) :: s)) with (S (length s)). rewrite Nat2Z.inj_succ.
  change (foldr Z.add 0 (snd <$> (x, y, v) :: s)) with (v + foldr Z.add 0 (snd <$> s)).
  lia.
Qed.

Lemma totalMass_zero_iff data w h :
  totalMass (inkSamples data w h) = 0 <-> inkSamples data w h = [].
Proof.
  split.
  - intros H0. pose proof (totalMass_lower data w h (inkSamples data w h) (fun _ H => H)) as Hl.
    destruct (inkSamples data w h); [reflexivity|]. simpl length in Hl. lia.
  - intros ->. reflexivity.
Qed.

Example getCenterOfMass_twoDots :
  getCenterOfMass twoDots 3 2 =
  Some {| pt_x := of_Z 500 / of_Z 300; pt_y := of_Z 200 / of_Z 300 |}%float.
Proof. reflexivity. Qed.

Example maskCentroid_twoDots :
  maskCentroid twoDots 3 2 =
  Some {| pt_x := of_Z 3 / of_Z 2; pt_y := of_Z 1 / of_Z 2 |}%float.
Proof. reflexivity. Qed.

Lemma weighted_differs_from_mask :
  getCenterOfMass twoDots 3 2 <> maskCentroid twoDots 3 2.
Proof.
  rewrite getCenterOfMass_twoDots, maskCentroid_twoDots.
  intros E.
  apply (f_equal (fun o => match o with
                           | Some p => (pt_x p =? of_Z 3 / of_Z 2)%float
                           | None => false
                           end)) in E.
  vm_compute in E. discriminate.
Qed.

(** C2. [getCenterOfMass] adds [x*value] to [sumX], [y*value] to [sumY] and
    [value] to [mass] for the ink samples of the raster (the samples whose
    first channel exceeds 50, each once) and for no other sample; it returns
    [null] exactly when [mass] is 0, which is exactly when there is no ink
    sample, and otherwise [{x: sumX/mass, y: sumY/mass}]. The weights are the
    intensities: on [twoDots] the result is not the centroid of the ink mask. *)
Theorem getCenterOfMass_spec (data : list Z) (w h : Z) :
  let s := inkSamples data w h in
  (forall x y v, (x, y, v) ∈ s <-> inRaster w h x y /\ channel0 data w x y = Some v /\ 50 < v)
  /\ NoDup s
  /\ momentsAll data w h = {| sumX := momentX s; sumY := momentY s; mass := totalMass s |}
  /\ (getCenterOfMass data w h = None <-> totalMass s = 0)
  /\ (totalMass s = 0 <-> s = [])
  /\ (totalMass s <> 0 ->
      getCenterOfMass data w h =
      Some {| pt_x := of_Z (momentX s) / of_Z (totalMass s);
              pt_y := of_Z (momentY s) / of_Z (totalMass s) |}%float)
  /\ getCenterOfMass twoDots 3 2 <> maskCentroid twoDots 3 2.
Proof.
  intros s. subst s.
  split; [intros x y v; apply elem_of_inkSamples|].
  split; [apply NoDup_inkSamples|].
  split; [apply momentsAll_sums|].
  assert (E : getCenterOfMass data w h =
              if totalMass (inkSamples data w h) =? 0 then None
              else Some {| pt_x := of_Z (momentX (inkSamples data w h)) / of_Z (totalMass (inkSamples data w h));
                           pt_y := of_Z (momentY (inkSamples data w h)) / of_Z (totalMass (inkSamples data w h)) |}%float).
  { unfold getCenterOfMass. rewrite momentsAll_sums. reflexivity. }
  split; [|split; [apply totalMass_zero_iff|split; [|apply weighted_differs_from_mask]]].
  - rewrite E. destruct (Z.eqb_spec (totalMass (inkSamples data w h)) 0); split; congruence.
  - intros Hm. rewrite E. destruct (Z.eqb_spec (totalMass (inkSamples data w h)) 0); congruence.
Qed.

Lemma getCenterOfMass_spec_witness :
  getCenterOfMass twoDots 3 2 =
  Some {| pt_x := of_Z (momentX (inkSamples twoDots 3 2)) / of_Z (totalMass (inkSamples twoDots 3 2));
          pt_y := of_Z (momentY (inkSamples twoDots 3 2)) / of_Z (totalMass (inkSamples twoDots 3 2)) |}%float.
Proof.
  destruct (getCenterOfMass_spec twoDots 3 2) as (_ & _ & _ & _ & _ & H & _).
  apply H. vm_compute. discriminate.
Defined.

(** ** The two copies of the scans agree *)

Lemma foldl_commute {A S S' : Type} (g : S -> S') (f : S -> A -> S) (f' : S' -> A -> S')
      (l : list A) (s : S) :
  (forall s a, g (f s a) = f' (g s) a) ->
  g (foldl f s l) = foldl f' (g s) l.
Proof.
  intros C. revert s. induction l as [|a l IH]; intros s; simpl; [reflexivity|].
  rewrite IH, C. reflexivity.
Qed.

Lemma getBoundingBox_copies (data : list Z) (w h : Z) :
  Resizable.getBoundingBox data w h = getBoundingBox data w h.
Proof.
  unfold Resizable.getBoundingBox, getBoundingBox, boxOfScan, scanAll.
  change (w, h, 0, 0, false) with (scanTuple (scanStart w h)).
  rewrite <- (foldl_commute scanTuple
                (fun s y => foldl (fun s x => scanCell data w s x y) s (seqZ 0 w))).
  - unfold scanTuple. destruct (s_found _); reflexivity.
  - intros s y. apply foldl_commute. intros [a b c d e] x.
    unfold scanCell, isInk, channel0, scanTuple. simpl.
    destruct (above50 (sampleAt data ((y * w + x) * 4))); reflexivity.
Qed.

Lemma getCenterOfMass_copies (data : list Z) (w h : Z) :
  Resizable.getCenterOfMass data w h = getCenterOfMass data w h.
Proof.
  unfold Resizable.getCenterOfMass, getCenterOfMass, momentsAll.
  change (0, 0, 0) with (momentsTuple {| sumX := 0; sumY := 0; mass := 0 |}).
  rewrite <- (foldl_commute momentsTuple
                (fun m y => foldl (fun m x => massCell data w m x y) m (seqZ 0 w))).
  - unfold momentsTuple. reflexivity.
  - intros m y. apply foldl_commute. intros [a b c] x.
    unfold massCell, channel0, above50, momentsTuple. simpl.
    destruct (sampleAt data ((y * w + x) * 4)) as [v|]; [|reflexivity].
    destruct (50 <? v); reflexivity.
Qed.

(** C10. On every pixel array, width and height, [getBoundingBox] and
    [getCenterOfMass] of the fixed-canvas script and the functions of the same
    names in the resizable-canvas script return the same result. *)
Theorem scans_of_both_scripts_agree (data : list Z) (w h : Z) :
  Resizable.getBoundingBox data w h = getBoundingBox data w h
  /\ Resizable.getCenterOfMass data w h = getCenterOfMass data w h.
Proof. split; [apply getBoundingBox_copies|apply getCenterOfMass_copies]. Qed.

(** ** The canonical frame *)

Lemma boost_bytes_checked : forallb boostInRange (seqZ 0 256) = true.
Proof. vm_compute. reflexivity. Qed.

Lemma boost_byte_range (v : Z) :
  0 <= v <= 255 ->
  (0 <=? boost (Some v))%float = true /\ (boost (Some v) <=? 1)%float = true.
Proof.
  intros Hv. pose proof boost_bytes_checked as C.
  rewrite forallb_forall in C.
  assert (Hin : In v (seqZ 0 256)).
  { apply list_elem_of_In, elem_of_seqZ. lia. }
  specialize (C v Hin). unfold boostInRange in C.
  apply andb_prop in C. exact C.
Qed.

Lemma strideIndices_length (n : Z) :
  0 <= n -> length (strideIndices (4 * n)) = Z.to_nat n.
Proof.
  intros Hn. unfold strideIndices. rewrite length_fmap, length_seqZ.
  f_equal. symmetry. apply Z.div_unique with (r := 3); lia.
Qed.

Lemma strideIndices_lookup (n : Z) (k : nat) :
  Z.of_nat k < n -> strideIndices (4 * n) !! k = Some (4 * Z.of_nat k).
Proof.
  intros Hk. unfold strideIndices. rewrite list_lookup_fmap.
  replace ((4 * n + 3) / 4) with n by (apply Z.div_unique with (r := 3); lia).
  rewrite lookup_seqZ_lt by lia. reflexivity.
Qed.

Lemma readInput_length (finalData : list Z) (n : Z) :
  0 <= n -> Z.of_nat (length finalData) = 4 * n ->
  length (readInput finalData) = Z.to_nat n.
Proof.
  intros Hn Hl. unfold readInput. rewrite length_fmap, Hl.
  apply strideIndices_length, Hn.
Qed.

Lemma readInput_lookup (finalData : list Z) (n : Z) (k : nat) :
  Z.of_nat (length finalData) = 4 * n -> Z.of_nat k < n ->
  exists raw, finalData !! (4 * k)%nat = Some raw
              /\ readInput finalData !! k = Some (boost (Some raw)).
Proof.
  intros Hl Hk.
  destruct (lookup_lt_is_Some_2 finalData (4 * k)%nat) as [raw Hraw]; [lia|].
  exists raw. split; [exact Hraw|].
  unfold readInput. rewrite list_lookup_fmap, Hl, strideIndices_lookup by exact Hk.
  simpl. f_equal. f_equal. unfold sampleAt.
  destruct (Z.ltb_spec (4 * Z.of_nat k) 0); [lia|].
  replace (Z.to_nat (4 * Z.of_nat k)) with (4 * k)%nat by lia. exact Hraw.
Qed.

Section FrameFacts.
Context `{CanvasAPI}.

Lemma extractInputTensor_None shiftX shiftY pg :
  boxOfPage pg = None ->
  extractInputTensor shiftX shiftY pg = (None, logBox None pg).
Proof.
  unfold boxOfPage, extractInputTensor. intros ->. reflexivity.
Qed.

Lemma extractInputTensor_Some shiftX shiftY pg b :
  boxOfPage pg = Some b ->
  fst (extractInputTensor shiftX shiftY pg) = Some (readInput (finalDataOf pg b shiftX shiftY)).
Proof.
  unfold boxOfPage, extractInputTensor. intros ->. reflexivity.
Qed.

Lemma extractInputTensor_fst shiftX shiftY pg :
  fst (extractInputTensor shiftX shiftY pg) =
  match boxOfPage pg with
  | Some b => Some (readInput (finalDataOf pg b shiftX shiftY))
  | None => None
  end.
Proof.
  unfold boxOfPage, extractInputTensor.
  destruct (getBoundingBox _ _ _); reflexivity.
Qed.

Lemma extractInputTensor_page shiftX shiftY pg :
  let pg' := snd (extractInputTensor shiftX shiftY pg) in
  hiddenCanvas pg' = hiddenCanvas pg
  /\ model pg' = model pg
  /\ predictionResult pg' = predictionResult pg
  /\ liveTensors pg' = liveTensors pg
  /\ tensorCount pg' = tensorCount pg
  /\ boxCalls pg' = boxCalls pg ++ [boxOfPage pg].
Proof.
  unfold boxOfPage, extractInputTensor.
  destruct (getBoundingBox _ _ _) as [b|]; cbn [snd]; [|unfold logBox; cbn; tauto].
  destruct ((shiftX =? 0) && (shiftY =? 0))%bool; unfold setSensor, logBox; cbn; tauto.
Qed.

Lemma extractInputTensor_reads_hidden shiftX shiftY pg pg' :
  hiddenCanvas pg' = hiddenCanvas pg ->
  fst (extractInputTensor shiftX shiftY pg') = fst (extractInputTensor shiftX shiftY pg).
Proof.
  intros E. rewrite !extractInputTensor_fst.
  unfold boxOfPage, finalDataOf. rewrite E. reflexivity.
Qed.

End FrameFacts.

(** C3. Whatever the canvas operations draw, [extractInputTensor] returns
    [null] exactly when the bounding box of the hidden canvas is [null]. With
    a box it returns 784 = 28 x 28 numbers; the one of index [k] is
    [Math.min(1.0, (raw / 255) * 1.3)] for [raw] the first-channel byte of
    sample [k] of the rendered frame (byte [4k] of its pixel data), the boost
    coming after the division by 255, and it lies between 0 and 1. *)
Theorem extractInputTensor_spec `{CanvasLaws} (shiftX shiftY : Z) (pg : Page) :
  (fst (extractInputTensor shiftX shiftY pg) = None <-> boxOfPage pg = None)
  /\ forall b, boxOfPage pg = Some b ->
       exists input,
         fst (extractInputTensor shiftX shiftY pg) = Some input
         /\ length input = 784%nat
         /\ forall k, (k < 784)%nat ->
              exists raw,
                finalDataOf pg b shiftX shiftY !! (4 * k)%nat = Some raw
                /\ input !! k = Some (Math_min 1 (of_Z raw / 255 * 1.3))%float
                /\ (0 <=? Math_min 1 (of_Z raw / 255 * 1.3))%float = true
                /\ (Math_min 1 (of_Z raw / 255 * 1.3) <=? 1)%float = true.
Proof.
  split.
  - destruct (boxOfPage pg) as [b|] eqn:E.
    + rewrite (extractInputTensor_Some _ _ _ b E). split; discriminate.
    + rewrite (extractInputTensor_None _ _ _ E). split; reflexivity.
  - intros b E. exists (readInput (finalDataOf pg b shiftX shiftY)).
    assert (Hl : Z.of_nat (length (finalDataOf pg b shiftX shiftY)) = 4 * 784).
    { unfold finalDataOf. rewrite getImageData_length by lia. reflexivity. }
    split; [apply extractInputTensor_Some, E|].
    split; [apply (readInput_length _ 784); [lia|exact Hl]|].
    intros k Hk.
    destruct (readInput_lookup _ 784 k Hl) as (raw & Hraw & Hin); [lia|].
    exists raw. split; [exact Hraw|]. split; [exact Hin|].
    apply (boost_byte_range raw).
    apply (getImageData_bytes (frameOf (hiddenCanvas pg) b shiftX shiftY) 0 0 28 28).
    apply list_elem_of_lookup. exists (4 * k)%nat. exact Hraw.
Qed.

(** C8. Two calls of [extractInputTensor(0, 0)] in a row, the hidden canvas
    untouched in between, return the same vector: the first call leaves the
    hidden canvas as it was, and what it does change (the sensor canvas) is
    not read by the second. *)
Theorem extractInputTensor_deterministic `{CanvasAPI} (pg : Page) :
  let first := extractInputTensor 0 0 pg in
  let second := extractInputTensor 0 0 (snd first) in
  fst second = fst first /\ hiddenCanvas (snd first) = hiddenCanvas pg.
Proof.
  intros first second.
  destruct (extractInputTensor_page 0 0 pg) as (Hh & _).
  split; [|exact Hh].
  apply extractInputTensor_reads_hidden, Hh.
Qed.

(** ** The stand-in browser obeys the canvas laws *)

Lemma resizeData_length (n : nat) (d : list Z) : length (resizeData n d) = n.
Proof.
  unfold resizeData. rewrite length_take, length_app, length_replicate. lia.
Qed.

Lemma resizeData_bytes (n : nat) (d : list Z) (v : Z) :
  v ∈ resizeData n d -> 0 <= v <= 255.
Proof.
  unfold resizeData. intros Hin. apply elem_of_take in Hin as (i & Hi & _).
  apply list_elem_of_lookup_2, elem_of_app in Hi as [Hi|Hi].
  - apply list_elem_of_fmap in Hi as (u & -> & _). unfold clampByte. lia.
  - apply elem_of_replicate_inv in Hi. lia.
Qed.

Lemma resizeData_padding (n : nat) (d : list Z) (i : nat) (v : Z) :
  (length d <= i)%nat -> resizeData n d !! i = Some v -> v = 0.
Proof.
  unfold resizeData. intros Hi Hl. apply lookup_take_Some in Hl as [Hl _].
  rewrite lookup_app_r in Hl by (rewrite length_fmap; exact Hi).
  apply list_elem_of_lookup_2, elem_of_replicate_inv in Hl. exact Hl.
Qed.

Lemma stubCanvas_laws : @CanvasLaws stubCanvas.
Proof.
  split.
  - intros c x y w h _ _. apply resizeData_length.
  - intros c x y w h v. apply resizeData_bytes.
Qed.

Lemma resizeData_head (n : nat) (a : Z) (d : list Z) :
  (0 < n)%nat -> resizeData n (a :: d) !! 0%nat = Some (clampByte a).
Proof. intros Hn. destruct n; [lia|reflexivity]. Qed.

Lemma isInk_origin (data : list Z) (w : Z) : isInk data w 0 0 = above50 (data !! 0%nat).
Proof. reflexivity. Qed.

(** Data that fills at most the first sample has no ink anywhere else. *)
Lemma corner_only (n : nat) (d : list Z) (w h x y : Z) :
  (length d <= 4)%nat -> inRaster w h x y ->
  isInk (resizeData n d) w x y = true -> x = 0 /\ y = 0.
Proof.
  intros Hd [Hx Hy] Hk. unfold isInk, channel0, sampleAt in Hk.
  destruct (Z.ltb_spec ((y * w + x) * 4) 0); [discriminate|].
  destruct (resizeData n d !! Z.to_nat ((y * w + x) * 4)) as [v|] eqn:E; [|discriminate].
  destruct (Z.eq_dec (y * w + x) 0) as [E0|Hne]; [nia|].
  apply resizeData_padding in E; [subst v; discriminate|nia].
Qed.

Lemma stub_hidden_data (pg : @Page stubCanvas) :
  @getImageData stubCanvas (hiddenCanvas pg) 0 0 HIDDEN_SIZE HIDDEN_SIZE
  = resizeData (Z.to_nat (4 * HIDDEN_SIZE * HIDDEN_SIZE)) (hiddenCanvas pg).
Proof. reflexivity. Qed.

Lemma inkPage_box :
  @boxOfPage stubCanvas inkPage = Some {| minX := 0; minY := 0; bbox_w := 1; bbox_h := 1 |}.
Proof.
  unfold boxOfPage. rewrite stub_hidden_data.
  apply getBoundingBox_single.
  - unfold inRaster, HIDDEN_SIZE. lia.
  - rewrite isInk_origin.
    change (hiddenCanvas inkPage) with [255; 255; 255; 255].
    rewrite resizeData_head by (unfold HIDDEN_SIZE; lia). reflexivity.
  - intros x y Hr Hk.
    exact (corner_only _ [255; 255; 255; 255] _ _ _ _ (le_n 4) Hr Hk).
Qed.

Lemma blankPage_box : @boxOfPage stubCanvas blankPage = None.
Proof.
  unfold boxOfPage. rewrite stub_hidden_data.
  apply getBoundingBox_None_iff. intros x y Hr.
  destruct (isInk _ _ x y) eqn:Hk; [|reflexivity].
  unfold isInk, channel0, sampleAt in Hk.
  destruct (Z.ltb_spec ((y * HIDDEN_SIZE + x) * 4) 0); [discriminate|].
  destruct (resizeData _ _ !! _) as [v|] eqn:E; [|discriminate].
  apply resizeData_padding in E; [subst v; discriminate|].
  change (length (hiddenCanvas blankPage)) with 0%nat. lia.
Qed.

Lemma extractInputTensor_spec_witness :
  exists input,
    fst (@extractInputTensor stubCanvas 0 0 inkPage) = Some input /\ length input = 784%nat.
Proof.
  destruct (@extractInputTensor_spec stubCanvas stubCanvas_laws 0 0 inkPage) as [_ Hsome].
  destruct (Hsome _ inkPage_box) as (input & Hin & Hlen & _).
  exists input. split; assumption.
Defined.

(** ** The click handler *)

Section HandlerFacts.
Context `{CanvasAPI} `{TFModel}.

Lemma boxOfPage_hidden pg pg' :
  hiddenCanvas pg' = hiddenCanvas pg -> boxOfPage pg' = boxOfPage pg.
Proof. unfold boxOfPage. intros ->. reflexivity. Qed.

Lemma framesOf_hidden pg pg' b l :
  hiddenCanvas pg' = hiddenCanvas pg -> framesOf pg' b l = framesOf pg b l.
Proof. unfold framesOf, finalDataOf. intros ->. reflexivity. Qed.

Lemma collectStep_spec acc pg s :
  let r := collectStep (acc, pg) s in
  fst r = acc ++ match boxOfPage pg with
                 | Some b => framesOf pg b [s]
                 | None => []
                 end
  /\ sameButSensor pg (snd r)
  /\ boxCalls (snd r) = boxCalls pg ++ [boxOfPage pg].
Proof.
  unfold collectStep. cbn [fst snd].
  pose proof (extractInputTensor_fst (fst s) (snd s) pg) as Hf.
  pose proof (extractInputTensor_page (fst s) (snd s) pg) as Hp.
  destruct (extractInputTensor (fst s) (snd s) pg) as [inp pg'].
  cbn [fst snd] in *. destruct Hp as (Hh & Hm & Hr & Hl & Hc & Hb).
  assert (S : sameButSensor pg pg') by (unfold sameButSensor; tauto).
  destruct (boxOfPage pg) as [b|]; subst inp; cbn [fst snd].
  - split; [reflexivity|]. split; assumption.
  - split; [rewrite app_nil_r; reflexivity|]. split; assumption.
Qed.

Lemma collect_fold (l : list (Z * Z)) acc pg :
  let r := foldl collectStep (acc, pg) l in
  fst r = acc ++ match boxOfPage pg with
                 | Some b => framesOf pg b l
                 | None => []
                 end
  /\ sameButSensor pg (snd r)
  /\ boxCalls (snd r) = boxCalls pg ++ replicate (length l) (boxOfPage pg).
Proof.
  revert acc pg. induction l as [|s l IH]; intros acc pg.
  - cbn [foldl fst snd length replicate]. rewrite app_nil_r.
    split; [destruct (boxOfPage pg); rewrite ?app_nil_r; reflexivity|].
    split; [unfold sameButSensor; tauto|reflexivity].
  - cbn [foldl].
    destruct (collectStep_spec acc pg s) as (Hf & Hs & Hb).
    destruct (collectStep (acc, pg) s) as [acc1 pg1]. cbn [fst snd] in Hf, Hs, Hb.
    destruct (IH acc1 pg1) as (Hf' & Hs' & Hb').
    destruct Hs as (Hh & Hm & Hr & Hl & Hc).
    destruct Hs' as (Hh' & Hm' & Hr' & Hl' & Hc').
    split; [|split].
    + rewrite Hf', Hf, (boxOfPage_hidden _ _ Hh).
      destruct (boxOfPage pg) as [b|]; [|rewrite !app_nil_r; reflexivity].
      rewrite (framesOf_hidden _ _ _ _ Hh), <- app_assoc. reflexivity.
    + unfold sameButSensor. repeat split; congruence.
    + rewrite Hb', Hb, (boxOfPage_hidden _ _ Hh), <- app_assoc. reflexivity.
Qed.

Lemma collectFrames_spec pg :
  fst (collectFrames pg) = match boxOfPage pg with
                           | Some b => framesOf pg b shifts
                           | None => []
                           end
  /\ sameButSensor pg (snd (collectFrames pg))
  /\ boxCalls (snd (collectFrames pg)) = boxCalls pg ++ replicate 5 (boxOfPage pg).
Proof.
  unfold collectFrames.
  destruct (collect_fold shifts [] pg) as (Hf & Hs & Hb).
  rewrite app_nil_l in Hf. split; [exact Hf|]. split; [exact Hs|exact Hb].
Qed.

(** The ghost log after a click: one [getBoundingBox] call per shift. *)
Lemma onPredictClick_boxCalls pg :
  model pg = true ->
  boxCalls (snd (onPredictClick pg)) = boxCalls pg ++ replicate 5 (boxOfPage pg).
Proof.
  intros Hm. unfold onPredictClick. rewrite Hm. cbn [negb].
  destruct (collectFrames_spec pg) as (_ & _ & Hb).
  destruct (collectFrames pg) as [batchInputs pg1]. cbn [snd] in Hb.
  destruct (length batchInputs =? 0)%nat; [exact Hb|].
  destruct (infer batchInputs); exact Hb.
Qed.

(** The tensors alive after a click, by the way the handler leaves. *)
Lemma onPredictClick_tensors pg :
  model pg = true ->
  let batchInputs := fst (collectFrames pg) in
  let r := onPredictClick pg in
  match boxOfPage pg with
  | None => fst r = ExitNoInk /\ liveTensors (snd r) = liveTensors pg
  | Some _ =>
      match infer batchInputs with
      | PredictThrows =>
          fst r = ExitThrown /\ liveTensors (snd r) = tensorCount pg :: liveTensors pg
      | DataThrows =>
          fst r = ExitThrown
          /\ liveTensors (snd r) = S (tensorCount pg) :: tensorCount pg :: liveTensors pg
      | Probabilities _ =>
          liveTensors (snd r) =
          filter (fun u => u <> S (tensorCount pg))
                 (filter (fun u => u <> tensorCount pg) (liveTensors pg))
      end
  end.
Proof.
  intros Hm. cbn zeta. unfold onPredictClick. rewrite Hm. cbn [negb].
  destruct (collectFrames_spec pg) as (Hf & (_ & _ & _ & Hl & Hc) & _).
  destruct (collectFrames pg) as [batchInputs pg1]. cbn [fst snd] in *.
  destruct (boxOfPage pg) as [b|].
  - subst batchInputs.
    change (length (framesOf pg b shifts) =? 0)%nat with false. cbv iota.
    unfold newTensor. cbn [fst snd].
    destruct (infer (framesOf pg b shifts)); cbn [fst snd liveTensors tensorCount dispose setPrediction].
    + rewrite Hl, Hc. split; reflexivity.
    + rewrite Hl, Hc. split; reflexivity.
    + rewrite Hl, Hc.
      rewrite (filter_cons_True _ (S (tensorCount pg))) by lia.
      rewrite (filter_cons_False _ (tensorCount pg)) by (intros N; apply N; reflexivity).
      rewrite (filter_cons_False _ (S (tensorCount pg))) by (intros N; apply N; reflexivity).
      reflexivity.
  - subst batchInputs. cbn [length Nat.eqb fst snd setPrediction liveTensors].
    split; [reflexivity|exact Hl].
Qed.

End HandlerFacts.

Lemma filter_fresh (l : list nat) (n : nat) :
  (forall t, t ∈ l -> (t < n)%nat) -> filter (fun u => u <> n) l = l.
Proof.
  induction l as [|a l IH]; intros Hl; [reflexivity|].
  rewrite filter_cons_True.
  - rewrite IH; [reflexivity|]. intros t Ht. apply Hl. right. exact Ht.
  - pose proof (Hl a ltac:(left)). lia.
Qed.

(** On the two returning paths no tensor of the call stays alive. *)
Lemma onPredictClick_disposes_on_return `{CanvasAPI} `{TFModel} (pg : Page) :
  model pg = true ->
  (forall t, t ∈ liveTensors pg -> (t < tensorCount pg)%nat) ->
  fst (onPredictClick pg) <> ExitThrown ->
  liveTensors (snd (onPredictClick pg)) = liveTensors pg.
Proof.
  intros Hm Hfresh Hret.
  pose proof (onPredictClick_tensors pg Hm) as T. cbn zeta in T.
  destruct (boxOfPage pg); [|apply T].
  destruct (infer (fst (collectFrames pg))).
  - destruct T as [T _]. contradiction.
  - destruct T as [T _]. contradiction.
  - rewrite T, (filter_fresh _ (tensorCount pg)) by exact Hfresh.
    apply filter_fresh. intros t Ht. specialize (Hfresh t Ht). lia.
Qed.

(** C4, as the code has it. A click with a model loaded calls
    [getBoundingBox] five times, once inside each [extractInputTensor] call
    and each time on the same hidden canvas, so the five results are the same
    box; when that box exists, the batch is the five frames built from it,
    one per shift. *)
Theorem predict_extracts_box_per_shift `{CanvasAPI} `{TFModel} (pg : Page) :
  model pg = true ->
  boxCalls (snd (onPredictClick pg)) = boxCalls pg ++ replicate 5 (boxOfPage pg)
  /\ forall b, boxOfPage pg = Some b -> fst (collectFrames pg) = framesOf pg b shifts.
Proof.
  intros Hm. split; [apply onPredictClick_boxCalls, Hm|].
  intros b Hb. destruct (collectFrames_spec pg) as (Hf & _).
  rewrite Hf, Hb. reflexivity.
Qed.

Lemma predict_extracts_box_per_shift_witness :
  boxCalls (snd (@onPredictClick stubCanvas steadyModel inkPage))
  = replicate 5 (Some {| minX := 0; minY := 0; bbox_w := 1; bbox_h := 1 |}).
Proof.
  destruct (@predict_extracts_box_per_shift stubCanvas steadyModel inkPage eq_refl) as [Hb _].
  rewrite Hb, inkPage_box. reflexivity.
Defined.

(** C4 as stated fails: on a page with ink the box is extracted five times,
    not once. *)
Lemma single_extraction_counterexample :
  @boxOfPage stubCanvas inkPage <> None
  /\ length (boxCalls (snd (@onPredictClick stubCanvas steadyModel inkPage))) = 5%nat
  /\ length (boxCalls (snd (@onPredictClick stubCanvas steadyModel inkPage)))
     <> S (length (boxCalls inkPage)).
Proof.
  assert (L : length (boxCalls (snd (@onPredictClick stubCanvas steadyModel inkPage))) = 5%nat).
  { rewrite (@onPredictClick_boxCalls stubCanvas steadyModel inkPage eq_refl).
    rewrite length_app, length_replicate. reflexivity. }
  split; [rewrite inkPage_box; discriminate|].
  split; [exact L|]. rewrite L. cbn [boxCalls inkPage length]. lia.
Qed.

(** C9, where the code falls short. With ink on the page and a model whose
    [predict] throws, the handler leaves with the batch tensor still alive;
    with a model whose read-back rejects, with the batch and the prediction
    tensor both alive. *)
Theorem predict_throw_leaks :
  fst (@onPredictClick stubCanvas throwingModel inkPage) = ExitThrown
  /\ liveTensors (snd (@onPredictClick stubCanvas throwingModel inkPage)) = [0%nat]
  /\ fst (@onPredictClick stubCanvas rejectingModel inkPage) = ExitThrown
  /\ liveTensors (snd (@onPredictClick stubCanvas rejectingModel inkPage)) = [1%nat; 0%nat].
Proof.
  pose proof (@onPredictClick_tensors stubCanvas throwingModel inkPage eq_refl) as T.
  pose proof (@onPredictClick_tensors stubCanvas rejectingModel inkPage eq_refl) as R.
  cbn zeta in T, R. rewrite inkPage_box in T, R.
  cbv [infer throwingModel] in T. cbv [infer rejectingModel] in R.
  destruct T as [T1 T2], R as [R1 R2].
  split; [exact T1|]. split; [exact T2|]. split; [exact R1|exact R2].
Qed.

(** The returning paths of the same handler do dispose: without ink nothing
    is created, and after a normal return nothing created is left. *)
Example predict_return_disposes :
  liveTensors (snd (@onPredictClick stubCanvas steadyModel inkPage)) = []
  /\ liveTensors (snd (@onPredictClick stubCanvas steadyModel blankPage)) = [].
Proof.
  pose proof (@onPredictClick_tensors stubCanvas steadyModel inkPage eq_refl) as T.
  pose proof (@onPredictClick_tensors stubCanvas steadyModel blankPage eq_refl) as B.
  cbn zeta in T, B. rewrite inkPage_box in T. rewrite blankPage_box in B.
  cbv [infer steadyModel] in T.
  split; [exact T|apply B].
Qed.

(** ** The 20-pixel envelope *)

Lemma allFrom_spec (fuel : nat) (z : Z) (f : Z -> bool) :
  allFrom fuel z f = true ->
  forall k, z <= k < z + Z.of_nat fuel -> f k = true.
Proof.
  revert z. induction fuel as [|fuel IH]; intros z Hall k Hk; [lia|].
  cbn [allFrom] in Hall. apply andb_prop in Hall as [Hz Hrest].
  destruct (Z.eq_dec k z) as [->|Hne]; [exact Hz|].
  apply (IH (z + 1) Hrest). lia.
Qed.

(** All boxes that fit the hidden canvas, checked in binary64. *)
Lemma rows_checked : rowsOk HIDDEN_SIZE = true.
Proof. vm_compute. reflexivity. Qed.

Lemma rowsOk_unfold (n : Z) : rowsOk n = allFrom (Z.to_nat n) 1 rowOk.
Proof. reflexivity. Qed.

Lemma rowOk_unfold (m : Z) :
  rowOk m =
  allFrom (Z.to_nat m) 1
          (fun k => near20 (Math_max (of_Z m * (20 / of_Z m)) (of_Z k * (20 / of_Z m)))
                    && near20 (Math_max (of_Z k * (20 / of_Z m)) (of_Z m * (20 / of_Z m)))).
Proof. reflexivity. Qed.

Lemma envelope_pair (m k : Z) :
  1 <= k <= m -> m <= HIDDEN_SIZE ->
  near20 (Math_max (of_Z m * (20 / of_Z m)) (of_Z k * (20 / of_Z m))) = true
  /\ near20 (Math_max (of_Z k * (20 / of_Z m)) (of_Z m * (20 / of_Z m))) = true.
Proof.
  intros Hk Hm.
  pose proof rows_checked as C. rewrite rowsOk_unfold in C.
  assert (R : rowOk m = true).
  { apply (allFrom_spec (Z.to_nat HIDDEN_SIZE) 1 rowOk C). unfold HIDDEN_SIZE in *. lia. }
  rewrite rowOk_unfold in R.
  apply andb_prop.
  apply (allFrom_spec (Z.to_nat m) 1 _ R k). lia.
Qed.

Lemma envelope_binary64 (b : BBox) :
  1 <= bbox_w b <= HIDDEN_SIZE -> 1 <= bbox_h b <= HIDDEN_SIZE ->
  near20 (Math_max (sw b) (sh b)) = true.
Proof.
  intros Hw Hh. unfold sw, sh, scale.
  cbn [num_mul num_div num_of_Z float_Number].
  destruct (Z.max_spec (bbox_w b) (bbox_h b)) as [[Hlt ->]|[Hle ->]].
  - apply (envelope_pair (bbox_h b) (bbox_w b)); lia.
  - apply (envelope_pair (bbox_w b) (bbox_h b)); lia.
Qed.

(** Integers as exact rationals. *)
Lemma Qc_of_Z_le (a b : Z) : a <= b -> (@num_of_Z Qc _ a <= @num_of_Z Qc _ b)%Qc.
Proof.
  intros H. unfold Qcle. cbn [num_of_Z Qc_Number Q2Qc this].
  rewrite !Qred_correct, <- Zle_Qle. exact H.
Qed.

Lemma Qc_of_Z_lt (a b : Z) : a < b -> (@num_of_Z Qc _ a < @num_of_Z Qc _ b)%Qc.
Proof.
  intros H. unfold Qclt. cbn [num_of_Z Qc_Number Q2Qc this].
  rewrite !Qred_correct, <- Zlt_Qlt. exact H.
Qed.

Lemma Qc_of_Z_0 : @num_of_Z Qc _ 0 = 0%Qc.
Proof. apply Qc_is_canon. reflexivity. Qed.

Lemma envelope_exact_pair (m k : Z) :
  1 <= k <= m ->
  let s := (@num_of_Z Qc _ 20 / @num_of_Z Qc _ m)%Qc in
  (@num_of_Z Qc _ m * s = @num_of_Z Qc _ 20
   /\ @num_of_Z Qc _ k * s <= @num_of_Z Qc _ 20)%Qc.
Proof.
  intros Hk s.
  assert (Hpos : (0 < @num_of_Z Qc _ m)%Qc).
  { rewrite <- Qc_of_Z_0. apply Qc_of_Z_lt. lia. }
  assert (Hne : @num_of_Z Qc _ m <> 0%Qc).
  { intros E. rewrite E in Hpos. exact (Qclt_not_eq _ _ Hpos eq_refl). }
  assert (Em : (@num_of_Z Qc _ m * s = @num_of_Z Qc _ 20)%Qc).
  { apply Qcmult_div_r, Hne. }
  split; [exact Em|].
  assert (Hs : (0 <= s)%Qc).
  { apply (Qcmult_lt_0_le_reg_r _ _ (@num_of_Z Qc _ m) Hpos).
    rewrite Qcmult_0_l, Qcmult_comm, Em, <- Qc_of_Z_0. apply Qc_of_Z_le. lia. }
  rewrite <- Em. apply Qcmult_le_compat_r; [apply Qc_of_Z_le; lia|exact Hs].
Qed.

Lemma envelope_exact (b : BBox) :
  1 <= bbox_w b -> 1 <= bbox_h b ->
  (@sw Qc _ b <= num_of_Z 20 /\ @sh Qc _ b <= num_of_Z 20
   /\ (@sw Qc _ b = num_of_Z 20 \/ @sh Qc _ b = num_of_Z 20))%Qc.
Proof.
  intros Hw Hh. unfold sw, sh, scale. cbn [num_mul num_div Qc_Number].
  destruct (Z.max_spec (bbox_w b) (bbox_h b)) as [[Hlt ->]|[Hle ->]].
  - destruct (envelope_exact_pair (bbox_h b) (bbox_w b)) as [E1 L1]; [lia|].
    destruct (envelope_exact_pair (bbox_h b) (bbox_h b)) as [_ L2]; [lia|].
    cbv zeta in *. split; [exact L1|]. split; [exact L2|]. right. exact E1.
  - destruct (envelope_exact_pair (bbox_w b) (bbox_h b)) as [E1 L1]; [lia|].
    destruct (envelope_exact_pair (bbox_w b) (bbox_w b)) as [_ L2]; [lia|].
    cbv zeta in *. split; [exact L2|]. split; [exact L1|]. left. exact E1.
Qed.

(** C5 as stated fails in the arithmetic the script runs in: for a 77x77 box
    [sw] and [sh] are 19.999999999999996, and for a 147x147 box they are
    20.000000000000004. *)
Lemma envelope_counterexample :
  let b77 := {| minX := 0; minY := 0; bbox_w := 77; bbox_h := 77 |} in
  let b147 := {| minX := 0; minY := 0; bbox_w := 147; bbox_h := 147 |} in
  Math_max (sw b77) (sh b77) <> 20%float
  /\ (Math_max (sw b77) (sh b77) <? 20)%float = true
  /\ Math_max (sw b147) (sh b147) <> 20%float
  /\ (20 <? Math_max (sw b147) (sh b147))%float = true.
Proof.
  cbv zeta. split; [|split; [vm_compute; reflexivity|split; [|vm_compute; reflexivity]]].
  - intros E. apply (f_equal (fun v => (v =? 20)%float)) in E.
    vm_compute in E. discriminate.
  - intros E. apply (f_equal (fun v => (v =? 20)%float)) in E.
    vm_compute in E. discriminate.
Qed.

(** C5, as the code has it. [scale] is [20 / Math.max(w, h)] and [sw], [sh]
    are [w * scale], [h * scale], left unrounded. Computed exactly, the larger
    of [sw] and [sh] is 20 for every box with [w, h >= 1]. Computed in
    binary64, as the script does, the larger one is within 2^-48 of 20 for
    every box that fits the 560x560 hidden canvas. A 100x50 box gives
    [scale = 0.2] (the double nearest to it), [sw = 20] and [sh = 10]. *)
Theorem envelope_scaling :
  (forall b : BBox,
      @scale float _ b = (20 / of_Z (Z.max (bbox_w b) (bbox_h b)))%float
      /\ @sw float _ b = (of_Z (bbox_w b) * scale b)%float
      /\ @sh float _ b = (of_Z (bbox_h b) * scale b)%float)
  /\ (forall b : BBox, 1 <= bbox_w b -> 1 <= bbox_h b ->
        (@sw Qc _ b <= num_of_Z 20 /\ @sh Qc _ b <= num_of_Z 20
         /\ (@sw Qc _ b = num_of_Z 20 \/ @sh Qc _ b = num_of_Z 20))%Qc)
  /\ (forall b : BBox, 1 <= bbox_w b <= HIDDEN_SIZE -> 1 <= bbox_h b <= HIDDEN_SIZE ->
        near20 (Math_max (sw b) (sh b)) = true)
  /\ (let b := {| minX := 0; minY := 0; bbox_w := 100; bbox_h := 50 |} in
      @scale float _ b = 0.2%float /\ @sw float _ b = 20%float /\ @sh float _ b = 10%float).
Proof.
  split; [intros b; repeat split|].
  split; [exact envelope_exact|].
  split; [exact envelope_binary64|].
  cbv zeta. repeat split; vm_compute; reflexivity.
Qed.

Lemma envelope_scaling_witness :
  near20 (Math_max (sw {| minX := 3; minY := 4; bbox_w := 300; bbox_h := 77 |})
                   (sh {| minX := 3; minY := 4; bbox_w := 300; bbox_h := 77 |})) = true.
Proof.
  destruct envelope_scaling as (_ & _ & H & _).
  apply H; unfold HIDDEN_SIZE; simpl; lia.
Defined.

(** ** Averaging *)

Section AverageFacts.
Context {T : Type} `{Number T}.

Lemma foldl_alter_length (g : nat -> T -> T) (l : list nat) (avg : list T) :
  length (foldl (fun a k => alter (g k) k a) avg l) = length avg.
Proof.
  revert avg. induction l as [|k l IH]; intros avg; [reflexivity|].
  cbn [foldl]. rewrite IH. apply length_alter.
Qed.

Lemma foldl_alter_lookup (g : nat -> T -> T) (l : list nat) (avg : list T) (j : nat) :
  NoDup l ->
  foldl (fun a k => alter (g k) k a) avg l !! j =
  if decide (j ∈ l) then g j <$> avg !! j else avg !! j.
Proof.
  revert avg. induction l as [|k l IH]; intros avg Hnd.
  - cbn [foldl]. case_decide as Hin; [inversion Hin|reflexivity].
  - pose proof (NoDup_cons_1_1 _ _ Hnd) as Hk. pose proof (NoDup_cons_1_2 _ _ Hnd) as Hnd'.
    cbn [foldl]. rewrite (IH _ Hnd').
    destruct (decide (j = k)) as [->|Hne].
    + rewrite decide_False by exact Hk.
      rewrite decide_True by left. apply list_lookup_alter_eq.
    + rewrite list_lookup_alter_ne by congruence.
      destruct (decide (j ∈ l)) as [Hin|Hout].
      * rewrite decide_True by (right; exact Hin). reflexivity.
      * rewrite decide_False; [reflexivity|].
        intros Hin. apply elem_of_cons in Hin as [?|?]; contradiction.
Qed.

Lemma addRow_lookup (probs avg : list T) (i j : nat) :
  (j < 10)%nat ->
  addRow probs avg i !! j = (fun a => num_add a (probAt probs (i * 10 + j))) <$> avg !! j.
Proof.
  intros Hj. unfold addRow.
  rewrite (foldl_alter_lookup (fun j a => num_add a (probAt probs (i * 10 + j))))
    by apply NoDup_seq.
  rewrite decide_True; [reflexivity|]. apply elem_of_seq. lia.
Qed.

Lemma addRow_length (probs avg : list T) (i : nat) :
  length (addRow probs avg i) = length avg.
Proof.
  unfold addRow.
  apply (foldl_alter_length (fun j a => num_add a (probAt probs (i * 10 + j)))).
Qed.

Lemma addRows_lookup (probs : list T) (rows : list nat) (avg : list T) (j : nat) :
  (j < 10)%nat ->
  foldl (addRow probs) avg rows !! j =
  (fun a => foldl (fun s i => num_add s (probAt probs (i * 10 + j))) a rows) <$> avg !! j.
Proof.
  intros Hj. revert avg. induction rows as [|i rows IH]; intros avg.
  - cbn [foldl]. destruct (avg !! j); reflexivity.
  - cbn [foldl]. rewrite IH, addRow_lookup by exact Hj.
    destruct (avg !! j); reflexivity.
Qed.

Lemma addRows_length (probs : list T) (rows : list nat) (avg : list T) :
  length (foldl (addRow probs) avg rows) = length avg.
Proof.
  revert avg. induction rows as [|i rows IH]; intros avg; [reflexivity|].
  cbn [foldl]. rewrite IH. apply addRow_length.
Qed.

Lemma average_length (probs : list T) (n : nat) : length (average probs n) = 10%nat.
Proof.
  unfold average.
  rewrite (foldl_alter_length (fun _ a => num_div a (num_of_Z (Z.of_nat n)))).
  rewrite addRows_length. apply length_replicate.
Qed.

Lemma average_lookup (probs : list T) (n j : nat) :
  (j < 10)%nat -> average probs n !! j = Some (columnMean probs n j).
Proof.
  intros Hj. unfold average.
  rewrite (foldl_alter_lookup (fun _ a => num_div a (num_of_Z (Z.of_nat n))))
    by apply NoDup_seq.
  rewrite decide_True by (apply elem_of_seq; lia).
  rewrite addRows_lookup by exact Hj.
  rewrite lookup_replicate_2 by exact Hj. reflexivity.
Qed.

Lemma average_columnMean (probs : list T) (n : nat) :
  average probs n = columnMean probs n <$> seq 0 10.
Proof.
  apply list_eq. intros j. destruct (decide (j < 10)%nat) as [Hj|Hj].
  - rewrite average_lookup by exact Hj.
    rewrite list_lookup_fmap, lookup_seq_lt by exact Hj. reflexivity.
  - rewrite !lookup_ge_None_2; [reflexivity| |].
    + rewrite length_fmap, length_seq. lia.
    + rewrite average_length. lia.
Qed.

Lemma columnSum_S (probs : list T) (n j : nat) :
  columnSum probs (S n) j = num_add (columnSum probs n j) (probAt probs (n * 10 + j)).
Proof.
  unfold columnSum. rewrite seq_S, foldl_app. reflexivity.
Qed.

End AverageFacts.

(** *** Exact arithmetic: the averaged vector of stochastic rows is stochastic *)

Lemma Qc_of_Z_1 : @num_of_Z Qc _ 1 = 1%Qc.
Proof. apply Qc_is_canon. reflexivity. Qed.

Lemma Qc_of_Z_succ (z : Z) : @num_of_Z Qc _ (z + 1) = (@num_of_Z Qc _ z + 1)%Qc.
Proof.
  apply Qc_is_canon. cbn [num_of_Z Qc_Number Q2Qc this Qcplus].
  rewrite !Qred_correct, inject_Z_plus. reflexivity.
Qed.

Lemma Qc_of_nat_nonzero (n : nat) : (1 <= n)%nat -> @num_of_Z Qc _ (Z.of_nat n) <> 0%Qc.
Proof.
  intros Hn E.
  assert (L : (@num_of_Z Qc _ 0 < @num_of_Z Qc _ (Z.of_nat n))%Qc) by (apply Qc_of_Z_lt; lia).
  rewrite Qc_of_Z_0, E in L. exact (Qclt_not_eq _ _ L eq_refl).
Qed.

(** The ten column sums add up to the number of rows. *)
Lemma columnSums_total (probs : list Qc) (n : nat) :
  (forall i, (i < n)%nat -> sumList (rowOf probs i) = 1%Qc) ->
  sumList (columnSum probs n <$> seq 0 10) = num_of_Z (Z.of_nat n).
Proof.
  induction n as [|n IH]; intros Hrows.
  - change (Z.of_nat 0) with 0.
    unfold sumList, columnSum. cbn [seq fmap list_fmap foldl].
    cbn [num_add Qc_Number]. rewrite !Qc_of_Z_0. ring.
  - assert (Hn : sumList (columnSum probs n <$> seq 0 10) = num_of_Z (Z.of_nat n)).
    { apply IH. intros i Hi. apply Hrows. lia. }
    pose proof (Hrows n (Nat.lt_succ_diag_r n)) as Hrow.
    rewrite Nat2Z.inj_succ. unfold Z.succ. rewrite Qc_of_Z_succ, <- Hn, <- Hrow.
    cbn [seq fmap list_fmap sumList rowOf foldl].
    rewrite !columnSum_S. cbn [num_add Qc_Number Nat.add].
    rewrite !Qc_of_Z_0. ring.
Qed.

Lemma average_stochastic (probs : list Qc) (n : nat) :
  (1 <= n)%nat ->
  (forall i, (i < n)%nat -> sumList (rowOf probs i) = 1%Qc) ->
  sumList (average probs n) = 1%Qc.
Proof.
  intros Hn Hrows.
  pose proof (columnSums_total probs n Hrows) as Ht.
  pose proof (Qc_of_nat_nonzero n Hn) as Hne.
  rewrite average_columnMean.
  cbn [seq fmap list_fmap sumList foldl] in *. unfold columnMean.
  cbn [num_add num_div Qc_Number Nat.add] in *.
  rewrite Qc_of_Z_0 in *.
  set (N := @num_of_Z Qc _ (Z.of_nat n)) in *.
  match type of Ht with
  | ?S = _ => transitivity (S / N)%Qc; [field; exact Hne|rewrite Ht; field; exact Hne]
  end.
Qed.

Lemma twoRowsQ_stochastic (i : nat) :
  (i < 2)%nat -> sumList (rowOf twoRowsQ i) = 1%Qc.
Proof.
  intros Hi. destruct i as [|[|i]]; [| |lia];
    apply Qc_is_canon; vm_compute; reflexivity.
Qed.

(** In binary64 the five-row batch of the ranking example averages to a
    vector whose sum is within 1e-6 of 1. *)
Example average_fiveRows : nearOne (sumList (average fiveRows 5)) = true.
Proof. vm_compute. reflexivity. Qed.

(** ** Ranking *)

(** A list has at most one arrangement that is sorted for an order no two of
    its elements satisfy both ways. *)
Lemma sorted_perm_unique {A : Type} (R : A -> A -> Prop) (l1 l2 : list A) :
  (forall a b, In a l1 -> In b l1 -> R a b -> R b a -> False) ->
  StronglySorted R l1 -> StronglySorted R l2 -> Permutation l1 l2 -> l1 = l2.
Proof.
  revert l2. induction l1 as [|a l1 IH]; intros l2 Hasym S1 S2 Hp.
  - apply Permutation_nil in Hp. congruence.
  - destruct l2 as [|b l2].
    { apply Permutation_sym, Permutation_nil in Hp. discriminate. }
    apply StronglySorted_inv in S1 as [S1 F1], S2 as [S2 F2].
    rewrite Forall_forall in F1, F2.
    assert (E : a = b).
    { assert (Ha : In a (b :: l2)) by (apply (Permutation_in _ Hp); left; reflexivity).
      assert (Hb : In b (a :: l1)).
      { apply (Permutation_in _ (Permutation_sym Hp)). left. reflexivity. }
      destruct Ha as [Ha|Ha]; [congruence|]. destruct Hb as [Hb|Hb]; [congruence|].
      exfalso. apply (Hasym a b); [left; reflexivity|right; exact Hb|apply F1, Hb|apply F2, Ha]. }
    subst b. f_equal. apply IH; [|exact S1|exact S2|apply (Permutation_cons_inv Hp)].
    intros x y Hx Hy. apply Hasym; right; assumption.
Qed.

Section SortFacts.
Context {T : Type} `{Number T}.
Variable avg : list T.
Hypothesis ordered : orderedNumbers avg = true.

Lemma ordered_facts (a b c : T) :
  a ∈ avg -> b ∈ avg -> c ∈ avg ->
  aboveZero (num_sub b a) = num_ltb a b
  /\ (num_ltb a b = true -> num_ltb b a = false)
  /\ (num_ltb a b = false -> num_ltb a c = true -> num_ltb b c = true).
Proof.
  intros Ha Hb Hc. apply list_elem_of_In in Ha, Hb, Hc.
  pose proof ordered as O. unfold orderedNumbers in O.
  rewrite forallb_forall in O. specialize (O a Ha).
  rewrite forallb_forall in O. specialize (O b Hb).
  apply andb_prop in O as [O O3]. apply andb_prop in O as [O1 O2].
  rewrite forallb_forall in O3. specialize (O3 c Hc).
  apply Bool.eqb_prop in O1.
  split; [exact O1|]. split.
  - intros E. rewrite E in O2. cbn in O2. destruct (num_ltb b a); [discriminate|reflexivity].
  - intros E1 E2. rewrite E1, E2 in O3. exact O3.
Qed.

Lemma insertSorted_perm (cmp : Entry -> Entry -> T) (x : Entry) (l : list Entry) :
  Permutation (insertSorted cmp x l) (x :: l).
Proof.
  induction l as [|y l IH]; cbn [insertSorted]; [reflexivity|].
  destruct (aboveZero (cmp y x)); [reflexivity|].
  rewrite IH. apply perm_swap.
Qed.

Lemma insertSorted_sorted (x : Entry) (l : list Entry) :
  fst x ∈ avg ->
  (forall y, y ∈ l -> fst y ∈ avg /\ (snd y < snd x)%nat) ->
  StronglySorted rankedBefore l ->
  StronglySorted rankedBefore (insertSorted byProbability x l).
Proof.
  intros Hx. induction l as [|y l IH]; intros Hl Hs; cbn [insertSorted].
  - constructor; constructor.
  - apply StronglySorted_inv in Hs as [Hs Hy].
    destruct (Hl y ltac:(left)) as [Hya Hyi].
    destruct (ordered_facts (fst y) (fst x) (fst x) Hya Hx Hx) as (Hpos & _).
    unfold byProbability. rewrite Hpos.
    destruct (num_ltb (fst y) (fst x)) eqn:Hyx.
    + (* y has the smaller probability: x goes in front of it *)
      constructor; [constructor; assumption|].
      constructor; [left; exact Hyx|].
      rewrite Forall_forall in Hy |- *. intros z Hz.
      destruct (Hl z ltac:(right; apply list_elem_of_In; exact Hz)) as [Hza _].
      left.
      destruct (ordered_facts (fst y) (fst z) (fst x) Hya Hza Hx) as (_ & _ & O3).
      apply O3; [|exact Hyx].
      destruct (Hy z Hz) as [Hzy|(Hyz & _)]; [|exact Hyz].
      destruct (ordered_facts (fst z) (fst y) (fst x) Hza Hya Hx) as (_ & O2 & _).
      apply O2, Hzy.
    + (* y stays in front of x *)
      constructor.
      * apply IH; [|exact Hs]. intros z Hz. apply Hl. right. exact Hz.
      * rewrite Forall_forall in Hy |- *. intros z Hz.
        apply (Permutation_in _ (insertSorted_perm byProbability x l)) in Hz.
        destruct Hz as [<-|Hz]; [|apply Hy, Hz].
        destruct (num_ltb (fst x) (fst y)) eqn:Hxy; [left; exact Hxy|].
        right. split; [exact Hyx|]. split; [exact Hxy|exact Hyi].
Qed.

Lemma sort_snoc (cmp : Entry -> Entry -> T) (l : list Entry) (x : Entry) :
  sort cmp (l ++ [x]) = insertSorted cmp x (sort cmp l).
Proof. unfold sort. rewrite foldl_app. reflexivity. Qed.

Lemma sort_spec (l : list Entry) :
  (forall y, y ∈ l -> fst y ∈ avg) -> increasingIdx l ->
  Permutation (sort byProbability l) l
  /\ StronglySorted rankedBefore (sort byProbability l).
Proof.
  induction l as [|x l IH] using rev_ind; intros Hin Hinc.
  - split; [reflexivity|constructor].
  - destruct IH as [Hp Hs].
    { intros y Hy. apply Hin, elem_of_app. left. exact Hy. }
    { intros i j a b Ha Hb. apply Hinc; apply lookup_app_l_Some; assumption. }
    rewrite sort_snoc. split.
    + rewrite insertSorted_perm, Hp. apply Permutation_cons_append.
    + apply insertSorted_sorted; [apply Hin, elem_of_app; right; left| |exact Hs].
      intros y Hy. apply list_elem_of_In in Hy.
      apply (Permutation_in _ Hp) in Hy. apply list_elem_of_In in Hy.
      split; [apply Hin, elem_of_app; left; exact Hy|].
      apply list_elem_of_lookup in Hy as [i Hi].
      apply (Hinc i (length l) y x).
      * apply lookup_app_l_Some, Hi.
      * apply list_lookup_middle. reflexivity.
      * apply lookup_lt_Some in Hi. exact Hi.
Qed.

Lemma entries_lookup (i : nat) (e : Entry) :
  entries avg !! i = Some e -> avg !! i = Some (fst e) /\ snd e = i.
Proof.
  unfold entries. rewrite list_lookup_imap.
  destruct (avg !! i) as [p|]; [|discriminate]. intros [= <-]. split; reflexivity.
Qed.

Lemma contenders_ranked :
  Permutation (sort byProbability (entries avg)) (entries avg)
  /\ StronglySorted rankedBefore (sort byProbability (entries avg)).
Proof.
  apply sort_spec.
  - intros y Hy. apply list_elem_of_lookup in Hy as [i Hi].
    apply entries_lookup in Hi as [Hi _]. apply list_elem_of_lookup. exists i. exact Hi.
  - intros i j a b Ha Hb Hij.
    apply entries_lookup in Ha as [_ ->], Hb as [_ ->]. exact Hij.
Qed.

Lemma rankedBefore_asym (a b : Entry) :
  fst a ∈ avg -> fst b ∈ avg -> rankedBefore a b -> rankedBefore b a -> False.
Proof.
  intros Ha Hb Rab Rba.
  destruct (ordered_facts (fst a) (fst b) (fst a) Ha Hb Ha) as (_ & Oab & _).
  destruct (ordered_facts (fst b) (fst a) (fst a) Hb Ha Ha) as (_ & Oba & _).
  destruct Rab as [Lba|(Nab & Nba & Iab)], Rba as [Lab|(Nba' & Nab' & Iba)].
  - rewrite (Oba Lba) in Lab. discriminate.
  - congruence.
  - congruence.
  - lia.
Qed.

(** The ranking is the only sorted arrangement of the entries. *)
Lemma ranking_unique (ranking : list Entry) :
  Permutation ranking (entries avg) -> StronglySorted rankedBefore ranking ->
  ranking = sort byProbability (entries avg).
Proof.
  intros Hp Hs. destruct contenders_ranked as [Hp' Hs'].
  apply (sorted_perm_unique rankedBefore); [|exact Hs|exact Hs'|].
  - intros a b Ha Hb. apply rankedBefore_asym.
    + apply (Permutation_in _ Hp), list_elem_of_In, list_elem_of_lookup in Ha as [i Hi].
      apply entries_lookup in Hi as [Hi _]. apply list_elem_of_lookup. exists i. exact Hi.
    + apply (Permutation_in _ Hp), list_elem_of_In, list_elem_of_lookup in Hb as [i Hi].
      apply entries_lookup in Hi as [Hi _]. apply list_elem_of_lookup. exists i. exact Hi.
  - rewrite Hp, Hp'. reflexivity.
Qed.

End SortFacts.

(** ** Binary64: the comparator orders every vector without NaN

    The sign of [b - a] and the outcome of [a < b] are read off the
    specification of the format ([SpecFloat]), through the value of a number
    in units of 2^-1074. *)

Lemma digits2_size (m : positive) : digits2_pos m = Pos.size m.
Proof. induction m; simpl; congruence. Qed.

Lemma digits2_bounds (m : positive) :
  2 ^ (Zpos (digits2_pos m) - 1) <= Zpos m < 2 ^ Zpos (digits2_pos m).
Proof.
  induction m as [m IH|m IH|]; cbn [digits2_pos].
  - rewrite Pos2Z.inj_succ.
    replace (Z.succ (Zpos (digits2_pos m)) - 1) with (Z.succ (Zpos (digits2_pos m) - 1)) by lia.
    rewrite !Z.pow_succ_r by lia. lia.
  - rewrite Pos2Z.inj_succ.
    replace (Z.succ (Zpos (digits2_pos m)) - 1) with (Z.succ (Zpos (digits2_pos m) - 1)) by lia.
    rewrite !Z.pow_succ_r by lia. lia.
  - simpl. lia.
Qed.

Lemma valid_finite (s : bool) (m : positive) (e : Z) :
  valid_binary (S754_finite s m e) = true ->
  -1074 <= e <= 971
  /\ Zpos (digits2_pos m) <= 53
  /\ (e = -1074 \/ Zpos (digits2_pos m) = 53).
Proof.
  unfold valid_binary, SpecFloat.valid_binary, bounded, canonical_mantissa, fexp, emin.
  unfold prec, emax. intros H. apply andb_prop in H as [H1 H2].
  apply Z.eqb_eq in H1. apply Z.leb_le in H2. lia.
Qed.

Lemma pow2_pos (k : Z) : 0 <= k -> 0 < 2 ^ k.
Proof. intros Hk. apply Z.pow_pos_nonneg; lia. Qed.

Lemma pow2_step (j k : Z) : 0 <= j -> j < k -> 2 * 2 ^ j <= 2 ^ k.
Proof.
  intros Hj Hjk. rewrite <- Z.pow_succ_r by exact Hj.
  apply Z.pow_le_mono_r; lia.
Qed.

Lemma finite_magnitude (s : bool) (m : positive) (e : Z) :
  valid_binary (S754_finite s m e) = true ->
  0 < Zpos m * 2 ^ (e + 1074) < 2 ^ 2098.
Proof.
  intros V. apply valid_finite in V as (He & Hd & _).
  pose proof (digits2_bounds m) as [_ Hm].
  assert (H53 : 2 ^ Zpos (digits2_pos m) <= 2 ^ 53) by (apply Z.pow_le_mono_r; lia).
  assert (HP : 0 < 2 ^ (e + 1074)) by (apply pow2_pos; lia).
  assert (HK : 2 ^ (e + 1074) <= 2 ^ 2045) by (apply Z.pow_le_mono_r; lia).
  change (2 ^ 2098) with (2 ^ 53 * 2 ^ 2045).
  split; [lia|].
  apply Z.lt_le_trans with (2 ^ 53 * 2 ^ (e + 1074)).
  - apply Z.mul_lt_mono_pos_r; lia.
  - apply Z.mul_le_mono_nonneg_l; lia.
Qed.

(** Two positive binary64 numbers compare as their exponents and mantissas do. *)
Lemma magnitude_compare (m1 m2 : positive) (e1 e2 : Z) (s1 s2 : bool) :
  valid_binary (S754_finite s1 m1 e1) = true ->
  valid_binary (S754_finite s2 m2 e2) = true ->
  (Zpos m1 * 2 ^ (e1 + 1074) ?= Zpos m2 * 2 ^ (e2 + 1074))
  = match e1 ?= e2 with
    | Lt => Lt
    | Gt => Gt
    | Eq => Pos.compare_cont Eq m1 m2
    end.
Proof.
  intros V1 V2.
  apply valid_finite in V1 as (He1 & Hd1 & Hc1), V2 as (He2 & Hd2 & Hc2).
  pose proof (digits2_bounds m1) as [Hl1 Hu1]. pose proof (digits2_bounds m2) as [Hl2 Hu2].
  assert (P1 : 0 < 2 ^ (e1 + 1074)) by (apply pow2_pos; lia).
  assert (P2 : 0 < 2 ^ (e2 + 1074)) by (apply pow2_pos; lia).
  assert (U1 : 2 ^ Zpos (digits2_pos m1) <= 2 ^ 53) by (apply Z.pow_le_mono_r; lia).
  assert (U2 : 2 ^ Zpos (digits2_pos m2) <= 2 ^ 53) by (apply Z.pow_le_mono_r; lia).
  change (2 ^ 53) with (2 * 2 ^ 52) in U1, U2.
  destruct (Z.compare_spec e1 e2) as [E|L|G].
  - subst e2. rewrite <- Zmult_compare_compat_r by lia. reflexivity.
  - apply Z.compare_lt_iff.
    assert (D2 : Zpos (digits2_pos m2) = 53) by lia. rewrite D2 in Hl2.
    change (2 ^ (53 - 1)) with (2 ^ 52) in Hl2.
    pose proof (pow2_step (e1 + 1074) (e2 + 1074) ltac:(lia) ltac:(lia)) as S.
    assert (K : 0 < 2 ^ 52) by (apply pow2_pos; lia).
    nia.
  - apply Z.compare_gt_iff.
    assert (D1 : Zpos (digits2_pos m1) = 53) by lia. rewrite D1 in Hl1.
    change (2 ^ (53 - 1)) with (2 ^ 52) in Hl1.
    pose proof (pow2_step (e2 + 1074) (e1 + 1074) ltac:(lia) ltac:(lia)) as S.
    assert (K : 0 < 2 ^ 52) by (apply pow2_pos; lia).
    nia.
Qed.

(** On valid numbers other than NaN, the comparison of the format is the
    comparison of the values. *)
Lemma SFcompare_units (x y : spec_float) :
  valid_binary x = true -> valid_binary y = true ->
  isNaN x = false -> isNaN y = false ->
  SFcompare x y = Some (units x ?= units y).
Proof.
  intros Vx Vy Nx Ny.
  assert (B : 0 < 2 ^ 2098) by (apply pow2_pos; lia).
  destruct x as [sx|sx| |sx mx ex]; [| |discriminate|];
    (destruct y as [sy|sy| |sy my ey]; [| |discriminate|]);
    try pose proof (finite_magnitude _ _ _ Vx) as Mx;
    try pose proof (finite_magnitude _ _ _ Vy) as My;
    cbn [SFcompare units]; set (T := 2 ^ 2098) in *.
  - reflexivity.
  - destruct sy; settle_compare.
  - destruct sy; cbn [cond_Zopp]; settle_compare.
  - destruct sx; settle_compare.
  - destruct sx, sy; settle_compare.
  - destruct sx, sy; cbn [cond_Zopp]; settle_compare.
  - destruct sx; cbn [cond_Zopp]; settle_compare.
  - destruct sx, sy; cbn [cond_Zopp]; settle_compare.
  - pose proof (magnitude_compare mx my ex ey sx sy Vx Vy) as C.
    pose proof (magnitude_compare my mx ey ex sy sx Vy Vx) as C'.
    destruct sx, sy; cbn [cond_Zopp].
    + (* both negative *)
      rewrite Z.compare_opp, C'. rewrite (Z.compare_antisym ex ey).
      destruct (ex ?= ey); cbn [CompOpp]; try reflexivity.
      rewrite (Pos.compare_cont_antisym mx my Eq). reflexivity.
    + settle_compare.
    + settle_compare.
    + rewrite C. reflexivity.
Qed.

Lemma SFltb_units (x y : spec_float) :
  valid_binary x = true -> valid_binary y = true ->
  isNaN x = false -> isNaN y = false ->
  SFltb x y = (units x <? units y).
Proof.
  intros Vx Vy Nx Ny. unfold SFltb. rewrite SFcompare_units by assumption.
  unfold Z.ltb. destruct (units x ?= units y); reflexivity.
Qed.

(** *** Rounding keeps the sign *)

Lemma shr_1_half (mrs : shr_record) :
  0 <= shr_m mrs -> shr_m (shr_1 mrs) = shr_m mrs / 2.
Proof.
  destruct mrs as [m r s]. cbn [shr_m]. intros Hm.
  rewrite <- Z.div2_div.
  destruct m as [|[p|p|]|p]; try reflexivity; lia.
Qed.

Lemma pow2_xO (p : positive) : 2 ^ Zpos p~0 = 2 ^ Zpos p * 2 ^ Zpos p.
Proof. rewrite <- Z.pow_add_r by lia. f_equal. lia. Qed.

Lemma pow2_xI (p : positive) : 2 ^ Zpos p~1 = 2 * (2 ^ Zpos p * 2 ^ Zpos p).
Proof.
  rewrite <- Z.pow_add_r, <- Z.pow_succ_r by lia. f_equal. lia.
Qed.

Lemma iter_shr_1 (p : positive) (mrs : shr_record) :
  0 <= shr_m mrs ->
  shr_m (SpecFloat.iter_pos shr_1 p mrs) = shr_m mrs / 2 ^ Zpos p.
Proof.
  revert mrs. induction p as [p IH|p IH|]; intros mrs Hm; cbn [SpecFloat.iter_pos].
  - assert (P : 0 < 2 ^ Zpos p) by (apply pow2_pos; lia).
    assert (H1 : 0 <= shr_m (shr_1 mrs)).
    { rewrite shr_1_half by exact Hm. apply Z.div_pos; lia. }
    assert (H2 : 0 <= shr_m (SpecFloat.iter_pos shr_1 p (shr_1 mrs))).
    { rewrite IH by exact H1. apply Z.div_pos; lia. }
    rewrite (IH _ H2), (IH _ H1), shr_1_half by exact Hm.
    rewrite !Z.div_div by lia. rewrite pow2_xI.
    f_equal.
  - assert (P : 0 < 2 ^ Zpos p) by (apply pow2_pos; lia).
    assert (H1 : 0 <= shr_m (SpecFloat.iter_pos shr_1 p mrs)).
    { rewrite IH by exact Hm. apply Z.div_pos; lia. }
    rewrite (IH _ H1), (IH _ Hm).
    rewrite Z.div_div by lia. rewrite pow2_xO. reflexivity.
  - rewrite shr_1_half by exact Hm. reflexivity.
Qed.

Lemma shr_record_of_loc_m (m : Z) (l : location) : shr_m (shr_record_of_loc m l) = m.
Proof. destruct l as [|[]]; reflexivity. Qed.

(** Shifting a positive mantissa to its canonical exponent leaves it
    positive, when the exponent is not below the smallest one. *)
Lemma shr_fexp_positive (m : positive) (e : Z) (l : location) :
  -1074 <= e ->
  0 < shr_m (fst (shr_fexp prec emax (Zpos m) e l))
  /\ -1074 <= snd (shr_fexp prec emax (Zpos m) e l).
Proof.
  intros He. unfold shr_fexp, shr, fexp, emin, prec, emax.
  cbn [Zdigits2].
  pose proof (digits2_bounds m) as [Hl Hu].
  destruct (Z.max (Zpos (digits2_pos m) + e - 53) (3 - 1024 - 53) - e) as [|p|p] eqn:En;
    cbn [fst snd]; rewrite ?shr_record_of_loc_m; try (split; lia).
  assert (Hp : Zpos p = Zpos (digits2_pos m) - 53) by lia.
  split; [|lia].
  rewrite iter_shr_1 by (rewrite shr_record_of_loc_m; lia).
  rewrite shr_record_of_loc_m.
  apply Z.div_str_pos. split; [apply pow2_pos; lia|].
  apply Z.le_trans with (2 ^ (Zpos (digits2_pos m) - 1)); [|exact Hl].
  apply Z.pow_le_mono_r; lia.
Qed.

Lemma round_nearest_even_positive (m : Z) (l : location) :
  0 < m -> 0 < round_nearest_even m l.
Proof.
  intros Hm. destruct l as [|[]]; cbn [round_nearest_even]; try lia.
  destruct (Z.even m); lia.
Qed.

Lemma binary_round_aux_sign (s : bool) (m : positive) (e : Z) (l : location) :
  -1074 <= e ->
  (exists m' e', binary_round_aux prec emax s (Zpos m) e l = S754_finite s m' e')
  \/ binary_round_aux prec emax s (Zpos m) e l = S754_infinity s.
Proof.
  intros He. unfold binary_round_aux.
  destruct (shr_fexp_positive m e l He) as [H1 H1e].
  destruct (shr_fexp prec emax (Zpos m) e l) as [mrs' e']. cbn [fst snd] in H1, H1e.
  pose proof (round_nearest_even_positive _ (loc_of_shr_record mrs') H1) as H2.
  destruct (round_nearest_even (shr_m mrs') (loc_of_shr_record mrs')) as [|m2|m2]; try lia.
  destruct (shr_fexp_positive m2 e' loc_Exact H1e) as [H3 _].
  destruct (shr_fexp prec emax (Zpos m2) e' loc_Exact) as [mrs'' e'']. cbn [fst snd] in H3.
  destruct (shr_m mrs'') as [|m3|m3]; try lia.
  destruct (e'' <=? emax - prec); [left; eauto|right; reflexivity].
Qed.

Lemma binary_round_sign (s : bool) (m : positive) (e : Z) :
  -1074 <= e ->
  (exists m' e', binary_round prec emax s m e = S754_finite s m' e')
  \/ binary_round prec emax s m e = S754_infinity s.
Proof.
  intros He. unfold binary_round, shl_align.
  destruct (fexp prec emax (Zpos (digits2_pos m) + e) - e) as [|d|d] eqn:Ed;
    apply binary_round_aux_sign; try exact He.
  unfold fexp, emin, prec, emax in *. lia.
Qed.

Lemma binary_normalize_positive (d e : Z) :
  -1074 <= e ->
  isPositive (binary_normalize prec emax d e false) = (0 <? d).
Proof.
  intros He. destruct d as [|d|d]; cbn [binary_normalize].
  - reflexivity.
  - destruct (binary_round_sign false d e He) as [(m' & e' & ->)| ->]; reflexivity.
  - destruct (binary_round_sign true d e He) as [(m' & e' & ->)| ->]; reflexivity.
Qed.

(** *** The sign of a difference *)

Lemma iter_xO (m d : positive) : Zpos (Pos.iter xO m d) = Zpos m * 2 ^ Zpos d.
Proof.
  apply (Pos.iter_ind positive xO m (fun d r => Zpos r = Zpos m * 2 ^ Zpos d)).
  - rewrite Pos2Z.inj_xO. change (2 ^ 1) with 2. lia.
  - intros p r IH. rewrite Pos2Z.inj_xO, IH, Pos2Z.inj_succ, Z.pow_succ_r by lia. lia.
Qed.

Lemma shl_align_value (m : positive) (e e' : Z) :
  e' <= e -> Zpos (fst (shl_align m e e')) = Zpos m * 2 ^ (e - e').
Proof.
  intros He. unfold shl_align.
  destruct (e' - e) as [|d|d] eqn:Ed; cbn [fst]; try lia.
  - replace (e - e') with 0 by lia. lia.
  - rewrite iter_xO. f_equal. f_equal. lia.
Qed.

(** The aligned mantissa of a number, times the unit of the common exponent,
    is its value. *)
Lemma aligned_units (s : bool) (m : positive) (e ez : Z) :
  -1074 <= ez -> ez <= e ->
  cond_Zopp s (Zpos (fst (shl_align m e ez))) * 2 ^ (ez + 1074)
  = cond_Zopp s (Zpos m * 2 ^ (e + 1074)).
Proof.
  intros Hz He. rewrite shl_align_value by exact He.
  replace (e + 1074) with ((e - ez) + (ez + 1074)) by lia.
  rewrite (Z.pow_add_r 2 (e - ez) (ez + 1074)) by lia.
  destruct s; cbn [cond_Zopp]; ring.
Qed.

Lemma SFsub_positive (x y : spec_float) :
  valid_binary x = true -> valid_binary y = true ->
  isNaN x = false -> isNaN y = false ->
  isPositive (SFsub prec emax y x) = (units x <? units y).
Proof.
  intros Vx Vy Nx Ny.
  assert (B : 0 < 2 ^ 2098) by (apply pow2_pos; lia).
  destruct x as [sx|sx| |sx mx ex]; [| |discriminate|];
    (destruct y as [sy|sy| |sy my ey]; [| |discriminate|]);
    try pose proof (finite_magnitude _ _ _ Vx) as Mx;
    try pose proof (finite_magnitude _ _ _ Vy) as My;
    try pose proof (valid_finite _ _ _ Vx) as (Ex & _);
    try pose proof (valid_finite _ _ _ Vy) as (Ey & _);
    cbn [SFsub units]; set (T := 2 ^ 2098) in *.
  - destruct sx, sy; reflexivity.
  - destruct sy; cbn [isPositive]; symmetry;
      [apply Z.ltb_ge|apply Z.ltb_lt]; lia.
  - destruct sy; cbn [isPositive cond_Zopp]; symmetry;
      [apply Z.ltb_ge|apply Z.ltb_lt]; lia.
  - destruct sx; cbn [isPositive negb]; symmetry;
      [apply Z.ltb_lt|apply Z.ltb_ge]; lia.
  - destruct sx, sy; cbn [isPositive]; symmetry;
      first [apply Z.ltb_lt; lia|apply Z.ltb_ge; lia].
  - destruct sx, sy; cbn [isPositive negb cond_Zopp]; symmetry;
      first [apply Z.ltb_lt; lia|apply Z.ltb_ge; lia].
  - destruct sx; cbn [isPositive negb cond_Zopp]; symmetry;
      first [apply Z.ltb_lt; lia|apply Z.ltb_ge; lia].
  - destruct sx, sy; cbn [isPositive negb cond_Zopp]; symmetry;
      first [apply Z.ltb_lt; lia|apply Z.ltb_ge; lia].
  - cbv zeta.
    rewrite binary_normalize_positive by lia.
    pose proof (aligned_units sx mx ex (Z.min ey ex) ltac:(lia) ltac:(lia)) as Ax.
    pose proof (aligned_units sy my ey (Z.min ey ex) ltac:(lia) ltac:(lia)) as Ay.
    assert (P : 0 < 2 ^ (Z.min ey ex + 1074)) by (apply pow2_pos; lia).
    rewrite <- Ax, <- Ay.
    set (X := cond_Zopp sx (Zpos (fst (shl_align mx ex (Z.min ey ex))))).
    set (Y := cond_Zopp sy (Zpos (fst (shl_align my ey (Z.min ey ex))))).
    destruct (Z.ltb_spec 0 (Y - X)); symmetry; [apply Z.ltb_lt|apply Z.ltb_ge]; nia.
Qed.

(** *** From the specification to the primitive operations *)

Lemma SFeqb_refl (x : spec_float) : SFeqb x x = negb (isNaN x).
Proof.
  unfold SFeqb. destruct x as [s|s| |s m e]; cbn [SFcompare isNaN negb].
  - reflexivity.
  - destruct s; reflexivity.
  - reflexivity.
  - rewrite Z.compare_refl. destruct s; rewrite Pos.compare_cont_refl; reflexivity.
Qed.

Lemma is_nan_spec (a : float) : PrimFloat.is_nan a = isNaN (Prim2SF a).
Proof.
  unfold PrimFloat.is_nan. rewrite FloatAxioms.eqb_spec, SFeqb_refl. apply Bool.negb_involutive.
Qed.

Lemma SFltb_zero (r : spec_float) : SFltb (S754_zero false) r = isPositive r.
Proof. destruct r as [s|s| |s m e]; try destruct s; reflexivity. Qed.

Lemma float_ltb_units (a b : float) :
  PrimFloat.is_nan a = false -> PrimFloat.is_nan b = false ->
  (a <? b)%float = (units (Prim2SF a) <? units (Prim2SF b)).
Proof.
  intros Na Nb. rewrite is_nan_spec in Na, Nb.
  rewrite FloatAxioms.ltb_spec. apply SFltb_units; auto using Prim2SF_valid.
Qed.

(** [b - a > 0] exactly when [a < b]: a difference of two doubles is never
    rounded to zero or across it. *)
Lemma float_sub_sign (a b : float) :
  PrimFloat.is_nan a = false -> PrimFloat.is_nan b = false ->
  (0 <? b - a)%float = (a <? b)%float.
Proof.
  intros Na Nb. rewrite (float_ltb_units a b Na Nb).
  rewrite is_nan_spec in Na, Nb.
  rewrite FloatAxioms.ltb_spec, FloatAxioms.sub_spec.
  change (Prim2SF 0) with (S754_zero false).
  rewrite SFltb_zero. apply SFsub_positive; auto using Prim2SF_valid.
Qed.

Lemma float_ordered (avg : list float) :
  (forall p, p ∈ avg -> PrimFloat.is_nan p = false) ->
  orderedNumbers avg = true.
Proof.
  intros Hnan. unfold orderedNumbers.
  apply forallb_forall. intros a Ha. apply forallb_forall. intros b Hb.
  apply list_elem_of_In, Hnan in Ha, Hb.
  unfold aboveZero. cbn [num_sub num_ltb num_of_Z float_Number].
  change (of_Z 0) with 0%float.
  rewrite (float_sub_sign a b Ha Hb), Bool.eqb_reflx. cbn [andb].
  rewrite (float_ltb_units a b Ha Hb), (float_ltb_units b a Hb Ha).
  apply andb_true_intro. split.
  - destruct (Z.ltb_spec (units (Prim2SF a)) (units (Prim2SF b))); [|reflexivity].
    destruct (Z.ltb_spec (units (Prim2SF b)) (units (Prim2SF a))); [lia|reflexivity].
  - apply forallb_forall. intros c Hc. apply list_elem_of_In, Hnan in Hc.
    rewrite (float_ltb_units a c Ha Hc), (float_ltb_units b c Hb Hc).
    destruct (Z.ltb_spec (units (Prim2SF a)) (units (Prim2SF b))); [reflexivity|].
    destruct (Z.ltb_spec (units (Prim2SF a)) (units (Prim2SF c))); [|reflexivity].
    destruct (Z.ltb_spec (units (Prim2SF b)) (units (Prim2SF c))); [reflexivity|lia].
Qed.

(** *** Exact arithmetic orders every vector consistently *)

Lemma Qc_ltb_spec (a b : Qc) : reflect (a < b)%Qc (Qc_ltb a b).
Proof.
  unfold Qc_ltb. destruct (a ?= b)%Qc eqn:E; constructor.
  - rewrite Qclt_alt, E. discriminate.
  - apply Qclt_alt, E.
  - rewrite Qclt_alt, E. discriminate.
Qed.

Lemma Qc_positive_sub (a b : Qc) : aboveZero (num_sub b a) = num_ltb a b.
Proof.
  unfold aboveZero. cbn [num_sub num_ltb num_of_Z Qc_Number].
  change (Q2Qc (inject_Z 0)) with (@num_of_Z Qc _ 0). rewrite Qc_of_Z_0.
  destruct (Qc_ltb_spec 0 (b - a)) as [P|P], (Qc_ltb_spec a b) as [L|L];
    try reflexivity; exfalso.
  - apply L, Qclt_minus_iff. exact P.
  - apply P. apply Qclt_minus_iff in L. exact L.
Qed.

Lemma Qc_ordered (avg : list Qc) : orderedNumbers avg = true.
Proof.
  unfold orderedNumbers.
  apply forallb_forall. intros a _. apply forallb_forall. intros b _.
  rewrite Qc_positive_sub, Bool.eqb_reflx. cbn [andb num_ltb Qc_Number].
  apply andb_true_intro. split.
  - destruct (Qc_ltb_spec a b) as [L|L]; [|reflexivity].
    destruct (Qc_ltb_spec b a) as [L'|L']; [|reflexivity].
    exfalso. exact (Qclt_not_le _ _ L (Qclt_le_weak _ _ L')).
  - apply forallb_forall. intros c _.
    destruct (Qc_ltb_spec a b) as [L|L]; [reflexivity|].
    destruct (Qc_ltb_spec a c) as [L1|L1]; [|reflexivity].
    destruct (Qc_ltb_spec b c) as [L2|L2]; [reflexivity|].
    exfalso. apply L2. apply Qcle_lt_trans with a; [apply Qcnot_lt_le, L|exact L1].
Qed.

Lemma contenders_top3 {T : Type} `{Number T} (avg : list T) :
  orderedNumbers avg = true ->
  (exists ranking,
      Permutation ranking (entries avg) /\ StronglySorted rankedBefore ranking)
  /\ (forall ranking,
        Permutation ranking (entries avg) -> StronglySorted rankedBefore ranking ->
        contenders avg = take 3 ranking).
Proof.
  intros Hord. split.
  - exists (sort byProbability (entries avg)). apply contenders_ranked, Hord.
  - intros ranking Hp Hs. rewrite (ranking_unique avg Hord ranking Hp Hs). reflexivity.
Qed.

Lemma noNaN_checked (l : list float) :
  forallb (fun p => negb (PrimFloat.is_nan p)) l = true ->
  forall p, p ∈ l -> PrimFloat.is_nan p = false.
Proof.
  intros C p Hp. rewrite forallb_forall in C.
  apply Bool.negb_true_iff, C, list_elem_of_In, Hp.
Qed.

(** C7. For every vector of doubles that holds no NaN, the classes have
    exactly one ranking in which every entry precedes the entries of smaller
    probability and, among those of its own probability, the ones of larger
    class index; the contender list is the first three entries of that
    ranking. The same holds for every vector in exact arithmetic. For
    [0.1, 0.05, 0.6, 0, 0.05, 0, 0.1, 0, 0.1, 0] the list is class 2 with 0.6,
    class 0 with 0.1, class 6 with 0.1, class 0 ahead of class 6. *)
Theorem contenders_spec :
  (forall avg : list float,
      (forall p, p ∈ avg -> PrimFloat.is_nan p = false) ->
      (exists ranking,
          Permutation ranking (entries avg) /\ StronglySorted rankedBefore ranking)
      /\ (forall ranking,
            Permutation ranking (entries avg) -> StronglySorted rankedBefore ranking ->
            contenders avg = take 3 ranking))
  /\ (forall avg : list Qc,
        (exists ranking,
            Permutation ranking (entries avg) /\ StronglySorted rankedBefore ranking)
        /\ (forall ranking,
              Permutation ranking (entries avg) -> StronglySorted rankedBefore ranking ->
              contenders avg = take 3 ranking))
  /\ contenders exampleRow = [(0.6, 2%nat); (0.1, 0%nat); (0.1, 6%nat)]%float
  /\ contenders exampleRowQ
     = [(Q2Qc (6 # 10), 2%nat); (Q2Qc (1 # 10), 0%nat); (Q2Qc (1 # 10), 6%nat)].
Proof.
  split; [|split; [|split]].
  - intros avg Hnan. apply contenders_top3, float_ordered, Hnan.
  - intros avg. apply contenders_top3, Qc_ordered.
  - vm_compute. reflexivity.
  - vm_compute. reflexivity.
Qed.

Lemma contenders_spec_witness :
  exists ranking,
    Permutation ranking (entries exampleRow)
    /\ StronglySorted rankedBefore ranking
    /\ contenders exampleRow = take 3 ranking.
Proof.
  destruct contenders_spec as [H _].
  destruct (H exampleRow) as [[ranking [Hp Hs]] Htop].
  - apply noNaN_checked. vm_compute. reflexivity.
  - exists ranking. split; [exact Hp|]. split; [exact Hs|apply Htop; assumption].
Defined.

(** * Further properties of the scripts *)

(** ** The two scans *)

Lemma foldl_ext_elem {A S : Type} (f g : S -> A -> S) (l : list A) (s : S) :
  (forall s a, a ∈ l -> f s a = g s a) -> foldl f s l = foldl g s l.
Proof.
  revert s. induction l as [|a l IH]; intros s E; [reflexivity|].
  cbn [foldl]. rewrite (E s a) by left. apply IH.
  intros s' a' Ha. apply E. right. exact Ha.
Qed.

Lemma scanAll_cells (data : list Z) (w h : Z) :
  scanAll data w h = foldl (fun s c => scanCell data w s (fst c) (snd c))
                           (scanStart w h) (cells w h).
Proof. unfold scanAll. apply (foldl_cells (fun s x y => scanCell data w s x y)). Qed.

Lemma momentsAll_cells (data : list Z) (w h : Z) :
  momentsAll data w h = foldl (fun m c => massCell data w m (fst c) (snd c))
                              {| sumX := 0; sumY := 0; mass := 0 |} (cells w h).
Proof. unfold momentsAll. apply (foldl_cells (fun m x y => massCell data w m x y)). Qed.

(** The box lies inside the raster, so the source rectangle handed to
    [drawImage] never leaves the canvas. *)
Lemma getBoundingBox_within (data : list Z) (w h : Z) (b : BBox) :
  getBoundingBox data w h = Some b ->
  0 <= minX b /\ minX b + bbox_w b <= w /\ 1 <= bbox_w b
  /\ 0 <= minY b /\ minY b + bbox_h b <= h /\ 1 <= bbox_h b.
Proof.
  intros E. destruct (getBoundingBox_Some_tight data w h b E) as (T & Hw & Hh).
  destruct (tight_left _ _ _ _ T) as (yl & [Hl _] & _).
  destruct (tight_right _ _ _ _ T) as (yr & [Hr _] & _).
  destruct (tight_top _ _ _ _ T) as (xt & [_ Ht] & _).
  destruct (tight_bottom _ _ _ _ T) as (xb & [_ Hb] & _).
  lia.
Qed.

Lemma getBoundingBox_within_witness :
  0 <= 1 /\ 1 + 2 <= 3 /\ 1 <= 2 /\ 0 <= 0 /\ 0 + 2 <= 2 /\ 1 <= 2.
Proof.
  exact (getBoundingBox_within twoDots 3 2
           {| minX := 1; minY := 0; bbox_w := 2; bbox_h := 2 |} eq_refl).
Defined.

(** A raster without columns or without rows has no ink: both scans return
    [null]. *)
Lemma scans_of_empty_raster (data : list Z) (w h : Z) :
  w <= 0 \/ h <= 0 ->
  getBoundingBox data w h = None /\ getCenterOfMass data w h = None.
Proof.
  intros Hwh.
  assert (C : cells w h = []).
  { destruct (cells w h) as [|[x y] l] eqn:E; [reflexivity|].
    assert (Hin : (x, y) ∈ cells w h) by (rewrite E; left).
    apply elem_of_cells in Hin. unfold inRaster in Hin. lia. }
  split.
  - unfold getBoundingBox. rewrite scanAll_cells, C. reflexivity.
  - unfold getCenterOfMass. rewrite momentsAll_cells, C. reflexivity.
Qed.

Lemma scans_of_empty_raster_witness :
  getBoundingBox twoDots 0 2 = None /\ getCenterOfMass twoDots 0 2 = None.
Proof. apply scans_of_empty_raster. left. lia. Defined.

(** The box depends on the raster only through which samples of the raster
    are ink, and the centre of mass only through their first channel: the
    other three channels, the bytes beyond the raster and, for the box, the
    intensity above the threshold are never looked at. *)
Lemma scans_read_channel0 (data data' : list Z) (w h : Z) :
  ((forall x y, inRaster w h x y -> isInk data w x y = isInk data' w x y) ->
   getBoundingBox data w h = getBoundingBox data' w h)
  /\ ((forall x y, inRaster w h x y -> channel0 data w x y = channel0 data' w x y) ->
      getCenterOfMass data w h = getCenterOfMass data' w h).
Proof.
  split; intros E.
  - unfold getBoundingBox. rewrite !scanAll_cells. f_equal.
    apply foldl_ext_elem. intros s [x y] Hc. apply elem_of_cells in Hc.
    unfold scanCell. cbn [fst snd]. rewrite (E x y Hc). reflexivity.
  - unfold getCenterOfMass. rewrite !momentsAll_cells.
    assert (M : foldl (fun m c => massCell data w m (fst c) (snd c))
                      {| sumX := 0; sumY := 0; mass := 0 |} (cells w h)
                = foldl (fun m c => massCell data' w m (fst c) (snd c))
                        {| sumX := 0; sumY := 0; mass := 0 |} (cells w h)).
    { apply foldl_ext_elem. intros s [x y] Hc. apply elem_of_cells in Hc.
      unfold massCell. cbn [fst snd]. rewrite (E x y Hc). reflexivity. }
    rewrite M. reflexivity.
Qed.

(** A raster with two columns and one row whose bytes differ from [twoDots]
    only outside the first channel. *)
Lemma scans_read_channel0_witness :
  getBoundingBox [60; 1; 2; 3; 0; 9; 9; 9] 2 1 = getBoundingBox [60; 0; 0; 255; 0; 0; 0; 255] 2 1.
Proof.
  apply (proj1 (scans_read_channel0 _ _ 2 1)).
  intros x y [Hx Hy].
  assert (y = 0) as -> by lia.
  assert (x = 0 \/ x = 1) as [-> | ->] by lia; reflexivity.
Defined.

(** Adding ink never shrinks the box. *)
Lemma getBoundingBox_monotone (data data' : list Z) (w h : Z) (b : BBox) :
  (forall x y, inRaster w h x y -> isInk data w x y = true -> isInk data' w x y = true) ->
  getBoundingBox data w h = Some b ->
  exists b', getBoundingBox data' w h = Some b'
    /\ minX b' <= minX b /\ minX b + bbox_w b <= minX b' + bbox_w b'
    /\ minY b' <= minY b /\ minY b + bbox_h b <= minY b' + bbox_h b'.
Proof.
  intros Hsub E. destruct (getBoundingBox_Some_tight data w h b E) as (T & _ & _).
  destruct (tight_left _ _ _ _ T) as (yl & Hl & Hkl).
  destruct (tight_right _ _ _ _ T) as (yr & Hr & Hkr).
  destruct (tight_top _ _ _ _ T) as (xt & Ht & Hkt).
  destruct (tight_bottom _ _ _ _ T) as (xb & Hb & Hkb).
  destruct (getBoundingBox data' w h) as [b'|] eqn:E'.
  - exists b'. split; [reflexivity|].
    destruct (getBoundingBox_Some_tight data' w h b' E') as (T' & _ & _).
    pose proof (tight_contains _ _ _ _ T' _ _ Hl (Hsub _ _ Hl Hkl)).
    pose proof (tight_contains _ _ _ _ T' _ _ Hr (Hsub _ _ Hr Hkr)).
    pose proof (tight_contains _ _ _ _ T' _ _ Ht (Hsub _ _ Ht Hkt)).
    pose proof (tight_contains _ _ _ _ T' _ _ Hb (Hsub _ _ Hb Hkb)).
    lia.
  - pose proof (proj1 (getBoundingBox_None_iff data' w h) E' _ _ Hl) as N.
    rewrite (Hsub _ _ Hl Hkl) in N. discriminate.
Qed.

Lemma getBoundingBox_monotone_witness :
  exists b', getBoundingBox [60; 0; 0; 255; 70; 0; 0; 255] 2 1 = Some b'
    /\ minX b' <= 0 /\ 0 + 1 <= minX b' + bbox_w b'
    /\ minY b' <= 0 /\ 0 + 1 <= minY b' + bbox_h b'.
Proof.
  apply (getBoundingBox_monotone [60; 0; 0; 255; 0; 0; 0; 255] _ 2 1
           {| minX := 0; minY := 0; bbox_w := 1; bbox_h := 1 |}); [|reflexivity].
  intros x y [Hx Hy] _.
  assert (y = 0) as -> by lia.
  assert (x = 0 \/ x = 1) as [-> | ->] by lia; reflexivity.
Defined.

Lemma isInk_sample (data : list Z) (w x y : Z) :
  isInk data w x y = true <-> exists v, channel0 data w x y = Some v /\ 50 < v.
Proof.
  unfold isInk, above50. destruct (channel0 data w x y) as [v|]; split.
  - intros H. exists v. split; [reflexivity|]. apply Z.ltb_lt, H.
  - intros (v' & [= <-] & Hv). apply Z.ltb_lt, Hv.
  - discriminate.
  - intros (v' & N & _). discriminate.
Qed.

(** Sums over the ink samples lying in a box. *)
Lemma moments_in_range (s : list (Z * Z * Z)) (xl xh yl yh : Z) :
  (forall x y v, (x, y, v) ∈ s -> xl <= x <= xh /\ yl <= y <= yh /\ 0 <= v) ->
  xl * totalMass s <= momentX s <= xh * totalMass s
  /\ yl * totalMass s <= momentY s <= yh * totalMass s.
Proof.
  unfold momentX, momentY, totalMass.
  induction s as [|[[x y] v] s IH]; intros Hs; [cbn; lia|].
  destruct (Hs x y v ltac:(left)) as (Hx & Hy & Hv).
  destruct IH as [IHx IHy]; [intros x' y' v' H'; apply Hs; right; exact H'|].
  cbn [fmap list_fmap sumZ foldr fst snd] in *.
  unfold sumZ in *. nia.
Qed.

(** The two scans agree on whether there is ink, and the centre of mass lies
    in the bounding box: [minX <= sumX / mass <= minX + w - 1], and the same
    for [y], stated on the sums. *)
Lemma centre_of_mass_in_box (data : list Z) (w h : Z) :
  (getCenterOfMass data w h = None <-> getBoundingBox data w h = None)
  /\ forall b, getBoundingBox data w h = Some b ->
       let m := momentsAll data w h in
       0 < mass m
       /\ minX b * mass m <= sumX m <= (minX b + bbox_w b - 1) * mass m
       /\ minY b * mass m <= sumY m <= (minY b + bbox_h b - 1) * mass m.
Proof.
  assert (Z0 : getCenterOfMass data w h = None <-> inkSamples data w h = []).
  { unfold getCenterOfMass. rewrite momentsAll_sums. cbn [mass].
    rewrite <- totalMass_zero_iff.
    destruct (Z.eqb_spec (totalMass (inkSamples data w h)) 0); split; congruence. }
  assert (B0 : getBoundingBox data w h = None <-> inkSamples data w h = []).
  { rewrite getBoundingBox_None_iff. split.
    - intros Hno. destruct (inkSamples data w h) as [|[[x y] v] s] eqn:E; [reflexivity|].
      assert (Hin : (x, y, v) ∈ inkSamples data w h) by (rewrite E; left).
      apply elem_of_inkSamples in Hin as (Hr & Hc & Hv).
      assert (isInk data w x y = true) by (apply isInk_sample; eauto).
      rewrite (Hno x y Hr) in *. discriminate.
    - intros E x y Hr. destruct (isInk data w x y) eqn:K; [|reflexivity].
      apply isInk_sample in K as (v & Hc & Hv).
      assert (Hin : (x, y, v) ∈ inkSamples data w h) by (apply elem_of_inkSamples; auto).
      rewrite E in Hin. inversion Hin. }
  split; [rewrite Z0, B0; reflexivity|].
  intros b E m. subst m. rewrite momentsAll_sums. cbn [sumX sumY mass].
  destruct (getBoundingBox_Some_tight data w h b E) as (T & _ & _).
  assert (P : 0 < totalMass (inkSamples data w h)).
  { pose proof (totalMass_lower data w h _ (fun _ H => H)) as L.
    destruct (inkSamples data w h) as [|t s] eqn:Es.
    - pose proof (proj2 B0 eq_refl). congruence.
    - cbn [length] in L. lia. }
  split; [exact P|].
  apply moments_in_range. intros x y v Hin.
  apply elem_of_inkSamples in Hin as (Hr & Hc & Hv).
  assert (K : isInk data w x y = true) by (apply isInk_sample; eauto).
  pose proof (tight_contains _ _ _ _ T x y Hr K). lia.
Qed.

Lemma centre_of_mass_in_box_witness :
  0 < mass (momentsAll twoDots 3 2)
  /\ 1 * mass (momentsAll twoDots 3 2) <= sumX (momentsAll twoDots 3 2)
     <= (1 + 2 - 1) * mass (momentsAll twoDots 3 2)
  /\ 0 * mass (momentsAll twoDots 3 2) <= sumY (momentsAll twoDots 3 2)
     <= (0 + 2 - 1) * mass (momentsAll twoDots 3 2).
Proof.
  exact (proj2 (centre_of_mass_in_box twoDots 3 2)
           {| minX := 1; minY := 0; bbox_w := 2; bbox_h := 2 |} eq_refl).
Defined.

Lemma sumZ_Permutation (l k : list Z) : l ≡ₚ k -> sumZ l = sumZ k.
Proof.
  unfold sumZ. induction 1 as [|x l k _ IH|x y l|l k j _ IH1 _ IH2]; cbn [foldr]; lia.
Qed.

(** The sums of a set of samples that is symmetric about the point
    [(a / 2, b / 2)]. *)
Lemma symmetric_moments (s : list (Z * Z * Z)) (a b : Z) :
  NoDup s ->
  (forall x y v, (x, y, v) ∈ s -> (a - x, b - y, v) ∈ s) ->
  2 * momentX s = a * totalMass s /\ 2 * momentY s = b * totalMass s.
Proof.
  intros Hnd Hsym.
  set (r := fun t : Z * Z * Z => (a - fst (fst t), b - snd (fst t), snd t)).
  assert (Hinj : Inj eq eq r).
  { intros [[x1 y1] v1] [[x2 y2] v2]. unfold r. cbn [fst snd].
    intros [= Hx Hy Hv]. f_equal; [f_equal|]; lia. }
  assert (Hp : r <$> s ≡ₚ s).
  { apply submseteq_length_Permutation; [|rewrite length_fmap; lia].
    apply NoDup_submseteq; [apply (NoDup_fmap_2 _), Hnd|].
    intros t Ht. apply list_elem_of_fmap in Ht as ([[x y] v] & -> & Hin).
    apply Hsym, Hin. }
  assert (Ex : momentX (r <$> s) = a * totalMass s - momentX s
               /\ momentY (r <$> s) = b * totalMass s - momentY s).
  { unfold momentX, momentY, totalMass. clear. induction s as [|[[x y] v] s [IHx IHy]].
    - cbn. lia.
    - cbn [fmap list_fmap sumZ foldr fst snd r] in *. unfold sumZ in *. split; lia. }
  destruct Ex as [Ex Ey].
  unfold momentX, momentY in *.
  rewrite (sumZ_Permutation _ _ (fmap_Permutation (fun t => fst (fst t) * snd t) _ _ Hp)) in Ex.
  rewrite (sumZ_Permutation _ _ (fmap_Permutation (fun t => snd (fst t) * snd t) _ _ Hp)) in Ey.
  lia.
Qed.

Lemma symmetric_ink_sums (data : list Z) (w h a b : Z) :
  (forall x y v, inRaster w h x y -> channel0 data w x y = Some v -> 50 < v ->
     inRaster w h (a - x) (b - y) /\ channel0 data w (a - x) (b - y) = Some v) ->
  2 * sumX (momentsAll data w h) = a * mass (momentsAll data w h)
  /\ 2 * sumY (momentsAll data w h) = b * mass (momentsAll data w h).
Proof.
  intros Hsym. rewrite momentsAll_sums. cbn [sumX sumY mass].
  apply symmetric_moments; [apply NoDup_inkSamples|].
  intros x y v Hin. apply elem_of_inkSamples in Hin as (Hr & Hc & Hv).
  destruct (Hsym x y v Hr Hc Hv) as [Hr' Hc'].
  apply elem_of_inkSamples. auto.
Qed.

(** *** Rounding error *)

(** Linear arithmetic is done with the large powers of two kept abstract. *)
Ltac hide_pow c := let B := fresh "B" in set (B := c) in *; clearbody B.

Ltac is_large p :=
  lazymatch eval vm_compute in (Pos.leb 64 p) with true => idtac end.

Ltac hide_pows :=
  repeat match goal with
         | |- context [2 ^ Zpos ?p] => is_large p; hide_pow (2 ^ Zpos p)
         | H : context [2 ^ Zpos ?p] |- _ => is_large p; hide_pow (2 ^ Zpos p)
         end.

Lemma pow2_le_inv (a b : Z) : 0 <= b -> 2 ^ a <= 2 ^ b -> a <= b.
Proof. intros Hb H. apply (Z.pow_le_mono_r_iff 2); lia. Qed.

Lemma pow2_lt_inv (a b : Z) : 0 <= b -> 2 ^ a < 2 ^ b -> a < b.
Proof. intros Hb H. apply (Z.pow_lt_mono_r_iff 2); lia. Qed.

Lemma digits2_unique (m : positive) (k : Z) :
  2 ^ (k - 1) <= Zpos m < 2 ^ k -> Zpos (digits2_pos m) = k.
Proof.
  intros [Hl Hu]. pose proof (digits2_bounds m) as [Dl Du].
  assert (0 < k).
  { destruct (Z.ltb_spec 0 k); [assumption|].
    destruct (Z.eq_dec k 0) as [->|]; [simpl in Hu; lia|].
    rewrite Z.pow_neg_r in Hu by lia. lia. }
  assert (k - 1 < Zpos (digits2_pos m)) by (apply pow2_lt_inv; lia).
  assert (Zpos (digits2_pos m) - 1 < k) by (apply pow2_lt_inv; lia).
  lia.
Qed.

(** The mantissa and exponent a shift to the canonical exponent produces. *)
Lemma shr_fexp_value (m : positive) (e : Z) (l : location) :
  -1074 <= e ->
  exists n,
    0 <= n
    /\ snd (shr_fexp prec emax (Zpos m) e l) = e + n
    /\ shr_m (fst (shr_fexp prec emax (Zpos m) e l)) = Zpos m / 2 ^ n
    /\ Zpos m / 2 ^ n < 2 ^ 53
    /\ (n = 0 -> fst (shr_fexp prec emax (Zpos m) e l) = shr_record_of_loc (Zpos m) l)
    /\ (0 < n -> 2 ^ 52 <= Zpos m / 2 ^ n).
Proof.
  intros He. unfold shr_fexp, shr, fexp, emin, prec, emax. cbn [Zdigits2].
  pose proof (digits2_bounds m) as [Hl Hu].
  destruct (Z.max (Zpos (digits2_pos m) + e - 53) (3 - 1024 - 53) - e) as [|p|p] eqn:En;
    cbn [fst snd].
  - exists 0. rewrite shr_record_of_loc_m, Z.div_1_r.
    assert (2 ^ Zpos (digits2_pos m) <= 2 ^ 53) by (apply Z.pow_le_mono_r; lia).
    repeat split; try lia.
  - exists (Zpos p).
    assert (Hp : Zpos p = Zpos (digits2_pos m) - 53) by lia.
    rewrite iter_shr_1 by (rewrite shr_record_of_loc_m; lia).
    rewrite shr_record_of_loc_m.
    assert (P : 0 < 2 ^ Zpos p) by (apply pow2_pos; lia).
    assert (E1 : 2 ^ Zpos (digits2_pos m) = 2 ^ 53 * 2 ^ Zpos p).
    { rewrite <- Z.pow_add_r by lia. f_equal. lia. }
    assert (E2 : 2 ^ (Zpos (digits2_pos m) - 1) = 2 ^ 52 * 2 ^ Zpos p).
    { rewrite <- Z.pow_add_r by lia. f_equal. lia. }
    repeat split; try lia.
    + apply Z.div_lt_upper_bound; lia.
    + intros _. apply Z.div_le_lower_bound; lia.
  - exists 0. rewrite shr_record_of_loc_m, Z.div_1_r.
    assert (2 ^ Zpos (digits2_pos m) <= 2 ^ 53) by (apply Z.pow_le_mono_r; lia).
    repeat split; try lia.
Qed.

Lemma round_nearest_even_bounds (m : Z) (l : location) :
  m <= round_nearest_even m l <= m + 1.
Proof.
  destruct l as [|[]]; cbn [round_nearest_even]; try lia.
  destruct (Z.even m); lia.
Qed.

(** What rounding does to a mantissa [m] at exponent [e]: the result is a
    multiple of a grid step [g] units of [e], at most one step away from
    [m], and the step is below [2^-52] of the value once it exceeds one
    unit. *)
Lemma binary_round_aux_value (s : bool) (m : positive) (e : Z) (l : location) :
  -1074 <= e ->
  exists (m3 : positive) (e3 g : Z),
    binary_round_aux prec emax s (Zpos m) e l
    = (if e3 <=? 971 then S754_finite s m3 e3 else S754_infinity s)
    /\ e <= e3
    /\ 1 <= g
    /\ Zpos m - g < Zpos m3 * 2 ^ (e3 - e) <= Zpos m + g
    /\ (1 < g -> 2 ^ 52 * g <= Zpos m)
    /\ (g = 1 -> l = loc_Exact -> Zpos m3 * 2 ^ (e3 - e) = Zpos m)
    /\ (2 ^ 52 <= Zpos m3 \/ (e3 = e /\ Zpos m < 2 ^ 53)).
Proof.
  intros He. unfold binary_round_aux.
  destruct (shr_fexp_value m e l He) as (n & Hn & En & Em & Eu & E0 & E1).
  destruct (shr_fexp_positive m e l He) as [P1 P1e].
  destruct (shr_fexp prec emax (Zpos m) e l) as [mrs' e']. cbn [fst snd] in *.
  pose proof (round_nearest_even_bounds (shr_m mrs') (loc_of_shr_record mrs')) as B2.
  assert (X2 : n = 0 -> l = loc_Exact ->
               round_nearest_even (shr_m mrs') (loc_of_shr_record mrs') = shr_m mrs').
  { intros N0 ->. rewrite (E0 N0). reflexivity. }
  destruct (round_nearest_even (shr_m mrs') (loc_of_shr_record mrs')) as [|m2|m2];
    try lia.
  destruct (shr_fexp_value m2 e' loc_Exact P1e) as (n2 & Hn2 & En2 & Em2 & Eu2 & _ & E12).
  destruct (shr_fexp_positive m2 e' loc_Exact P1e) as [P3 _].
  destruct (shr_fexp prec emax (Zpos m2) e' loc_Exact) as [mrs'' e'']. cbn [fst snd] in *.
  destruct (shr_m mrs'') as [|m3|m3]; try lia.
  assert (G : 0 < 2 ^ n) by (apply pow2_pos; lia).
  assert (G2 : 0 < 2 ^ n2) by (apply pow2_pos; lia).
  (* the second shift is exact *)
  assert (X3 : Zpos m2 = Zpos m3 * 2 ^ n2).
  { destruct (Z.eq_dec n2 0) as [->|N2].
    - rewrite Em2, Z.div_1_r. change (2 ^ 0) with 1. lia.
    - assert (T : 2 * 2 ^ 0 <= 2 ^ n2) by (apply pow2_step; lia).
      change (2 ^ 0) with 1 in T.
      specialize (E12 ltac:(lia)). rewrite <- Em2 in E12.
      assert (Zpos m2 <= 2 ^ 53) by lia.
      pose proof (Z.mul_div_le (Zpos m2) (2 ^ n2) G2) as D.
      rewrite <- Em2 in D.
      change (2 ^ 53) with (2 * 2 ^ 52) in *.
      nia. }
  pose proof (Z.mul_div_le (Zpos m) (2 ^ n) G) as D1.
  pose proof (Z.mul_succ_div_gt (Zpos m) (2 ^ n) G) as D2.
  rewrite <- Em in D1, D2, E1.
  exists m3, e'', (2 ^ n).
  replace (e'' - e) with (n2 + n) by lia.
  rewrite (Z.pow_add_r 2 n2 n) by lia.
  change (emax - prec) with 971.
  split; [reflexivity|].
  split; [lia|]. split; [lia|].
  split; [nia|].
  split.
  { intros G1. assert (0 < n).
    { destruct (Z.eq_dec n 0) as [->|]; [change (2 ^ 0) with 1 in G1; lia|lia]. }
    specialize (E1 ltac:(lia)). nia. }
  split.
  { intros G1 L. assert (n = 0).
    { destruct (Z.eq_dec n 0); [assumption|].
      assert (T : 2 * 2 ^ 0 <= 2 ^ n) by (apply pow2_step; lia).
      change (2 ^ 0) with 1 in T. lia. }
    subst n. change (2 ^ 0) with 1 in *. rewrite Z.div_1_r in Em.
    specialize (X2 eq_refl L). nia. }
  destruct (Z.eq_dec n2 0) as [N2|N2].
  - destruct (Z.eq_dec n 0) as [N|N].
    + right. subst n. change (2 ^ 0) with 1 in Eu. rewrite Z.div_1_r in Eu. lia.
    + left. specialize (E1 ltac:(lia)). subst n2. change (2 ^ 0) with 1 in X3. lia.
  - left. specialize (E12 ltac:(lia)). rewrite <- Em2 in E12. exact E12.
Qed.

Lemma normal_exponent (m : Z) (e : Z) :
  -1074 <= e -> 2 ^ 52 <= m -> m * 2 ^ (e + 1074) < 2 ^ 2098 -> e <= 971.
Proof.
  intros He Hm.
  assert (P : 0 < 2 ^ (e + 1074)) by (apply pow2_pos; lia).
  assert (E : 2 ^ (52 + (e + 1074)) = 2 ^ 52 * 2 ^ (e + 1074))
    by (apply Z.pow_add_r; lia).
  intros Hv.
  assert (L : 2 ^ (52 + (e + 1074)) < 2 ^ 2098).
  { rewrite E. hide_pow (2 ^ 2098). nia. }
  clear Hv. apply pow2_lt_inv in L; lia.
Qed.

(** Aligning the mantissa to the exponent of the format keeps the value. *)
Lemma brv_align (m : positive) (e : Z) :
  -1074 <= e ->
  exists mz ez', shl_align m e (fexp prec emax (Zpos (digits2_pos m) + e)) = (mz, ez')
              /\ -1074 <= ez'
              /\ Zpos mz * 2 ^ (ez' + 1074) = Zpos m * 2 ^ (e + 1074)
              /\ (ez' = -1074 \/ 2 ^ 52 <= Zpos mz).
Proof.
  intros He.
  pose proof (digits2_bounds m) as [Dl Du].
  set (ez := fexp prec emax (Zpos (digits2_pos m) + e)).
  assert (Ez : ez = Z.max (Zpos (digits2_pos m) + e - 53) (-1074)) by reflexivity.
  clearbody ez.
  destruct (Z.ltb_spec ez e) as [L|L].
    - exists (fst (shl_align m e ez)), ez.
      split.
      { unfold shl_align. destruct (ez - e) eqn:E; try lia. reflexivity. }
      split; [lia|]. split.
      { apply (aligned_units false m e ez); lia. }
      destruct (Z.eq_dec ez (-1074)) as [|N]; [left; assumption|right].
      rewrite shl_align_value by lia.
      assert (Hd : Zpos (digits2_pos m) - 1 + (e - ez) = 52) by lia.
      rewrite <- Hd.
      rewrite Z.pow_add_r by lia.
      assert (0 < 2 ^ (e - ez)) by (apply pow2_pos; lia). nia.
    - exists m, e. split.
      { unfold shl_align. destruct (ez - e) eqn:E; try lia; reflexivity. }
      split; [lia|]. split; [reflexivity|].
      destruct (Z.eq_dec e (-1074)) as [|N]; [left; assumption|right].
      apply Z.le_trans with (2 ^ (Zpos (digits2_pos m) - 1)); [|exact Dl].
      apply Z.pow_le_mono_r; lia.
Qed.

(** The rounded mantissa [R] against the aligned one, in units [u]. *)
Lemma brv_err (R u mz g : Z) :
  0 < u -> 0 < mz -> 1 <= g ->
  mz - g < R <= mz + g ->
  (1 < g -> 2 ^ 52 * g <= mz) ->
  (g = 1 -> R = mz) ->
  Z.abs (R * u - mz * u) * 2 ^ 52 <= mz * u.
Proof.
  intros U M Hg Hb Hr Hx.
  destruct (Z.eq_dec g 1) as [G1|G1].
    - rewrite (Hx G1), Z.sub_diag. simpl. nia.
    - specialize (Hr ltac:(lia)).
      assert (Z.abs (R - mz) <= g) by lia.
      replace (R * u - mz * u) with ((R - mz) * u) by ring.
      rewrite Z.abs_mul, (Z.abs_eq u) by lia. nia.
Qed.

(** The rounded value stays below twice the overflow threshold. *)
Lemma brv_big (R u mz : Z) :
  mz * u < 2 ^ 2097 ->
  Z.abs (R * u - mz * u) * 2 ^ 52 <= mz * u ->
  R * u < 2 ^ 2098.
Proof.
  intros Hv Err.
  change (2 ^ 2098) with (2 * 2 ^ 2097).
  hide_pow (2 ^ 2097). nia.
Qed.

(** Rounding a positive mantissa below the overflow threshold gives a finite
    number within [2^-52] of the value. *)
Lemma binary_round_value (s : bool) (m : positive) (e : Z) :
  -1074 <= e -> Zpos m * 2 ^ (e + 1074) < 2 ^ 2097 ->
  exists (m3 : positive) (e3 : Z),
    binary_round prec emax s m e = S754_finite s m3 e3
    /\ -1074 <= e3
    /\ Z.abs (Zpos m3 * 2 ^ (e3 + 1074) - Zpos m * 2 ^ (e + 1074)) * 2 ^ 52
       <= Zpos m * 2 ^ (e + 1074).
Proof.
  intros He Hv. unfold binary_round.
  destruct (brv_align m e He) as (mz & ez' & -> & Hez & Av & Ac).
  destruct (binary_round_aux_value s mz ez' loc_Exact Hez)
    as (m3 & e3 & g & -> & H3 & Hg & Hb & Hr & Hx & Hn).
  exists m3, e3.
  assert (U : 0 < 2 ^ (ez' + 1074)) by (apply pow2_pos; lia).
  assert (S3 : Zpos m3 * 2 ^ (e3 + 1074)
               = Zpos m3 * 2 ^ (e3 - ez') * 2 ^ (ez' + 1074)).
  { replace (e3 + 1074) with ((e3 - ez') + (ez' + 1074)) by lia.
    rewrite (Z.pow_add_r 2 (e3 - ez') (ez' + 1074)) by lia. ring. }
  pose proof (brv_err (Zpos m3 * 2 ^ (e3 - ez')) (2 ^ (ez' + 1074)) (Zpos mz) g
                U (Pos2Z.is_pos mz) Hg Hb Hr (fun G => Hx G eq_refl)) as Err.
  rewrite <- Av in Hv.
  pose proof (brv_big _ _ _ Hv Err) as Hv'.
  assert (Le : e3 <= 971).
  { destruct Hn as [Hn|[-> _]].
    - apply (normal_exponent (Zpos m3)); [lia|exact Hn|].
      rewrite S3. exact Hv'.
    - destruct Ac as [->|Ac]; [lia|].
      apply (normal_exponent (Zpos mz)); [lia|exact Ac|].
      apply Z.lt_trans with (2 ^ 2097); [exact Hv|].
      apply Z.pow_lt_mono_r; lia. }
  apply Z.leb_le in Le. rewrite Le.
  split; [reflexivity|]. split; [lia|].
  rewrite S3, <- Av. exact Err.
Qed.

Lemma moderate_cases (x : spec_float) :
  valid_binary x = true -> moderate x ->
  (exists s, x = S754_zero s) \/ (exists m e, x = S754_finite false m e).
Proof.
  intros V (N & L & U).
  destruct x as [s|s| |s m e]; cbn [units isNaN] in *; try discriminate.
  - left; eauto.
  - exfalso. destruct s.
    + clear U. assert (0 < 2 ^ 2098) by (apply pow2_pos; lia).
      hide_pow (2 ^ 2098). lia.
    + assert (2 ^ 2097 < 2 ^ 2098) by (clear; apply Z.pow_lt_mono_r; lia).
      hide_pow (2 ^ 2098). hide_pow (2 ^ 2097). lia.
  - destruct s; cbn [cond_Zopp] in *; [|right; eauto].
    clear U. pose proof (Pos2Z.is_pos m).
    pose proof (valid_finite _ _ _ V) as (He & _).
    assert (0 < 2 ^ (e + 1074)) by (apply pow2_pos; lia). nia.
Qed.

(** Addition of moderate numbers: the sum is within [2^-52] of the exact
    one. *)
Lemma SFadd_value (x y : spec_float) :
  valid_binary x = true -> valid_binary y = true ->
  moderate x -> moderate y -> units x + units y < 2 ^ 2097 ->
  isNaN (SFadd prec emax x y) = false
  /\ 0 <= units (SFadd prec emax x y)
  /\ Z.abs (units (SFadd prec emax x y) - (units x + units y)) * 2 ^ 52
     <= units x + units y.
Proof.
  intros Vx Vy Mx My Hs.
  pose proof Mx as (_ & Lx & _). pose proof My as (_ & Ly & _).
  destruct (moderate_cases x Vx Mx) as [[sx ->]|(mx & ex & ->)];
    destruct (moderate_cases y Vy My) as [[sy ->]|(my & ey & ->)].
  - destruct sx, sy; cbn; lia.
  - cbn [SFadd units isNaN cond_Zopp] in *.
    rewrite Z.add_0_l, Z.sub_diag. cbn [Z.abs]. lia.
  - cbn [SFadd units isNaN cond_Zopp] in *.
    rewrite Z.add_0_r, Z.sub_diag. cbn [Z.abs]. lia.
  - pose proof (valid_finite _ _ _ Vx) as (Ex & _).
    pose proof (valid_finite _ _ _ Vy) as (Ey & _).
    cbn [SFadd units cond_Zopp] in *. cbv zeta.
    pose proof (aligned_units false mx ex (Z.min ex ey) ltac:(lia) ltac:(lia)) as Ax.
    pose proof (aligned_units false my ey (Z.min ex ey) ltac:(lia) ltac:(lia)) as Ay.
    cbn [cond_Zopp] in Ax, Ay.
    rewrite <- Ax, <- Ay in *. rewrite <- Z.mul_add_distr_r in *.
    rewrite <- Pos2Z.inj_add in *. cbn [binary_normalize].
    destruct (binary_round_value false
                (fst (shl_align mx ex (Z.min ex ey)) + fst (shl_align my ey (Z.min ex ey)))
                (Z.min ex ey) ltac:(lia) Hs) as (m3 & e3 & -> & He3 & Err).
    cbn [isNaN units cond_Zopp].
    split; [reflexivity|]. split; [|exact Err].
    assert (0 <= 2 ^ (e3 + 1074)) by (apply Z.pow_nonneg; lia). lia.
Qed.

Lemma binary_round_aux_zero (s : bool) (l : location) :
  binary_round_aux prec emax s 0 (-1074) l = S754_zero s
  \/ binary_round_aux prec emax s 0 (-1074) l = S754_finite s 1 (-1074).
Proof. destruct l as [|[]]; vm_compute; auto. Qed.

(** Division of a moderate number by an integer [k] between 1 and [2^53]:
    [k] times the quotient is within [2^-51] of the dividend, up to [2 k]
    units. *)
Lemma SFdiv_value (x : spec_float) (my : positive) (ey k : Z) :
  valid_binary x = true -> moderate x ->
  2 ^ 52 <= Zpos my < 2 ^ 53 -> -52 <= ey <= 0 -> Zpos my = k * 2 ^ (- ey) ->
  isNaN (SFdiv prec emax x (S754_finite false my ey)) = false
  /\ 0 <= units (SFdiv prec emax x (S754_finite false my ey))
  /\ Z.abs (k * units (SFdiv prec emax x (S754_finite false my ey)) - units x) * 2 ^ 51
     <= units x + k * 2 ^ 52.
Proof.
  intros Vx Mx Hmy Hey Hk.
  assert (C : 0 < 2 ^ (- ey)) by (apply pow2_pos; lia).
  assert (K : 1 <= k).
  { destruct (Z.le_gt_cases k 0) as [N|N]; [|lia].
    pose proof (Z.mul_nonpos_nonneg k (2 ^ (- ey)) N ltac:(lia)).
    rewrite <- Hk in H. pose proof (Pos2Z.is_pos my). lia. }
  destruct (moderate_cases x Vx Mx) as [[sx ->]|(mx & ex & ->)].
  { cbn [SFdiv units isNaN]. rewrite Z.mul_0_r. cbn. lia. }
  pose proof (valid_finite _ _ _ Vx) as (Ex & Dx & _).
  pose proof (digits2_bounds mx) as [Dl Du].
  assert (D2 : Zpos (digits2_pos my) = 53) by (apply digits2_unique; exact Hmy).
  cbn [SFdiv units cond_Zopp xorb] in *.
  unfold SFdiv_core_binary, fexp, emin, Zdigits2. rewrite D2.
  set (d1 := Zpos (digits2_pos mx)) in *.
  set (e' := Z.min (Z.max (d1 + ex - (53 + ey) - prec) (3 - emax - prec)) (ex - ey)).
  assert (E' : e' = Z.max (d1 + ex - ey - 106) (-1074))
    by (unfold e', prec, emax; lia).
  clearbody e'.
  set (m' := match ex - ey - e' with
             | 0 => Zpos mx
             | Zpos _ => Z.shiftl (Zpos mx) (ex - ey - e')
             | Zneg _ => 0
             end).
  assert (M' : m' = Zpos mx * 2 ^ (ex - ey - e')).
  { unfold m'. destruct (ex - ey - e') as [|p|p] eqn:Es.
    - change (2 ^ 0) with 1. lia.
    - apply Z.shiftl_mul_pow2. lia.
    - lia. }
  clearbody m'.
  pose proof (Z_div_mod m' (Zpos my) ltac:(lia)) as Q.
  destruct (Z.div_eucl m' (Zpos my)) as [q r]. destruct Q as [Q Qr].
  set (l := new_location (Zpos my) r). clearbody l.
  set (u1 := Zpos mx * 2 ^ (ex + 1074)) in *.
  assert (U' : 0 < 2 ^ (e' + 1074)) by (apply pow2_pos; lia).
  set (u' := 2 ^ (e' + 1074)) in *.
  assert (S : 0 < 2 ^ (ex - ey - e')) by (apply pow2_pos; lia).
  assert (I : m' * u' = u1 * 2 ^ (- ey)).
  { rewrite M'. unfold u', u1.
    rewrite <- !Z.mul_assoc, <- !Z.pow_add_r by lia. do 2 f_equal. lia. }
  (* the exact quotient lies between [q] and [q + 1] units of [e'] *)
  assert (Lo : k * q * u' <= u1).
  { apply (Z.mul_le_mono_pos_r _ _ (2 ^ (- ey)) C). rewrite <- I. nia. }
  assert (Hi : u1 < k * (q + 1) * u').
  { apply (Z.mul_lt_mono_pos_r (2 ^ (- ey)) _ _ C). rewrite <- I. nia. }
  assert (Nq : e' <> -1074 -> 2 ^ 52 <= q).
  { intros Ne.
    assert (Hd : (d1 - 1) + (ex - ey - e') = 105) by lia.
    assert (L : 2 ^ 105 <= m').
    { rewrite <- Hd, Z.pow_add_r, M' by lia. nia. }
    change (2 ^ 105) with (2 ^ 52 * 2 ^ 53) in L. nia. }
  assert (Q0 : 0 <= q).
  { destruct (Z.le_gt_cases 0 q) as [|N]; [assumption|].
    assert (Zpos my * q <= Zpos my * (-1)) by (apply Z.mul_le_mono_nonneg_l; lia).
    assert (0 < m') by (rewrite M'; apply Z.mul_pos_pos; lia).
    lia. }
  destruct q as [|q|q]; [| |lia].
  - assert (N : e' = -1074).
    { destruct (Z.eq_dec e' (-1074)) as [|N]; [assumption|].
      specialize (Nq N). lia. }
    assert (u' = 1) by (unfold u'; rewrite N; reflexivity).
    rewrite N.
    destruct (binary_round_aux_zero false l) as [-> | ->]; cbn [isNaN units cond_Zopp].
    + split; [reflexivity|]. split; [lia|]. lia.
    + change (1 * 2 ^ (-1074 + 1074)) with 1.
      split; [reflexivity|]. split; [lia|]. lia.
  - destruct (binary_round_aux_value false q e' l ltac:(lia))
      as (m3 & e3 & g & -> & H3 & Hg & Hb & Hr & _ & Hn).
    assert (S3 : Zpos m3 * 2 ^ (e3 + 1074) = Zpos m3 * 2 ^ (e3 - e') * u').
    { unfold u'. replace (e3 + 1074) with ((e3 - e') + (e' + 1074)) by lia.
      rewrite (Z.pow_add_r 2 (e3 - e') (e' + 1074)) by lia. ring. }
    set (R := Zpos m3 * 2 ^ (e3 - e')) in *.
    assert (A : 0 <= k * u') by (apply Z.mul_nonneg_nonneg; lia).
    assert (G : k * u' * g * 2 ^ 52 <= u1 + k * 2 ^ 52).
    { destruct (Z.eq_dec g 1) as [->|G1].
      - destruct (Z.eq_dec e' (-1074)) as [N|N].
        + assert (u' = 1) as -> by (unfold u'; rewrite N; reflexivity). lia.
        + specialize (Nq N).
          pose proof (Z.mul_le_mono_nonneg_l _ _ (k * u') A Nq). lia.
      - specialize (Hr ltac:(lia)).
        pose proof (Z.mul_le_mono_nonneg_l _ _ (k * u') A Hr). lia. }
    assert (Err : Z.abs (k * (R * u') - u1) * 2 ^ 51 <= u1 + k * 2 ^ 52).
    { pose proof (Z.mul_le_mono_nonneg_l _ _ (k * u') A (proj2 Hb)).
      pose proof (Z.mul_le_mono_nonneg_l (Zpos q - g + 1) R (k * u') A ltac:(lia)).
      assert (Z.abs (k * (R * u') - u1) <= k * u' * g) by lia.
      lia. }
    assert (Le : e3 <= 971).
    { destruct Hn as [Hn|[-> _]]; [|lia].
      apply (normal_exponent (Zpos m3)); [lia|exact Hn|].
      rewrite S3. fold R.
      pose proof Mx as (_ & _ & Ux). cbn [units cond_Zopp] in Ux. fold u1 in Ux.
      change (2 ^ 2098) with (2 * 2 ^ 2097).
      assert (B52 : 2 ^ 52 <= 2 ^ 2097) by (clear; apply Z.pow_le_mono_r; lia).
      hide_pow (2 ^ 2097).
      destruct (Z.lt_ge_cases (R * u') (2 * B)) as [|Big]; [assumption|exfalso].
      assert (W : 0 <= R * u' * 2 ^ 51 - 2 ^ 52) by lia.
      pose proof (Z.mul_le_mono_nonneg_r 1 k _ W K). lia. }
    apply Z.leb_le in Le. rewrite Le. cbn [isNaN units cond_Zopp].
    rewrite S3. fold R.
    split; [reflexivity|]. split; [|exact Err].
    apply Z.mul_nonneg_nonneg; [|lia]. apply Z.mul_nonneg_nonneg; [lia|].
    apply Z.pow_nonneg; lia.
Qed.

(** A number of the format rounds to itself. *)
Lemma binary_round_aux_canonical (s : bool) (m : positive) (e : Z) :
  valid_binary (S754_finite s m e) = true ->
  binary_round_aux prec emax s (Zpos m) e loc_Exact = S754_finite s m e.
Proof.
  intros V.
  unfold valid_binary, SpecFloat.valid_binary, bounded, canonical_mantissa in V.
  apply andb_prop in V as [C B]. apply Z.eqb_eq in C.
  assert (S : shr_fexp prec emax (Zpos m) e loc_Exact
              = (shr_record_of_loc (Zpos m) loc_Exact, e)).
  { unfold shr_fexp. cbn [Zdigits2]. rewrite C, Z.sub_diag. reflexivity. }
  unfold binary_round_aux. rewrite S. cbn [shr_record_of_loc shr_m loc_of_shr_record
    round_nearest_even]. rewrite S. cbn [shr_record_of_loc shr_m]. rewrite B. reflexivity.
Qed.

(** An integer between 1 and [2^53] as a double: its mantissa is the integer
    shifted left to 53 bits, so the conversion is exact. *)
Lemma of_Z_shape (k : Z) :
  1 <= k < 2 ^ 53 ->
  exists (my : positive) (ey : Z),
    Prim2SF (of_Z k) = S754_finite false my ey
    /\ 2 ^ 52 <= Zpos my < 2 ^ 53 /\ -52 <= ey <= 0
    /\ Zpos my = k * 2 ^ (- ey).
Proof.
  intros Hk. unfold of_Z. destruct (Z.ltb_spec k 0) as [|_]; [lia|].
  rewrite of_uint63_spec, Uint63.of_Z_spec.
  assert (W : 2 ^ 53 < wB) by reflexivity.
  rewrite Z.mod_small by lia.
  destruct k as [|p|p]; try lia. cbn [binary_normalize]. unfold binary_round.
  pose proof (digits2_bounds p) as [Dl Du].
  set (d := Zpos (digits2_pos p)) in *.
  assert (D : 1 <= d <= 53).
  { split; [unfold d; lia|].
    destruct (Z.le_gt_cases d 53) as [|G]; [assumption|].
    assert (2 ^ 53 <= 2 ^ (d - 1)) by (apply Z.pow_le_mono_r; lia). lia. }
  assert (F : fexp prec emax (d + 0) = d - 53) by (unfold fexp, emin, prec, emax; lia).
  rewrite F.
  pose proof (shl_align_value p 0 (d - 53) ltac:(lia)) as Sv.
  assert (Se : snd (shl_align p 0 (d - 53)) = d - 53).
  { unfold shl_align. destruct (d - 53 - 0) as [|q|q] eqn:E; cbn [snd]; lia. }
  destruct (shl_align p 0 (d - 53)) as [mz ez]. cbn [fst snd] in Sv, Se. subst ez.
  replace (0 - (d - 53)) with (53 - d) in Sv by lia.
  assert (P : 0 < 2 ^ (53 - d)) by (apply pow2_pos; lia).
  assert (E1 : 2 ^ (d - 1) * 2 ^ (53 - d) = 2 ^ 52).
  { rewrite <- Z.pow_add_r by lia. f_equal. lia. }
  assert (E2 : 2 ^ d * 2 ^ (53 - d) = 2 ^ 53).
  { rewrite <- Z.pow_add_r by lia. f_equal. lia. }
  assert (Bm : 2 ^ 52 <= Zpos mz < 2 ^ 53) by nia.
  exists mz, (d - 53).
  split; [|split; [exact Bm|split; [lia|]]].
  - apply binary_round_aux_canonical.
    unfold valid_binary, SpecFloat.valid_binary, bounded, canonical_mantissa.
    rewrite (digits2_unique mz 53 Bm).
    apply andb_true_intro. split; [apply Z.eqb_eq|apply Z.leb_le];
      unfold fexp, emin, prec, emax; lia.
  - rewrite Sv. f_equal. f_equal. lia.
Qed.

Lemma unitsOf_of_Z (k : Z) : 0 <= k < 2 ^ 53 -> unitsOf (of_Z k) = k * 2 ^ 1074.
Proof.
  intros Hk. destruct (Z.eq_dec k 0) as [->|N]; [reflexivity|].
  destruct (of_Z_shape k ltac:(lia)) as (my & ey & E & _ & He & Hm).
  unfold unitsOf. rewrite E. cbn [units cond_Zopp]. rewrite Hm, <- Z.mul_assoc.
  rewrite <- Z.pow_add_r by lia. f_equal. f_equal. lia.
Qed.

Lemma of_Z_moderate (k : Z) : 0 <= k < 2 ^ 53 -> moderate (Prim2SF (of_Z k)).
Proof.
  intros Hk. pose proof (unitsOf_of_Z k Hk) as U. unfold unitsOf in U.
  assert (P : 0 < 2 ^ 1074) by (apply pow2_pos; lia).
  assert (B : (2 : Z) ^ 53 * 2 ^ 1074 < 2 ^ 2097) by reflexivity.
  split; [|rewrite U; nia].
  destruct (Z.eq_dec k 0) as [->|N]; [reflexivity|].
  destruct (of_Z_shape k ltac:(lia)) as (my & ey & -> & _). reflexivity.
Qed.

(** Multiplication of two positive numbers of the format, when the exponents
    do not add up below the smallest one and the product stays below
    [2^1023]: the product is within [2^-52] of the exact one. *)
Lemma SFmul_value (mx my : positive) (ex ey : Z) :
  valid_binary (S754_finite false mx ex) = true ->
  valid_binary (S754_finite false my ey) = true ->
  -1074 <= ex + ey ->
  Zpos mx * Zpos my * 2 ^ (ex + ey + 1074) < 2 ^ 2097 ->
  exists (m3 : positive) (e3 : Z),
    SFmul prec emax (S754_finite false mx ex) (S754_finite false my ey)
    = S754_finite false m3 e3
    /\ -1074 <= e3
    /\ Z.abs (Zpos m3 * 2 ^ (e3 + 1074) - Zpos mx * Zpos my * 2 ^ (ex + ey + 1074)) * 2 ^ 52
       <= Zpos mx * Zpos my * 2 ^ (ex + ey + 1074).
Proof.
  intros Vx Vy He. cbn [SFmul xorb].
  pose proof (valid_finite _ _ _ Vx) as (Ex & Dx & Cx).
  pose proof (valid_finite _ _ _ Vy) as (Ey & Dy & Cy).
  destruct (binary_round_aux_value false (mx * my) (ex + ey) loc_Exact He)
    as (m3 & e3 & g & -> & H3 & Hg & Hb & Hr & Hx & Hn).
  rewrite Pos2Z.inj_mul in *.
  set (m := Zpos mx * Zpos my) in *.
  assert (U : 0 < 2 ^ (ex + ey + 1074)) by (apply pow2_pos; lia).
  assert (S3 : Zpos m3 * 2 ^ (e3 + 1074)
               = Zpos m3 * 2 ^ (e3 - (ex + ey)) * 2 ^ (ex + ey + 1074)).
  { replace (e3 + 1074) with ((e3 - (ex + ey)) + (ex + ey + 1074)) by lia.
    rewrite (Z.pow_add_r 2 (e3 - (ex + ey)) (ex + ey + 1074)) by lia. ring. }
  set (R := Zpos m3 * 2 ^ (e3 - (ex + ey))) in *.
  set (u := 2 ^ (ex + ey + 1074)) in *.
  assert (M : 0 < m) by (unfold m; lia).
  pose proof (brv_err R u m g U M Hg Hb Hr (fun G => Hx G eq_refl)) as Err.
  assert (Le0 : e3 = ex + ey -> Zpos mx * Zpos my < 2 ^ 53 -> e3 <= 971).
  { intros -> Hm. fold m in Hm.
    destruct Cx as [->|Cx]; [lia|]. destruct Cy as [->|Cy]; [lia|].
    pose proof (digits2_bounds mx) as [Bx _]. pose proof (digits2_bounds my) as [By_ _].
    rewrite Cx in Bx. rewrite Cy in By_.
    change (2 ^ (53 - 1)) with (2 ^ 52) in *.
    assert (2 ^ 52 * 2 ^ 52 <= m) by (unfold m; nia).
    assert ((2 : Z) ^ 53 < 2 ^ 52 * 2 ^ 52) by reflexivity. lia. }
  intros Hv.
  assert (Le : e3 <= 971).
  { destruct Hn as [Hn|[E Hm]]; [|exact (Le0 E Hm)].
    apply (normal_exponent (Zpos m3)); [clear Hv; lia|exact Hn|].
    rewrite S3. exact (brv_big R u m Hv Err). }
  clear Hv.
  apply Z.leb_le in Le. rewrite Le.
  exists m3, e3. rewrite S3. split; [reflexivity|]. split; [lia|exact Err].
Qed.

(** *** Operations on doubles *)

Lemma nonNegative_units (x : float) :
  nonNegative x = true -> isNaN (Prim2SF x) = false /\ 0 <= unitsOf x.
Proof.
  unfold nonNegative. intros H. apply andb_prop in H as [N L].
  apply Bool.negb_true_iff in N, L.
  rewrite (float_ltb_units x 0 N eq_refl) in L.
  rewrite is_nan_spec in N. split; [exact N|].
  apply Z.ltb_ge in L. exact L.
Qed.

Lemma float_add_value (a b : float) :
  moderate (Prim2SF a) -> moderate (Prim2SF b) ->
  unitsOf a + unitsOf b < 2 ^ 2097 ->
  isNaN (Prim2SF (a + b)) = false
  /\ 0 <= unitsOf (a + b)
  /\ Z.abs (unitsOf (a + b) - (unitsOf a + unitsOf b)) * 2 ^ 52 <= unitsOf a + unitsOf b.
Proof.
  intros Ma Mb Hs. unfold unitsOf. rewrite FloatAxioms.add_spec.
  apply SFadd_value; auto using Prim2SF_valid.
Qed.

(** Division by an integer between 1 and [2^53]. *)
Lemma float_div_value (a : float) (k : Z) :
  1 <= k < 2 ^ 53 -> moderate (Prim2SF a) ->
  isNaN (Prim2SF (a / of_Z k)) = false
  /\ 0 <= unitsOf (a / of_Z k)
  /\ Z.abs (k * unitsOf (a / of_Z k) - unitsOf a) * 2 ^ 51 <= unitsOf a + k * 2 ^ 52.
Proof.
  intros Hk Ma. unfold unitsOf. rewrite FloatAxioms.div_spec.
  destruct (of_Z_shape k Hk) as (my & ey & -> & Hm & He & Hy).
  apply SFdiv_value; auto using Prim2SF_valid.
Qed.

Lemma nonNegative_intro (x : float) :
  isNaN (Prim2SF x) = false -> 0 <= unitsOf x -> nonNegative x = true.
Proof.
  intros N P. unfold nonNegative. rewrite <- is_nan_spec in N.
  rewrite (float_ltb_units x 0 N eq_refl), N.
  apply andb_true_intro. split; [reflexivity|].
  apply Bool.negb_true_iff, Z.ltb_ge. exact P.
Qed.

Lemma float_leb_units (a b : float) :
  PrimFloat.is_nan a = false -> PrimFloat.is_nan b = false ->
  (a <=? b)%float = (unitsOf a <=? unitsOf b).
Proof.
  intros Na Nb. rewrite is_nan_spec in Na, Nb.
  rewrite FloatAxioms.leb_spec. unfold SFleb, unitsOf.
  rewrite SFcompare_units by auto using Prim2SF_valid.
  unfold Z.leb. destruct (units (Prim2SF a) ?= units (Prim2SF b)); reflexivity.
Qed.


(** An integer between 1 and [2^53] times a double that is at least
    [2^-50]: the product is within [2^-52] of the exact one. *)
Lemma float_mul_value (k : Z) (b : float) :
  1 <= k < 2 ^ 53 -> moderate (Prim2SF b) -> 2 ^ 1024 <= unitsOf b ->
  k * unitsOf b < 2 ^ 2097 ->
  isNaN (Prim2SF (of_Z k * b)) = false
  /\ Z.abs (unitsOf (of_Z k * b) - k * unitsOf b) * 2 ^ 52 <= k * unitsOf b.
Proof.
  intros Hk Mb Lb Hv. unfold unitsOf in *. rewrite FloatAxioms.mul_spec.
  pose proof (Prim2SF_valid (of_Z k)) as Vk. pose proof (Prim2SF_valid b) as Vb.
  destruct (of_Z_shape k Hk) as (mx & ex & Ek & Hm & He & Hx). rewrite Ek in *.
  assert (P : 0 < 2 ^ 1024) by (apply pow2_pos; lia).
  destruct (moderate_cases _ Vb Mb) as [[s Eb]|(my & ey & Eb)]; rewrite Eb in *;
    cbn [units cond_Zopp] in *; [lia|].
  pose proof (valid_finite _ _ _ Vb) as (Ey & Dy & _).
  pose proof (digits2_bounds my) as [_ Du].
  assert (H53 : 2 ^ Zpos (digits2_pos my) <= 2 ^ 53) by (apply Z.pow_le_mono_r; lia).
  assert (Ly : -102 <= ey).
  { assert (Q : 0 < 2 ^ (ey + 1074)) by (apply pow2_pos; lia).
    assert (L : 2 ^ 1024 < 2 ^ (53 + (ey + 1074))).
    { rewrite Z.pow_add_r by lia. nia. }
    apply pow2_lt_inv in L; lia. }
  assert (I : Zpos mx * Zpos my * 2 ^ (ex + ey + 1074) = k * (Zpos my * 2 ^ (ey + 1074))).
  { rewrite Hx.
    replace (2 ^ (ey + 1074)) with (2 ^ (- ex) * 2 ^ (ex + ey + 1074))
      by (rewrite <- Z.pow_add_r by lia; f_equal; lia).
    ring. }
  destruct (SFmul_value mx my ex ey Vk Vb ltac:(lia)) as (m3 & e3 & E3 & H3 & Err).
  { rewrite I. exact Hv. }
  unfold SF64mul. rewrite E3. cbn [isNaN units cond_Zopp].
  rewrite I in Err. split; [reflexivity|exact Err].
Qed.

(** [Math.max] of two numbers is the one of larger value. *)
Lemma Math_max_units (a b : float) :
  PrimFloat.is_nan a = false -> PrimFloat.is_nan b = false ->
  PrimFloat.is_nan (Math_max a b) = false
  /\ unitsOf (Math_max a b) = Z.max (unitsOf a) (unitsOf b)
  /\ (Math_max a b = a \/ Math_max a b = b).
Proof.
  intros Na Nb. unfold Math_max. rewrite Na, Nb. cbn [orb].
  rewrite (float_ltb_units a b Na Nb), (float_ltb_units b a Nb Na).
  fold (unitsOf a) (unitsOf b).
  destruct (Z.ltb_spec (unitsOf a) (unitsOf b)); [split; [exact Nb|split; [lia|auto]]|].
  destruct (Z.ltb_spec (unitsOf b) (unitsOf a)); [split; [exact Na|split; [lia|auto]]|].
  destruct (PrimFloat.get_sign a); [split; [exact Nb|split; [lia|auto]]|
                                    split; [exact Na|split; [lia|auto]]].
Qed.

(** NaN is contagious. *)
Lemma is_nan_add (a b : float) :
  PrimFloat.is_nan a = true \/ PrimFloat.is_nan b = true -> PrimFloat.is_nan (a + b) = true.
Proof.
  rewrite !is_nan_spec, FloatAxioms.add_spec. unfold SF64add.
  destruct (Prim2SF a) as [sa|sa| |sa ma ea], (Prim2SF b) as [sb|sb| |sb mb eb];
    cbn [isNaN SFadd]; intros [H|H]; try discriminate; reflexivity.
Qed.

Lemma is_nan_div (a b : float) :
  PrimFloat.is_nan a = true -> PrimFloat.is_nan (a / b) = true.
Proof.
  rewrite !is_nan_spec, FloatAxioms.div_spec. unfold SF64div.
  destruct (Prim2SF a) as [sa|sa| |sa ma ea]; cbn [isNaN]; try discriminate.
  intros _. reflexivity.
Qed.

Lemma eqb_nan (a b : float) : PrimFloat.is_nan b = true -> (a =? b)%float = false.
Proof.
  rewrite is_nan_spec, FloatAxioms.eqb_spec. unfold SFeqb.
  destruct (Prim2SF b); cbn [isNaN]; try discriminate.
  intros _. destruct (Prim2SF a); reflexivity.
Qed.

Lemma float_eqb_units (a b : float) :
  PrimFloat.is_nan a = false -> PrimFloat.is_nan b = false ->
  (a =? b)%float = (unitsOf a =? unitsOf b).
Proof.
  intros Na Nb. rewrite is_nan_spec in Na, Nb.
  rewrite FloatAxioms.eqb_spec. unfold SFeqb, unitsOf.
  rewrite SFcompare_units by auto using Prim2SF_valid.
  destruct (Z.compare_spec (units (Prim2SF a)) (units (Prim2SF b))) as [E|E|E];
    symmetry; [apply Z.eqb_eq|apply Z.eqb_neq|apply Z.eqb_neq]; lia.
Qed.

(** The quotient [of_Z s / of_Z m] of two integers below [2^53], [m]
    positive, against the exact quotient [s / m]. *)
Lemma quotient_value (s m : Z) :
  0 <= s < 2 ^ 53 -> 1 <= m < 2 ^ 53 ->
  Z.abs (m * unitsOf (of_Z s / of_Z m) - s * 2 ^ 1074) * 2 ^ 51
  <= s * 2 ^ 1074 + m * 2 ^ 52.
Proof.
  intros Hs Hm.
  destruct (float_div_value (of_Z s) m Hm (of_Z_moderate s Hs)) as (_ & _ & E).
  rewrite (unitsOf_of_Z s Hs) in E. exact E.
Qed.

Lemma getCenterOfMass_quotients (data : list Z) (w h : Z) (p : Point) :
  getCenterOfMass data w h = Some p -> 0 <= w -> 0 <= h ->
  let m := momentsAll data w h in
  0 < mass m /\ 0 <= sumX m /\ 0 <= sumY m
  /\ p = {| pt_x := of_Z (sumX m) / of_Z (mass m);
            pt_y := of_Z (sumY m) / of_Z (mass m) |}%float.
Proof.
  intros E Hw Hh m. subst m.
  assert (N : mass (momentsAll data w h) <> 0
              /\ 0 <= mass (momentsAll data w h)
              /\ 0 <= sumX (momentsAll data w h) /\ 0 <= sumY (momentsAll data w h)).
  { rewrite momentsAll_sums. cbn [sumX sumY mass].
    pose proof (totalMass_lower data w h _ (fun _ H => H)) as L.
    destruct (moments_in_range (inkSamples data w h) 0 w 0 h) as [Mx My].
    { intros x y v Hin. apply elem_of_inkSamples in Hin as ([Hx Hy] & _ & Hv). lia. }
    assert (totalMass (inkSamples data w h) <> 0).
    { intros Z0. unfold getCenterOfMass in E. rewrite momentsAll_sums in E.
      cbn [mass] in E. rewrite Z0 in E. discriminate. }
    lia. }
  unfold getCenterOfMass in E.
  destruct (Z.eqb_spec (mass (momentsAll data w h)) 0) as [|_]; [lia|].
  injection E as <-. repeat split; lia.
Qed.

(** The coordinates [getCenterOfMass] returns are the exact quotients
    [sumX / mass] and [sumY / mass] up to a relative error of [2^-51] (and
    two units of 2^-1074), as long as the three sums stay below [2^53]. *)
Lemma getCenterOfMass_accuracy (data : list Z) (w h : Z) (p : Point) :
  getCenterOfMass data w h = Some p ->
  let m := momentsAll data w h in
  0 <= w -> 0 <= h ->
  sumX m < 2 ^ 53 -> sumY m < 2 ^ 53 -> mass m < 2 ^ 53 ->
  Z.abs (mass m * unitsOf (pt_x p) - sumX m * 2 ^ 1074) * 2 ^ 51
  <= sumX m * 2 ^ 1074 + mass m * 2 ^ 52
  /\ Z.abs (mass m * unitsOf (pt_y p) - sumY m * 2 ^ 1074) * 2 ^ 51
     <= sumY m * 2 ^ 1074 + mass m * 2 ^ 52.
Proof.
  intros E m Hw Hh Bx By_ Bm. subst m.
  destruct (getCenterOfMass_quotients data w h p E Hw Hh) as (M & Sx & Sy & ->).
  cbn [pt_x pt_y]. split; apply quotient_value; lia.
Qed.

Lemma getCenterOfMass_accuracy_witness :
  Z.abs (300 * unitsOf (of_Z 500 / of_Z 300) - 500 * 2 ^ 1074) * 2 ^ 51
  <= 500 * 2 ^ 1074 + 300 * 2 ^ 52
  /\ Z.abs (300 * unitsOf (of_Z 200 / of_Z 300) - 200 * 2 ^ 1074) * 2 ^ 51
     <= 200 * 2 ^ 1074 + 300 * 2 ^ 52.
Proof.
  apply (getCenterOfMass_accuracy twoDots 3 2
           {| pt_x := of_Z 500 / of_Z 300; pt_y := of_Z 200 / of_Z 300 |}%float);
    [reflexivity|lia|lia|reflexivity|reflexivity|reflexivity].
Defined.

(** Ink that is symmetric about a point has its centre of mass there. If
    every ink sample at [(x, y)] has a mirror sample of the same intensity
    at [(a - x, b - y)], then [sumX / mass = a / 2] and [sumY / mass = b / 2]
    exactly, and the point [getCenterOfMass] returns in binary64 is within
    1e-6 of [(a / 2, b / 2)], for [a, b <= 2^30] and sums below [2^53]. *)
Lemma symmetric_ink_centre (data : list Z) (w h a b : Z) :
  (forall x y v, inRaster w h x y -> channel0 data w x y = Some v -> 50 < v ->
     inRaster w h (a - x) (b - y) /\ channel0 data w (a - x) (b - y) = Some v) ->
  let m := momentsAll data w h in
  2 * sumX m = a * mass m /\ 2 * sumY m = b * mass m
  /\ forall p, getCenterOfMass data w h = Some p ->
       0 <= w -> 0 <= h -> a <= 2 ^ 30 -> b <= 2 ^ 30 ->
       sumX m < 2 ^ 53 -> sumY m < 2 ^ 53 -> mass m < 2 ^ 53 ->
       Z.abs (2 * unitsOf (pt_x p) - a * 2 ^ 1074) * 10 ^ 6 <= 2 * 2 ^ 1074
       /\ Z.abs (2 * unitsOf (pt_y p) - b * 2 ^ 1074) * 10 ^ 6 <= 2 * 2 ^ 1074.
Proof.
  intros Hsym m. subst m.
  destruct (symmetric_ink_sums data w h a b Hsym) as [Sx Sy].
  split; [exact Sx|]. split; [exact Sy|].
  intros p E Hw Hh Ha Hb Bx By_ Bm.
  destruct (getCenterOfMass_quotients data w h p E Hw Hh) as (M & Px & Py & ->).
  cbn [pt_x pt_y].
  pose proof (quotient_value (sumX (momentsAll data w h)) (mass (momentsAll data w h))
                ltac:(lia) ltac:(lia)) as Ax.
  pose proof (quotient_value (sumY (momentsAll data w h)) (mass (momentsAll data w h))
                ltac:(lia) ltac:(lia)) as Ay.
  set (m := mass (momentsAll data w h)) in *.
  assert (U : 2 ^ 60 <= 2 ^ 1074) by (clear; apply Z.pow_le_mono_r; lia).
  set (u := 2 ^ 1074) in *. clearbody u.
  assert (K : forall s c X, 2 * s = c * m -> c <= 2 ^ 30 ->
            Z.abs (m * X - s * u) * 2 ^ 51 <= s * u + m * 2 ^ 52 ->
            Z.abs (2 * X - c * u) * 10 ^ 6 <= 2 * u).
  { intros s c X Hs Hc Hx.
    assert (Hx2 : Z.abs (m * (2 * X - c * u)) * 2 ^ 51 <= m * (c * u + 2 ^ 53)).
    { replace (m * (2 * X - c * u)) with (2 * (m * X - s * u)) by nia.
      rewrite Z.abs_mul. change (Z.abs 2) with 2. change (2 ^ 53) with (2 * 2 ^ 52). nia. }
    rewrite Z.abs_mul, (Z.abs_eq m), <- Z.mul_assoc in Hx2 by lia.
    apply Z.mul_le_mono_pos_l in Hx2; [|exact M].
    assert (c * u <= 2 ^ 30 * u) by (apply Z.mul_le_mono_nonneg_r; lia).
    change (2 ^ 51) with (2 ^ 21 * 2 ^ 30) in Hx2.
    change (2 ^ 60) with (2 ^ 30 * 2 ^ 30) in U.
    lia. }
  split; [exact (K _ _ _ Sx Ha Ax)|exact (K _ _ _ Sy Hb Ay)].
Qed.

Lemma symmetric_ink_centre_witness :
  2 * sumX (momentsAll [60; 0; 0; 255; 60; 0; 0; 255] 2 1)
  = 1 * mass (momentsAll [60; 0; 0; 255; 60; 0; 0; 255] 2 1)
  /\ Z.abs (2 * unitsOf (of_Z 60 / of_Z 120) - 1 * 2 ^ 1074) * 10 ^ 6 <= 2 * 2 ^ 1074.
Proof.
  destruct (symmetric_ink_centre [60; 0; 0; 255; 60; 0; 0; 255] 2 1 1 0) as (Sx & _ & C).
  - intros x y v [Hx Hy].
    assert (y = 0) as -> by lia.
    assert (x = 0 \/ x = 1) as [-> | ->] by lia; intros [= <-] _;
      (split; [unfold inRaster; lia|reflexivity]).
  - split; [exact Sx|].
    refine (proj1 (C {| pt_x := of_Z 60 / of_Z 120; pt_y := of_Z 0 / of_Z 120 |}%float
                     eq_refl _ _ _ _ eq_refl eq_refl eq_refl)); lia.
Defined.

(** ** The canonical frame *)

Lemma boost_profile_checked : allFrom 256 0 boostProfileOk = true.
Proof. vm_compute. reflexivity. Qed.

(** The contrast boost on bytes: black stays 0, the value grows with the
    byte, strictly up to byte 197, and every byte from 197 on is clipped to
    exactly 1. A missing sample would give NaN. *)
Lemma boost_profile :
  (boost (Some 0%Z) =? 0)%float = true
  /\ PrimFloat.is_nan (boost None) = true
  /\ forall v, 0 <= v <= 255 ->
       (boost (Some v) =? 1)%float = (197 <=? v)
       /\ forall v', v < v' <= 255 ->
            (boost (Some v) <=? boost (Some v'))%float = true
            /\ (v' <= 197 -> (boost (Some v) <? boost (Some v'))%float = true).
Proof.
  split; [vm_compute; reflexivity|]. split; [vm_compute; reflexivity|].
  intros v Hv.
  pose proof (allFrom_spec 256 0 boostProfileOk boost_profile_checked v ltac:(lia)) as C.
  unfold boostProfileOk in C. apply andb_prop in C as [C1 C2].
  split; [apply Bool.eqb_prop, C1|].
  intros v' Hv'.
  pose proof (allFrom_spec 256 0 (boostPairOk v) C2 v' ltac:(lia)) as P.
  unfold boostPairOk in P.
  destruct (Z.ltb_spec v v') as [_|]; [|lia]. cbn [implb] in P.
  apply andb_prop in P as [P1 P2]. split; [exact P1|].
  intros H197. destruct (Z.leb_spec v' 197) as [_|]; [|lia]. exact P2.
Qed.

Lemma unitsOf_20 : unitsOf (of_Z 20) = 20 * 2 ^ 1074.
Proof. apply unitsOf_of_Z. split; [lia|reflexivity]. Qed.

(** [scale = 20 / m] and [k * scale], for integers [1 <= k <= m < 2^53]. *)
Lemma envelope_side (m k : Z) :
  1 <= k <= m -> m < 2 ^ 53 ->
  let s := (of_Z 20 / of_Z m)%float in
  PrimFloat.is_nan (of_Z k * s) = false
  /\ 0 < unitsOf (of_Z k * s) <= 20 * 2 ^ 1074 + 2 ^ 1029
  /\ (k = m -> 20 * 2 ^ 1074 - 2 ^ 1029 <= unitsOf (of_Z k * s)).
Proof.
  intros Hk Hm s.
  destruct (float_div_value (of_Z 20) m ltac:(lia)) as (Ns & Ps & Es).
  { apply of_Z_moderate. split; [lia|reflexivity]. }
  fold s in Ns, Ps, Es. rewrite unitsOf_20 in Es.
  set (S := unitsOf s) in *.
  assert (U : (2 : Z) ^ 1074 = 2 ^ 1029 * 2 ^ 45) by reflexivity.
  assert (U1 : 0 < 2 ^ 1029) by (clear; apply pow2_pos; lia).
  assert (T : 2 ^ 1024 * 32 = 2 ^ 1029) by reflexivity.
  assert (T1 : (2 : Z) ^ 2097 = 2 ^ 1029 * 2 ^ 1068) by reflexivity.
  assert (T2 : (2 : Z) ^ 1068 = 2 ^ 53 * 2 ^ 1015) by reflexivity.
  assert (P53 : (2 : Z) ^ 53 = 2 ^ 51 * 4) by reflexivity.
  assert (P52 : (2 : Z) ^ 52 = 2 ^ 51 * 2) by reflexivity.
  assert (P45 : (2 : Z) ^ 51 = 2 ^ 45 * 64) by reflexivity.
  assert (Q45 : 0 < 2 ^ 45) by (clear; apply pow2_pos; lia).
  assert (Q1015 : 1 <= 2 ^ 1015) by (clear; apply (Z.pow_le_mono_r 2 0 1015); lia).
  assert (T0 : 2 ^ 60 <= 2 ^ 1024) by (clear; apply Z.pow_le_mono_r; lia).
  assert (MS : m * S <= 21 * 2 ^ 1074 /\ 19 * 2 ^ 1074 <= m * S) by (hide_pows; lia).
  assert (KS : k * S <= m * S) by (apply Z.mul_le_mono_nonneg_r; hide_pows; lia).
  assert (SK : S <= k * S) by (hide_pows; nia).
  assert (LS : 2 ^ 1024 <= S).
  { assert (m * S <= 2 ^ 53 * S) by (apply Z.mul_le_mono_nonneg_r; hide_pows; lia).
    hide_pows. lia. }
  assert (KU : k * S < 2 ^ 2097) by (hide_pows; nia).
  assert (SU : S < 2 ^ 2097) by (hide_pows; lia).
  destruct (float_mul_value k s ltac:(clear - Hk Hm; lia)) as (Nm & Em).
  { split; [exact Ns|]. fold (unitsOf s) S. split; [exact Ps|exact SU]. }
  { exact LS. }
  { exact KU. }
  fold S in Em. set (R := unitsOf (of_Z k * s)) in *.
  split; [rewrite is_nan_spec; exact Nm|].
  split; [split|].
  - rewrite P52, P45 in Em. hide_pows. nia.
  - rewrite P52, P45 in Em, Es. hide_pows. lia.
  - intros ->. rewrite P52, P45 in Em, Es. hide_pows. lia.
Qed.

(** For a box of any size (sides below [2^53], so on a hidden canvas of any
    resolution), in binary64: both scaled sides are positive and at most
    [20 + 2^-45], so the scaled image is never empty and fits the
    28-pixel frame, and the longer one is within [2^-45] of 20. *)
Lemma envelope_any_size (b : BBox) :
  1 <= bbox_w b < 2 ^ 53 -> 1 <= bbox_h b < 2 ^ 53 ->
  (0 <? sw b)%float = true /\ (sw b <=? 20 + 0x1p-45)%float = true
  /\ (0 <? sh b)%float = true /\ (sh b <=? 20 + 0x1p-45)%float = true
  /\ about20 (Math_max (sw b) (sh b)) = true.
Proof.
  intros Hw Hh. unfold sw, sh, scale. cbn [num_mul num_div num_of_Z float_Number].
  set (m := Z.max (bbox_w b) (bbox_h b)).
  destruct (envelope_side m (bbox_w b) ltac:(lia) ltac:(lia)) as (Nw & Bw & Lw).
  destruct (envelope_side m (bbox_h b) ltac:(lia) ltac:(lia)) as (Nh & Bh & Lh).
  cbv zeta in *.
  set (x := (of_Z (bbox_w b) * (of_Z 20 / of_Z m))%float) in *.
  set (y := (of_Z (bbox_h b) * (of_Z 20 / of_Z m))%float) in *.
  destruct (Math_max_units x y Nw Nh) as (Nm & Um & _).
  assert (C0 : unitsOf 0 = 0) by reflexivity.
  assert (Chi : unitsOf (20 + 0x1p-45) = 20 * 2 ^ 1074 + 2 ^ 1029) by (vm_compute; reflexivity).
  assert (Clo : unitsOf (20 - 0x1p-45) = 20 * 2 ^ 1074 - 2 ^ 1029) by (vm_compute; reflexivity).
  unfold about20.
  rewrite !float_ltb_units, !float_leb_units by (assumption || reflexivity).
  fold (unitsOf 0) (unitsOf x) (unitsOf y). rewrite C0, Chi, Clo, Um.
  assert (L : 20 * 2 ^ 1074 - 2 ^ 1029 <= Z.max (unitsOf x) (unitsOf y)).
  { destruct (Z.max_spec (bbox_w b) (bbox_h b)) as [[_ E]|[_ E]]; fold m in E.
    - specialize (Lh (eq_sym E)). hide_pows. lia.
    - specialize (Lw (eq_sym E)). hide_pows. lia. }
  repeat split; try (apply Z.ltb_lt; hide_pows; lia); try (apply Z.leb_le; hide_pows; lia).
  apply andb_true_intro. split; apply Z.leb_le; hide_pows; lia.
Qed.

Lemma envelope_any_size_witness :
  about20 (Math_max (sw {| minX := 0; minY := 0; bbox_w := 1920; bbox_h := 1080 |})
                    (sh {| minX := 0; minY := 0; bbox_w := 1920; bbox_h := 1080 |})) = true.
Proof.
  apply (envelope_any_size {| minX := 0; minY := 0; bbox_w := 1920; bbox_h := 1080 |});
    cbn [bbox_w bbox_h]; split; (lia || reflexivity).
Defined.

(** *** Binary64: the rounding error of the average *)

Lemma exactSum_snoc (l : list float) (p : float) :
  exactSum (l ++ [p]) = exactSum l + unitsOf p.
Proof.
  unfold exactSum. rewrite fmap_app, sumZ_app.
  cbn [fmap list_fmap sumZ foldr]. lia.
Qed.

Lemma exactSum_cons (p : float) (l : list float) :
  exactSum (p :: l) = unitsOf p + exactSum l.
Proof. reflexivity. Qed.

Lemma exactSum_nonneg (l : list float) :
  Forall (fun p => nonNegative p = true) l -> 0 <= exactSum l.
Proof.
  induction 1 as [|p l Hp _ IH]; [cbn; lia|].
  apply nonNegative_units in Hp as [_ Hp].
  change (exactSum (p :: l)) with (unitsOf p + exactSum l). lia.
Qed.

Lemma exactSum_elem (l : list float) (p : float) :
  Forall (fun p => nonNegative p = true) l -> p ∈ l -> unitsOf p <= exactSum l.
Proof.
  induction 1 as [|a l Ha Hl IH]; intros Hp; [inversion Hp|].
  pose proof (exactSum_nonneg l Hl).
  apply nonNegative_units in Ha as [_ Ha]. rewrite exactSum_cons.
  apply elem_of_cons in Hp as [->|Hp]; [lia|]. specialize (IH Hp). lia.
Qed.

Lemma exactSum_upper (l : list float) (m : Z) :
  (forall q, q ∈ l -> unitsOf q <= m) -> exactSum l <= Z.of_nat (length l) * m.
Proof.
  induction l as [|a l IH]; intros Hl; [cbn; lia|].
  rewrite exactSum_cons. cbn [length]. rewrite Nat2Z.inj_succ.
  pose proof (Hl a ltac:(left)).
  assert (exactSum l <= Z.of_nat (length l) * m)
    by (apply IH; intros q Hq; apply Hl; right; exact Hq).
  lia.
Qed.

(** Adding up at most [2^50] doubles that are not negative, from the left:
    the relative error is at most [2^-50] per addition. *)
Lemma foldl_add_value (l : list float) (a : float) :
  nonNegative a = true -> Forall (fun p => nonNegative p = true) l ->
  Z.of_nat (length l) <= 2 ^ 50 ->
  unitsOf a + exactSum l <= 2 ^ 2095 ->
  isNaN (Prim2SF (foldl PrimFloat.add a l)) = false
  /\ 0 <= unitsOf (foldl PrimFloat.add a l)
  /\ Z.abs (unitsOf (foldl PrimFloat.add a l) - (unitsOf a + exactSum l)) * 2 ^ 50
     <= Z.of_nat (length l) * (unitsOf a + exactSum l).
Proof.
  intros Ha. induction l as [|p l IH] using rev_ind; intros Hl Hlen Hsum.
  - apply nonNegative_units in Ha as [Na Pa].
    cbn [foldl length]. unfold exactSum. cbn [fmap list_fmap sumZ foldr].
    rewrite Z.add_0_r, Z.sub_diag. change (Z.of_nat 0) with 0.
    split; [exact Na|]. split; [exact Pa|]. (hide_pows; lia).
  - apply Forall_app in Hl as [Hl Hp]. apply Forall_inv in Hp.
    pose proof (exactSum_nonneg l Hl) as Pl.
    pose proof (nonNegative_units a Ha) as [_ Pa].
    apply nonNegative_units in Hp as [Np Pp].
    rewrite length_app, Nat2Z.inj_add in *. cbn [length] in *.
    rewrite exactSum_snoc in *.
    destruct (IH Hl ltac:((hide_pows; lia)) ltac:((hide_pows; lia))) as (Nr & Pr & Er).
    rewrite foldl_app. cbn [foldl].
    set (r := foldl PrimFloat.add a l) in *.
    set (S' := unitsOf r) in *. set (T' := unitsOf a + exactSum l) in *.
    set (k := Z.of_nat (length l)) in *.
    assert (K : 0 <= k) by (unfold k; (hide_pows; lia)).
    pose proof (Z.mul_le_mono_nonneg_r k (2 ^ 50) T' ltac:((hide_pows; lia)) ltac:((hide_pows; lia))) as KT.
    assert (B : S' <= 2 * T') by (hide_pows; lia).
    assert (C : (2 ^ 2095 : Z) * 4 = 2 ^ 2097) by reflexivity.
    assert (C0 : 0 < 2 ^ 2095) by (clear; apply pow2_pos; lia).
    destruct (float_add_value r p) as (N & P & E).
    { split; [exact Nr|]. fold (unitsOf r). fold S'. (hide_pows; lia). }
    { split; [exact Np|]. fold (unitsOf p). (hide_pows; lia). }
    { fold S'. (hide_pows; lia). }
    fold S' in E.
    split; [exact N|]. split; [exact P|].
    pose proof (Z.mul_nonneg_nonneg k T' K ltac:((hide_pows; lia))).
    pose proof (Z.mul_nonneg_nonneg k (unitsOf p) K Pp).
    change (2 ^ 52) with (4 * 2 ^ 50) in E.
    replace (unitsOf a + (exactSum l + unitsOf p)) with (T' + unitsOf p) by (unfold T'; (hide_pows; lia)).
    (hide_pows; lia).
Qed.

Lemma columnSum_columnOf {T : Type} `{Number T} (probs : list T) (n j : nat) :
  columnSum probs n j = sumList (columnOf probs n j).
Proof. unfold columnSum, sumList, columnOf. symmetry. apply foldl_fmap. Qed.

Lemma columnOf_S {T : Type} `{Number T} (probs : list T) (n j : nat) :
  columnOf probs (S n) j = columnOf probs n j ++ [probAt probs (n * 10 + j)].
Proof. unfold columnOf. rewrite seq_S, fmap_app. reflexivity. Qed.

(** The mean of a column of at most five doubles that are not negative:
    [n] times the mean is the exact column sum up to [2^-47] of it. *)
Lemma columnMean_value (probs : list float) (n j : nat) :
  (1 <= n <= 5)%nat ->
  Forall (fun p => nonNegative p = true) (columnOf probs n j) ->
  exactSum (columnOf probs n j) <= 2 ^ 2095 ->
  nonNegative (columnMean probs n j) = true
  /\ Z.abs (Z.of_nat n * unitsOf (columnMean probs n j) - exactSum (columnOf probs n j))
     * 2 ^ 47
     <= exactSum (columnOf probs n j) + Z.of_nat n * 2 ^ 48.
Proof.
  intros Hn Hc Hs. unfold columnMean. rewrite columnSum_columnOf.
  pose proof (exactSum_nonneg _ Hc) as Pc.
  assert (Ln : length (columnOf probs n j) = n)
    by (unfold columnOf; rewrite length_fmap, length_seq; reflexivity).
  destruct (foldl_add_value (columnOf probs n j) (of_Z 0) eq_refl Hc) as (Ns & Ps & Es).
  { rewrite Ln. assert (5 < 2 ^ 50) by reflexivity. (hide_pows; lia). }
  { change (unitsOf (of_Z 0)) with 0. (hide_pows; lia). }
  change (unitsOf (of_Z 0)) with 0 in Es. rewrite Z.add_0_l, Ln in Es.
  change (foldl PrimFloat.add (of_Z 0) (columnOf probs n j))
    with (sumList (columnOf probs n j)) in *.
  cbn [num_div num_of_Z float_Number].
  set (C := sumList (columnOf probs n j)) in *.
  set (E := exactSum (columnOf probs n j)) in *.
  assert (B : unitsOf C <= 2 * E).
  { assert (Z.of_nat n * E <= 5 * E) by (apply Z.mul_le_mono_nonneg_r; (hide_pows; lia)).
    assert (5 < 2 ^ 50) by reflexivity. (hide_pows; lia). }
  assert (C4 : (2 ^ 2095 : Z) * 4 = 2 ^ 2097) by reflexivity.
  assert (C0 : 0 < 2 ^ 2095) by (clear; apply pow2_pos; lia).
  destruct (float_div_value C (Z.of_nat n)) as (Na & Pa & Ea).
  { assert (5 < 2 ^ 53) by reflexivity. (hide_pows; lia). }
  { split; [exact Ns|]. fold (unitsOf C). (hide_pows; lia). }
  split; [apply nonNegative_intro; assumption|].
  set (A := unitsOf (C / of_Z (Z.of_nat n))) in *.
  change (2 ^ 50) with (8 * 2 ^ 47) in Es.
  change (2 ^ 51) with (16 * 2 ^ 47) in Ea.
  change (2 ^ 52) with (16 * 2 ^ 48) in Ea.
  assert (Z.of_nat n * E <= 5 * E) by (apply Z.mul_le_mono_nonneg_r; (hide_pows; lia)).
  (hide_pows; lia).
Qed.

(** The same over a list of columns. *)
Lemma columnMeans_value (probs : list float) (n : nat) (js : list nat) :
  (1 <= n <= 5)%nat ->
  (forall j, j ∈ js -> Forall (fun p => nonNegative p = true) (columnOf probs n j)) ->
  sumZ ((fun j => exactSum (columnOf probs n j)) <$> js) <= 2 ^ 2095 ->
  Forall (fun p => nonNegative p = true) (columnMean probs n <$> js)
  /\ Z.abs (Z.of_nat n * exactSum (columnMean probs n <$> js)
            - sumZ ((fun j => exactSum (columnOf probs n j)) <$> js)) * 2 ^ 47
     <= sumZ ((fun j => exactSum (columnOf probs n j)) <$> js)
        + Z.of_nat (length js) * (Z.of_nat n * 2 ^ 48).
Proof.
  intros Hn. induction js as [|j js IH]; intros Hc Hs.
  - split; [constructor|]. cbn. (hide_pows; lia).
  - assert (Hj : Forall (fun p => nonNegative p = true) (columnOf probs n j))
      by (apply Hc; left).
    assert (Hjs : forall j', j' ∈ js ->
              Forall (fun p => nonNegative p = true) (columnOf probs n j'))
      by (intros j' Hj'; apply Hc; right; exact Hj').
    pose proof (exactSum_nonneg _ Hj) as Pj.
    assert (Pjs : 0 <= sumZ ((fun j => exactSum (columnOf probs n j)) <$> js)).
    { clear -Hjs. induction js as [|j' js IH]; [cbn; (hide_pows; lia)|].
      cbn [fmap list_fmap sumZ foldr].
      pose proof (exactSum_nonneg _ (Hjs j' ltac:(left))).
      assert (0 <= sumZ ((fun j => exactSum (columnOf probs n j)) <$> js)).
      { apply IH. intros j Hj. apply Hjs. right. exact Hj. }
      unfold sumZ in *. (hide_pows; lia). }
    change (sumZ ((fun j => exactSum (columnOf probs n j)) <$> j :: js))
      with (exactSum (columnOf probs n j)
            + sumZ ((fun j => exactSum (columnOf probs n j)) <$> js)) in *.
    change (exactSum (columnMean probs n <$> j :: js))
      with (unitsOf (columnMean probs n j) + exactSum (columnMean probs n <$> js)).
    destruct (IH Hjs ltac:((hide_pows; lia))) as (Fs & Es).
    destruct (columnMean_value probs n j Hn Hj ltac:((hide_pows; lia))) as (Fj & Ej).
    split; [constructor; assumption|].
    cbn [length]. rewrite Nat2Z.inj_succ. (hide_pows; lia).
Qed.

(** The ten column sums add up to the row sums. *)
Lemma columns_total (probs : list float) (n : nat) :
  sumZ ((fun j => exactSum (columnOf probs n j)) <$> seq 0 10)
  = sumZ ((fun i => exactSum (rowOf probs i)) <$> seq 0 n).
Proof.
  induction n as [|n IH]; [reflexivity|].
  rewrite (seq_S n 0), fmap_app, sumZ_app, <- IH.
  cbn [seq fmap list_fmap sumZ foldr Nat.add].
  rewrite !columnOf_S, !exactSum_snoc.
  unfold rowOf. cbn [seq fmap list_fmap Nat.add].
  rewrite !exactSum_cons. change (exactSum []) with 0. lia.
Qed.

Lemma rows_total (probs : list float) (n : nat) :
  (forall i, (i < n)%nat -> withinOfOne (10 ^ 7) (exactSum (rowOf probs i))) ->
  Z.abs (sumZ ((fun i => exactSum (rowOf probs i)) <$> seq 0 n) - Z.of_nat n * 2 ^ 1074)
  * 10 ^ 7 <= Z.of_nat n * 2 ^ 1074.
Proof.
  induction n as [|n IH]; intros Hrows; [cbn; (hide_pows; lia)|].
  rewrite (seq_S n 0), fmap_app, sumZ_app, Nat2Z.inj_succ.
  cbn [fmap list_fmap sumZ foldr Nat.add].
  pose proof (Hrows n ltac:((hide_pows; lia))) as Hn. unfold withinOfOne in Hn.
  specialize (IH ltac:(intros i Hi; apply Hrows; (hide_pows; lia))).
  (hide_pows; lia).
Qed.

Lemma probAt_elem (probs : list float) (k : nat) :
  (k < length probs)%nat -> probAt probs k ∈ probs.
Proof.
  intros Hk. unfold probAt.
  destruct (lookup_lt_is_Some_2 probs k Hk) as [p Hp]. rewrite Hp.
  exact (list_elem_of_lookup_2 _ _ _ Hp).
Qed.

Lemma columnOf_nonNegative (probs : list float) (n j : nat) :
  length probs = (n * 10)%nat -> (j < 10)%nat ->
  Forall (fun p => nonNegative p = true) probs ->
  Forall (fun p => nonNegative p = true) (columnOf probs n j).
Proof.
  intros Hl Hj Hp. unfold columnOf. apply Forall_fmap, List.Forall_forall.
  intros i Hi. apply List.in_seq in Hi. cbn [compose].
  apply (proj1 (List.Forall_forall _ _) Hp), list_elem_of_In, probAt_elem. lia.
Qed.

(** The averaged vector of a batch of doubles whose rows sum to 1 within
    1e-7: its exact sum is within 2e-7 of 1, and so is its sum added up in
    binary64, up to 2.5e-7. *)
Lemma average_value (probs : list float) (n : nat) :
  (1 <= n <= 5)%nat -> length probs = (n * 10)%nat ->
  Forall (fun p => nonNegative p = true) probs ->
  (forall i, (i < n)%nat -> withinOfOne (10 ^ 7) (exactSum (rowOf probs i))) ->
  Forall (fun p => nonNegative p = true) (average probs n)
  /\ withinOfOne (5 * 10 ^ 6) (exactSum (average probs n))
  /\ PrimFloat.is_nan (sumList (average probs n)) = false
  /\ withinOfOne (4 * 10 ^ 6) (unitsOf (sumList (average probs n))).
Proof.
  intros Hn Hl Hp Hrows. rewrite average_columnMean.
  pose proof (rows_total probs n Hrows) as Ht.
  rewrite <- columns_total in Ht.
  assert (Hc : forall j, j ∈ seq 0 10 ->
            Forall (fun p => nonNegative p = true) (columnOf probs n j)).
  { intros j Hj. apply elem_of_seq in Hj.
    apply columnOf_nonNegative; [exact Hl|(hide_pows; lia)|exact Hp]. }
  set (T := sumZ ((fun j => exactSum (columnOf probs n j)) <$> seq 0 10)) in *.
  assert (P : (2 : Z) ^ 1074 * 2 ^ 1021 = 2 ^ 2095) by reflexivity.
  assert (P0 : 0 < 2 ^ 1074) by (apply pow2_pos; (hide_pows; lia)).
  assert (N : Z.of_nat n = 1 \/ Z.of_nat n = 2 \/ Z.of_nat n = 3
              \/ Z.of_nat n = 4 \/ Z.of_nat n = 5) by (hide_pows; lia).
  assert (Tb : T <= 6 * 2 ^ 1074) by (hide_pows; lia).
  destruct (columnMeans_value probs n (seq 0 10) Hn Hc) as (Fs & Es).
  { fold T. assert (6 < 2 ^ 1021) by reflexivity. (hide_pows; nia). }
  fold T in Es. rewrite length_seq in Es. change (Z.of_nat 10) with 10 in Es.
  set (means := columnMean probs n <$> seq 0 10) in *.
  set (X := exactSum means) in *.
  set (u := 2 ^ 1074) in *.
  assert (Big : 2 ^ 60 <= u) by (apply Z.pow_le_mono_r; (hide_pows; lia)).
  change (2 ^ 48) with (2 * 2 ^ 47) in Es.
  change (2 ^ 60) with (2 ^ 13 * 2 ^ 47) in Big.
  assert (Q : 0 < 2 ^ 47) by (apply pow2_pos; (hide_pows; lia)).
  set (c := 2 ^ 47) in *.
  assert (Cv : 140737488355328 = c) by reflexivity.
  assert (W1 : Z.abs (X - u) * (5 * 10 ^ 6) <= u).
  { clear Hc Fs Hrows Hp Hl P.
    destruct N as [N|[N|[N|[N|N]]]]; rewrite N in *; (hide_pows; lia). }
  split; [exact Fs|]. split; [exact W1|].
  destruct (foldl_add_value means (of_Z 0) eq_refl Fs) as (Ns & Ps & Es').
  { unfold means. rewrite length_fmap, length_seq. assert (10 < 2 ^ 50) by reflexivity. (hide_pows; lia). }
  { change (unitsOf (of_Z 0)) with 0. fold X.
    assert (u * 2 ^ 1021 = 2 ^ 2095) by exact P.
    assert (2 <= 2 ^ 1021) by (apply (Z.pow_le_mono_r 2 1 1021); (hide_pows; lia)). (hide_pows; nia). }
  change (unitsOf (of_Z 0)) with 0 in Es'. rewrite Z.add_0_l in Es'. fold X in Es'.
  change (foldl PrimFloat.add (of_Z 0) means) with (sumList means) in *.
  split; [rewrite is_nan_spec; exact Ns|].
  unfold withinOfOne. fold u.
  assert (Lm : Z.of_nat (length means) = 10)
    by (unfold means; rewrite length_fmap, length_seq; reflexivity).
  rewrite Lm in Es'.
  change (2 ^ 50) with (8 * c) in Es'.
  set (s := unitsOf (sumList means)) in *.
  clear Hc Fs Hrows Hp Hl P Es Ht. (hide_pows; lia).
Qed.

Lemma nearOne_units (v : float) :
  PrimFloat.is_nan v = false -> withinOfOne (4 * 10 ^ 6) (unitsOf v) -> nearOne v = true.
Proof.
  intros Nv Hv. unfold nearOne, withinOfOne in *.
  rewrite !float_leb_units by (exact Nv || reflexivity).
  assert (C1 : unitsOf (1 - 1e-6) * (4 * 10 ^ 6) <= 2 ^ 1074 * (4 * 10 ^ 6 - 1))
    by (apply Z.leb_le; vm_compute; reflexivity).
  assert (C2 : 2 ^ 1074 * (4 * 10 ^ 6 + 1) <= unitsOf (1 + 1e-6) * (4 * 10 ^ 6))
    by (apply Z.leb_le; vm_compute; reflexivity).
  set (lo := unitsOf (1 - 1e-6)) in *. set (hi := unitsOf (1 + 1e-6)) in *.
  set (u := 2 ^ 1074) in *.
  apply andb_true_intro. split; apply Z.leb_le; lia.
Qed.

(** In binary64: for a batch of 1 to 5 rows of doubles that are not negative,
    each row summing to 1 within 1e-7, the averaged vector sums to 1 within
    1e-6, both as the exact sum of its ten doubles and as their sum added
    up in binary64. *)
Lemma average_binary64 (probs : list float) (n : nat) :
  (1 <= n <= 5)%nat -> length probs = (n * 10)%nat ->
  Forall (fun p => nonNegative p = true) probs ->
  (forall i, (i < n)%nat -> withinOfOne (10 ^ 7) (exactSum (rowOf probs i))) ->
  withinOfOne (10 ^ 6) (exactSum (average probs n))
  /\ nearOne (sumList (average probs n)) = true.
Proof.
  intros Hn Hl Hp Hrows.
  destruct (average_value probs n Hn Hl Hp Hrows) as (_ & W & Ns & Ws).
  split; [|apply nearOne_units; assumption].
  unfold withinOfOne in *.
  assert (0 < 2 ^ 1074) by (apply pow2_pos; lia).
  set (u := 2 ^ 1074) in *. lia.
Qed.

Lemma fiveRows_rows (i : nat) :
  (i < 5)%nat -> withinOfOne (10 ^ 7) (exactSum (rowOf fiveRows i)).
Proof.
  intros Hi. unfold withinOfOne.
  destruct i as [|[|[|[|[|i]]]]]; [| | | | |lia]; apply Z.leb_le; vm_compute; reflexivity.
Qed.

Lemma fiveRows_nonNegative : Forall (fun p => nonNegative p = true) fiveRows.
Proof. apply List.Forall_forall, forallb_forall. vm_compute. reflexivity. Qed.

Lemma average_binary64_witness :
  withinOfOne (10 ^ 6) (exactSum (average fiveRows 5))
  /\ nearOne (sumList (average fiveRows 5)) = true.
Proof.
  apply average_binary64;
    [lia|reflexivity|exact fiveRows_nonNegative|exact fiveRows_rows].
Defined.

(** C6. In any arithmetic, binary64 included, the vector the two loops leave
    in [avg] has ten entries, entry [j] being the sum of column [j] over the
    rows, added from the first row on, divided by the number of rows: the
    unweighted column mean. In binary64, the arithmetic of the script: for
    a batch of 1 to 5 rows of ten probabilities (doubles that are not
    negative, hence not NaN), each row summing to 1 (the exact sum of its
    ten doubles being 1, or within 1e-7 of it), the averaged vector sums to
    1 within 1e-6, both as the exact sum of its ten doubles and as their
    sum added up in binary64. In exact arithmetic the sum of the averaged
    vector of such a batch is exactly 1: the tolerance has only rounding to
    absorb. *)
Theorem average_spec :
  (forall (T : Type) (N : Number T) (probs : list T) (n : nat),
      average probs n = columnMean probs n <$> seq 0 10
      /\ length (average probs n) = 10%nat
      /\ forall j, (j < 10)%nat ->
           average probs n !! j
           = Some (num_div (columnSum probs n j) (num_of_Z (Z.of_nat n))))
  /\ (forall (probs : list float) (n : nat),
        (1 <= n <= 5)%nat -> length probs = (n * 10)%nat ->
        Forall (fun p => nonNegative p = true) probs ->
        (forall i, (i < n)%nat -> withinOfOne (10 ^ 7) (exactSum (rowOf probs i))) ->
        withinOfOne (10 ^ 6) (exactSum (average probs n))
        /\ nearOne (sumList (average probs n)) = true)
  /\ (forall (probs : list Qc) (n : nat),
        (1 <= n <= 5)%nat -> length probs = (n * 10)%nat ->
        (forall i, (i < n)%nat -> sumList (rowOf probs i) = 1%Qc) ->
        sumList (average probs n) = 1%Qc).
Proof.
  split; [|split].
  - intros T N probs n.
    split; [apply average_columnMean|]. split; [apply average_length|].
    intros j Hj. apply average_lookup, Hj.
  - intros probs n Hn Hl Hp Hrows.
    assert (P : 0 < 2 ^ 1074) by (clear; apply pow2_pos; lia).
    destruct (average_value probs n Hn Hl Hp Hrows) as (_ & W & Ns & Ws).
    split; [|apply nearOne_units; assumption].
    unfold withinOfOne in *. hide_pows. lia.
  - intros probs n [Hn _] _ Hrows. apply average_stochastic; assumption.
Qed.

Lemma average_spec_witness :
  (withinOfOne (10 ^ 6) (exactSum (average fiveRows 5))
   /\ nearOne (sumList (average fiveRows 5)) = true)
  /\ sumList (average twoRowsQ 2) = 1%Qc.
Proof.
  destruct average_spec as (_ & F & Q).
  split.
  - apply F; [lia|reflexivity|exact fiveRows_nonNegative|exact fiveRows_rows].
  - apply Q; [lia|reflexivity|exact twoRowsQ_stochastic].
Defined.

(** ** The predicted class *)

Lemma Math_max_nan (a b : float) :
  PrimFloat.is_nan a = true \/ PrimFloat.is_nan b = true ->
  PrimFloat.is_nan (Math_max a b) = true.
Proof.
  intros H. unfold Math_max.
  assert (E : (PrimFloat.is_nan a || PrimFloat.is_nan b)%bool = true).
  { destruct H as [-> | ->]; [reflexivity|apply Bool.orb_true_r]. }
  rewrite E. reflexivity.
Qed.

Lemma foldl_Math_max_nan (l : list float) (acc : float) :
  PrimFloat.is_nan acc = true \/ (exists p, p ∈ l /\ PrimFloat.is_nan p = true) ->
  PrimFloat.is_nan (foldl Math_max acc l) = true.
Proof.
  revert acc. induction l as [|a l IH]; intros acc H; cbn [foldl].
  - destruct H as [H|(p & Hp & _)]; [exact H|inversion Hp].
  - apply IH. destruct H as [H|(p & Hp & Np)].
    + left. apply Math_max_nan. left. exact H.
    + apply elem_of_cons in Hp as [->|Hp].
      * left. apply Math_max_nan. right. exact Np.
      * right. exists p. split; assumption.
Qed.

Lemma indexOfFrom_nan (l : list float) (v : float) (i : Z) :
  PrimFloat.is_nan v = true -> indexOfFrom l v i = -1.
Proof.
  intros Nv. revert i. induction l as [|a l IH]; intros i; cbn [indexOfFrom]; [reflexivity|].
  rewrite (eqb_nan a v Nv). apply IH.
Qed.

Lemma unitsOf_lower (x : float) : - 2 ^ 2098 <= unitsOf x.
Proof.
  unfold unitsOf. pose proof (Prim2SF_valid x) as V.
  assert (B : 0 < 2 ^ 2098) by (apply pow2_pos; (hide_pows; lia)).
  destruct (Prim2SF x) as [s|s| |s m e]; cbn [units]; try (hide_pows; lia).
  - destruct s; (hide_pows; lia).
  - pose proof (finite_magnitude _ _ _ V). destruct s; cbn [cond_Zopp]; (hide_pows; lia).
Qed.

Lemma foldl_Math_max_units (l : list float) (acc : float) :
  PrimFloat.is_nan acc = false ->
  (forall p, p ∈ l -> PrimFloat.is_nan p = false) ->
  PrimFloat.is_nan (foldl Math_max acc l) = false
  /\ unitsOf acc <= unitsOf (foldl Math_max acc l)
  /\ (forall p, p ∈ l -> unitsOf p <= unitsOf (foldl Math_max acc l))
  /\ (unitsOf (foldl Math_max acc l) = unitsOf acc
      \/ exists p, p ∈ l /\ unitsOf (foldl Math_max acc l) = unitsOf p).
Proof.
  revert acc. induction l as [|a l IH]; intros acc Na Nl; cbn [foldl].
  - split; [exact Na|]. split; [(hide_pows; lia)|]. split; [|left; reflexivity].
    intros p Hp. inversion Hp.
  - destruct (Math_max_units acc a Na (Nl a ltac:(left))) as (Nm & Um & _).
    destruct (IH (Math_max acc a) Nm) as (Nr & Lr & Ar & Er).
    { intros p Hp. apply Nl. right. exact Hp. }
    split; [exact Nr|]. split; [(hide_pows; lia)|]. split.
    + intros p Hp. apply elem_of_cons in Hp as [->|Hp]; [(hide_pows; lia)|apply Ar, Hp].
    + destruct Er as [Er|(p & Hp & Ep)].
      * destruct (Z.max_spec (unitsOf acc) (unitsOf a)) as [[_ E]|[_ E]].
        -- right. exists a. split; [left|(hide_pows; lia)].
        -- left. (hide_pows; lia).
      * right. exists p. split; [right; exact Hp|exact Ep].
Qed.

(** [Math.max(...l)] of numbers: a number at least as large as every entry,
    and as large as one of them. *)
Lemma Math_max_list_units (l : list float) :
  l <> [] -> (forall p, p ∈ l -> PrimFloat.is_nan p = false) ->
  PrimFloat.is_nan (Math_max_list l) = false
  /\ (forall p, p ∈ l -> unitsOf p <= unitsOf (Math_max_list l))
  /\ exists p, p ∈ l /\ unitsOf (Math_max_list l) = unitsOf p.
Proof.
  intros Hne Nl. unfold Math_max_list.
  destruct (foldl_Math_max_units l neg_infinity eq_refl Nl) as (Nr & Lr & Ar & Er).
  split; [exact Nr|]. split; [exact Ar|].
  destruct Er as [Er|Er]; [|exact Er].
  destruct l as [|a l]; [congruence|]. exists a. split; [left|].
  pose proof (Ar a ltac:(left)). pose proof (unitsOf_lower a).
  change (unitsOf neg_infinity) with (- 2 ^ 2098) in Er. (hide_pows; lia).
Qed.

(** [l.indexOf(v)] is the first position whose entry equals [v]. *)
Lemma indexOfFrom_first (l : list float) (v : float) (i : Z) (k : nat) (a : float) :
  PrimFloat.is_nan v = false -> (forall p, p ∈ l -> PrimFloat.is_nan p = false) ->
  l !! k = Some a -> unitsOf a = unitsOf v ->
  (forall j q, (j < k)%nat -> l !! j = Some q -> unitsOf q <> unitsOf v) ->
  indexOfFrom l v i = i + Z.of_nat k.
Proof.
  intros Nv. revert i k. induction l as [|b l IH]; intros i k Nl Hk Ea Hfirst; [discriminate|].
  cbn [indexOfFrom]. rewrite (float_eqb_units b v (Nl b ltac:(left)) Nv).
  destruct k as [|k].
  - injection Hk as ->. rewrite Ea, Z.eqb_refl. lia.
  - destruct (Z.eqb_spec (unitsOf b) (unitsOf v)) as [E|_].
    + exfalso. apply (Hfirst 0%nat b); [lia|reflexivity|exact E].
    + rewrite (IH (i + 1) k); [lia| |exact Hk|exact Ea|].
      * intros p Hp. apply Nl. right. exact Hp.
      * intros j q Hj Hq. apply (Hfirst (S j) q); [lia|exact Hq].
Qed.

Lemma first_position (l : list float) (m : Z) :
  (exists p, p ∈ l /\ unitsOf p = m) ->
  exists k a, l !! k = Some a /\ unitsOf a = m
              /\ forall j q, (j < k)%nat -> l !! j = Some q -> unitsOf q <> m.
Proof.
  induction l as [|b l IH]; intros (p & Hp & Ep); [inversion Hp|].
  destruct (Z.eq_dec (unitsOf b) m) as [E|N].
  - exists 0%nat, b. split; [reflexivity|]. split; [exact E|]. intros j q Hj. lia.
  - destruct IH as (k & a & Hk & Ea & Hfirst).
    { apply elem_of_cons in Hp as [->|Hp]; [congruence|]. exists p. split; assumption. }
    exists (S k), a. split; [exact Hk|]. split; [exact Ea|].
    intros [|j] q Hj Hq.
    + injection Hq as <-. exact N.
    + apply (Hfirst j q); [lia|exact Hq].
Qed.

(** The predicted class and its confidence, for an averaged vector without
    NaN: [max] is the value of an entry and no entry exceeds it; [idx] is
    the first position holding that value. *)
Lemma argmax_spec (avg : list float) :
  avg <> [] -> (forall p, p ∈ avg -> PrimFloat.is_nan p = false) ->
  let max := Math_max_list avg in
  exists (k : nat) (p : float),
    indexOf avg max = Z.of_nat k
    /\ avg !! k = Some p /\ (p =? max)%float = true
    /\ (forall q, q ∈ avg -> (q <=? max)%float = true)
    /\ (forall j q, (j < k)%nat -> avg !! j = Some q -> (q <? max)%float = true).
Proof.
  intros Hne Nl max.
  destruct (Math_max_list_units avg Hne Nl) as (Nm & Am & Em). fold max in Nm, Am, Em.
  destruct (first_position avg (unitsOf max)) as (k & a & Hk & Ea & Hfirst).
  { destruct Em as (p & Hp & Ep). exists p. split; [exact Hp|congruence]. }
  assert (Na : PrimFloat.is_nan a = false) by (apply Nl, list_elem_of_lookup; eauto).
  exists k, a.
  split; [unfold indexOf; rewrite (indexOfFrom_first avg max 0 k a Nm Nl Hk Ea Hfirst); lia|].
  split; [exact Hk|]. split; [|split].
  - rewrite (float_eqb_units a max Na Nm). apply Z.eqb_eq, Ea.
  - intros q Hq. rewrite (float_leb_units q max (Nl q Hq) Nm). apply Z.leb_le, Am, Hq.
  - intros j q Hj Hq.
    assert (Hin : q ∈ avg) by (apply list_elem_of_lookup; eauto).
    rewrite (float_ltb_units q max (Nl q Hin) Nm). fold (unitsOf q) (unitsOf max).
    apply Z.ltb_lt. pose proof (Am q Hin). pose proof (Hfirst j q Hj Hq). lia.
Qed.

Lemma argmax_spec_witness :
  exists (k : nat) (p : float),
    indexOf exampleRow (Math_max_list exampleRow) = Z.of_nat k
    /\ exampleRow !! k = Some p /\ (p =? Math_max_list exampleRow)%float = true
    /\ (forall q, q ∈ exampleRow -> (q <=? Math_max_list exampleRow)%float = true)
    /\ (forall j q, (j < k)%nat -> exampleRow !! j = Some q ->
          (q <? Math_max_list exampleRow)%float = true).
Proof.
  apply argmax_spec; [discriminate|].
  apply noNaN_checked. vm_compute. reflexivity.
Defined.

(** A NaN among the entries: [Math.max] gives NaN, which [indexOf] never
    finds. *)
Lemma Math_max_list_nan (avg : list float) :
  (exists p, p ∈ avg /\ PrimFloat.is_nan p = true) ->
  PrimFloat.is_nan (Math_max_list avg) = true
  /\ indexOf avg (Math_max_list avg) = -1.
Proof.
  intros H.
  assert (N : PrimFloat.is_nan (Math_max_list avg) = true).
  { apply foldl_Math_max_nan. right. exact H. }
  split; [exact N|apply indexOfFrom_nan, N].
Qed.

Lemma entries_lookup_Some (avg : list float) (j : nat) (q : float) :
  avg !! j = Some q -> entries avg !! j = Some (q, j).
Proof. intros Hq. unfold entries. rewrite list_lookup_imap, Hq. reflexivity. Qed.

(** The head of the sorted list is the arg-max by [Math.max] and
    [indexOf]. *)
Lemma head_contender_argmax (avg : list float) :
  avg <> [] -> (forall p, p ∈ avg -> PrimFloat.is_nan p = false) ->
  exists (p : float) (i : nat),
    head (contenders avg) = Some (p, i)
    /\ indexOf avg (Math_max_list avg) = Z.of_nat i
    /\ (p =? Math_max_list avg)%float = true.
Proof.
  intros Hne Nl.
  destruct (contenders_ranked avg (float_ordered avg Nl)) as [Hp Hs].
  destruct (Math_max_list_units avg Hne Nl) as (Nm & Am & (pm & Hpm & Epm)).
  unfold contenders.
  destruct (sort byProbability (entries avg)) as [|[p i] rest] eqn:Er.
  { apply Permutation_nil in Hp. destruct avg; [congruence|discriminate]. }
  apply StronglySorted_inv in Hs as [_ Hh]. rewrite List.Forall_forall in Hh.
  assert (Hin : In (p, i) (entries avg)) by (apply (Permutation_in _ Hp); left; reflexivity).
  apply list_elem_of_In, list_elem_of_lookup in Hin as [i' Hi'].
  destruct (entries_lookup avg i' (p, i) Hi') as [Hi Ei]. cbn [fst snd] in Hi, Ei. subst i'.
  assert (Np : PrimFloat.is_nan p = false) by (apply Nl, list_elem_of_lookup; eauto).
  assert (Hp_in : p ∈ avg) by (apply list_elem_of_lookup; eauto).
  (* every other entry is ranked after the head *)
  assert (R : forall q j, avg !! j = Some q -> j <> i -> rankedBefore (p, i) (q, j)).
  { intros q j Hq Hj. apply Hh.
    assert (Hq' : In (q, j) (entries avg)).
    { apply list_elem_of_In, list_elem_of_lookup. exists j. apply entries_lookup_Some, Hq. }
    apply (Permutation_in _ (Permutation_sym Hp)) in Hq'.
    destruct Hq' as [E|Hq']; [congruence|exact Hq']. }
  assert (L : forall q j, avg !! j = Some q -> j <> i ->
              unitsOf q < unitsOf p \/ (unitsOf q = unitsOf p /\ (i < j)%nat)).
  { intros q j Hq Hj.
    assert (Nq : PrimFloat.is_nan q = false) by (apply Nl, list_elem_of_lookup; eauto).
    destruct (R q j Hq Hj) as [Lt|(N1 & N2 & Hij)]; cbn [fst snd num_ltb float_Number] in *.
    - rewrite (float_ltb_units q p Nq Np) in Lt. apply Z.ltb_lt in Lt. left. exact Lt.
    - rewrite (float_ltb_units p q Np Nq) in N1. rewrite (float_ltb_units q p Nq Np) in N2.
      apply Z.ltb_ge in N1, N2. right. fold (unitsOf p) (unitsOf q) in *. split; [lia|exact Hij]. }
  assert (Ep : unitsOf p = unitsOf (Math_max_list avg)).
  { pose proof (Am p Hp_in) as Le.
    apply list_elem_of_lookup in Hpm as [j Hj].
    destruct (Nat.eq_dec j i) as [->|Hji]; [congruence|].
    destruct (L pm j Hj Hji) as [Lt|[E _]]; lia. }
  exists p, i. split; [reflexivity|]. split.
  - unfold indexOf.
    rewrite (indexOfFrom_first avg (Math_max_list avg) 0 i p Nm Nl Hi Ep); [lia|].
    intros j q Hj Hq. destruct (L q j Hq ltac:(lia)) as [Lt|[_ Hij]]; lia.
  - rewrite (float_eqb_units p _ Np Nm). apply Z.eqb_eq, Ep.
Qed.

(** The class shown as the prediction is the class of the first contender
    row, and the confidence shown is that row's probability: the arg-max by
    [Math.max] and [indexOf] and the head of the sorted list agree, ties
    included. *)
Lemma prediction_is_first_contender (avg : list float) :
  avg <> [] -> (forall p, p ∈ avg -> PrimFloat.is_nan p = false) ->
  exists (p : float) (i : nat),
    head (contenders avg) = Some (p, i)
    /\ indexOf avg (Math_max_list avg) = Z.of_nat i
    /\ (p =? Math_max_list avg)%float = true.
Proof. exact (head_contender_argmax avg). Qed.

Lemma prediction_is_first_contender_witness :
  exists (p : float) (i : nat),
    head (contenders exampleRow) = Some (p, i)
    /\ indexOf exampleRow (Math_max_list exampleRow) = Z.of_nat i
    /\ (p =? Math_max_list exampleRow)%float = true.
Proof.
  apply prediction_is_first_contender; [discriminate|].
  apply noNaN_checked. vm_compute. reflexivity.
Defined.

(** ** The click handler *)

Section PreviewFacts.
Context `{CanvasAPI} `{TFModel}.

Lemma extractInputTensor_sensor (shiftX shiftY : Z) (pg : Page) :
  sensorCanvas (snd (extractInputTensor shiftX shiftY pg)) =
  match boxOfPage pg with
  | Some b =>
      if ((shiftX =? 0) && (shiftY =? 0))%bool
      then drawImageAt (frameOf (hiddenCanvas pg) b shiftX shiftY) 0 0 (sensorCanvas pg)
      else sensorCanvas pg
  | None => sensorCanvas pg
  end.
Proof.
  unfold boxOfPage, extractInputTensor.
  destruct (getBoundingBox _ _ _) as [b|]; [|reflexivity].
  destruct ((shiftX =? 0) && (shiftY =? 0))%bool; reflexivity.
Qed.

Lemma collectStep_snd (st : list (list float) * Page) (s : Z * Z) :
  snd (collectStep st s) = snd (extractInputTensor (fst s) (snd s) (snd st)).
Proof.
  unfold collectStep.
  destruct (extractInputTensor (fst s) (snd s) (snd st)) as [[v|] pg']; reflexivity.
Qed.

Lemma collect_fold_sensor (l : list (Z * Z)) (acc : list (list float)) (pg : Page) :
  sensorCanvas (snd (foldl collectStep (acc, pg) l)) =
  match boxOfPage pg with
  | Some b =>
      foldl (fun c s => if ((fst s =? 0) && (snd s =? 0))%bool
                        then drawImageAt (frameOf (hiddenCanvas pg) b (fst s) (snd s)) 0 0 c
                        else c)
            (sensorCanvas pg) l
  | None => sensorCanvas pg
  end.
Proof.
  revert acc pg. induction l as [|s l IH]; intros acc pg.
  - cbn [foldl snd]. destruct (boxOfPage pg); reflexivity.
  - cbn [foldl].
    destruct (collectStep_spec acc pg s) as (_ & (Hh & _) & _).
    pose proof (collectStep_snd (acc, pg) s) as Hs. cbn [snd] in Hs.
    destruct (collectStep (acc, pg) s) as [acc1 pg1]. cbn [fst snd] in Hh, Hs.
    rewrite IH, (boxOfPage_hidden _ _ Hh), Hh, Hs, extractInputTensor_sensor.
    destruct (boxOfPage pg) as [b|]; reflexivity.
Qed.

(** The sensor canvas after the loop over the five shifts. *)
Lemma collectFrames_sensor (pg : Page) :
  sensorCanvas (snd (collectFrames pg)) =
  match boxOfPage pg with
  | Some b => drawImageAt (frameOf (hiddenCanvas pg) b 0 0) 0 0 (sensorCanvas pg)
  | None => sensorCanvas pg
  end.
Proof.
  unfold collectFrames. rewrite collect_fold_sensor.
  destruct (boxOfPage pg) as [b|]; reflexivity.
Qed.

(** A click never touches the hidden canvas or the model, whichever way the
    handler leaves, and what it leaves on the sensor canvas is the
    unshifted frame, drawn once over what was there: the four shifted
    frames never reach the preview. Without a model the page is left as it
    is. *)
Lemma onPredictClick_preview (pg : Page) :
  let pg' := snd (onPredictClick pg) in
  hiddenCanvas pg' = hiddenCanvas pg
  /\ model pg' = model pg
  /\ sensorCanvas pg' =
     (if model pg then
        match boxOfPage pg with
        | Some b => drawImageAt (frameOf (hiddenCanvas pg) b 0 0) 0 0 (sensorCanvas pg)
        | None => sensorCanvas pg
        end
      else sensorCanvas pg)
  /\ (model pg = false -> onPredictClick pg = (ExitNoModel, pg)).
Proof.
  cbv zeta. unfold onPredictClick.
  destruct (model pg) eqn:Hm; cbn [negb]; [|repeat split; auto].
  destruct (collectFrames_spec pg) as (_ & (Hh & Hmo & _) & _).
  pose proof (collectFrames_sensor pg) as Hs.
  destruct (collectFrames pg) as [batchInputs pg1]. cbn [snd] in *.
  rewrite Hm in Hmo.
  destruct (length batchInputs =? 0)%nat;
    [|destruct (infer batchInputs)];
    cbn [snd newTensor setPrediction dispose hiddenCanvas model sensorCanvas];
    (split; [exact Hh|split; [exact Hmo|split; [exact Hs|discriminate]]]).
Qed.

End PreviewFacts.

Section BatchFacts.
Context `{CanvasLaws} `{TFModel}.

Lemma finalDataOf_length (pg : Page) (b : BBox) (shiftX shiftY : Z) :
  Z.of_nat (length (finalDataOf pg b shiftX shiftY)) = 4 * 784.
Proof. unfold finalDataOf. rewrite getImageData_length by lia. reflexivity. Qed.

(** The batch handed to [tf.tensor2d] is empty or a full 5 x 784 array of
    numbers between 0 and 1: never a partial or ragged one. It is empty
    exactly when the hidden canvas has no ink. *)
Lemma batch_shape (pg : Page) :
  let batch := fst (collectFrames pg) in
  (boxOfPage pg = None <-> batch = [])
  /\ (boxOfPage pg <> None -> length batch = 5%nat)
  /\ forall row, row ∈ batch ->
       length row = 784%nat
       /\ forall v, v ∈ row -> (0 <=? v)%float = true /\ (v <=? 1)%float = true.
Proof.
  cbv zeta. destruct (collectFrames_spec pg) as (Hf & _). rewrite Hf.
  destruct (boxOfPage pg) as [b|].
  - split; [split; discriminate|]. split; [reflexivity|].
    intros row Hrow. unfold framesOf in Hrow.
    apply list_elem_of_fmap in Hrow as (s & -> & _).
    pose proof (finalDataOf_length pg b (fst s) (snd s)) as Hl.
    split; [apply (readInput_length _ 784); [lia|exact Hl]|].
    intros v Hv. apply list_elem_of_lookup in Hv as [k Hk].
    assert (Hk' : (k < 784)%nat).
    { apply lookup_lt_Some in Hk. rewrite (readInput_length _ 784) in Hk; lia. }
    destruct (readInput_lookup _ 784 k Hl ltac:(lia)) as (raw & Hraw & Hin).
    rewrite Hin in Hk. injection Hk as <-.
    apply boost_byte_range.
    apply (getImageData_bytes (frameOf (hiddenCanvas pg) b (fst s) (snd s)) 0 0 28 28).
    apply list_elem_of_lookup. exists (4 * k)%nat. exact Hraw.
  - split; [split; reflexivity|]. split; [congruence|].
    intros row Hrow. inversion Hrow.
Qed.

End BatchFacts.

Lemma foldl_add_nan (l : list float) (a : float) :
  PrimFloat.is_nan a = true \/ (exists p, p ∈ l /\ PrimFloat.is_nan p = true) ->
  PrimFloat.is_nan (foldl PrimFloat.add a l) = true.
Proof.
  revert a. induction l as [|b l IH]; intros a Hn; cbn [foldl].
  - destruct Hn as [Hn|(p & Hp & _)]; [exact Hn|inversion Hp].
  - apply IH. destruct Hn as [Hn|(p & Hp & Np)].
    + left. apply is_nan_add. left. exact Hn.
    + apply elem_of_cons in Hp as [->|Hp].
      * left. apply is_nan_add. right. exact Np.
      * right. exists p. split; assumption.
Qed.

(** A NaN or a missing entry among the first [10 n] probabilities makes its
    column of the averaged vector NaN. *)
Lemma average_nan (probs : list float) (n k : nat) :
  (k < n * 10)%nat -> PrimFloat.is_nan (probAt probs k) = true ->
  exists p, p ∈ average probs n /\ PrimFloat.is_nan p = true.
Proof.
  intros Hk Nk.
  pose proof (Nat.div_mod_eq k 10) as D.
  assert (Hj : (k mod 10 < 10)%nat) by (apply Nat.mod_upper_bound; lia).
  assert (Hi : (k / 10 < n)%nat) by (apply Nat.Div0.div_lt_upper_bound; lia).
  exists (columnMean probs n (k mod 10)). split.
  - apply list_elem_of_lookup. exists (k mod 10)%nat. apply average_lookup, Hj.
  - unfold columnMean. cbn [num_div float_Number]. apply is_nan_div.
    rewrite columnSum_columnOf. unfold sumList. cbn [num_add float_Number].
    apply foldl_add_nan. right. exists (probAt probs k). split; [|exact Nk].
    unfold columnOf. apply list_elem_of_fmap. exists (k / 10)%nat.
    split; [f_equal; lia|apply elem_of_seq; lia].
Qed.

Section OutcomeFacts.
Context `{CanvasAPI} `{TFModel}.

(** The handler on a page with ink and a model that answers. *)
Lemma onPredictClick_done (pg : Page) (b : BBox) (probs : list float) :
  model pg = true -> boxOfPage pg = Some b ->
  infer (fst (collectFrames pg)) = Probabilities probs ->
  let avg := average probs 5 in
  fst (onPredictClick pg)
  = ExitDone (indexOf avg (Math_max_list avg)) (Math_max_list avg) (contenders avg)
  /\ predictionResult (snd (onPredictClick pg)) = Digit (indexOf avg (Math_max_list avg)).
Proof.
  intros Hm Hb Hi. cbv zeta. unfold onPredictClick. rewrite Hm. cbn [negb].
  destruct (collectFrames_spec pg) as (Hf & _). rewrite Hb in Hf.
  destruct (collectFrames pg) as [batchInputs pg1]. cbn [fst snd] in *. subst batchInputs.
  change (length (framesOf pg b shifts) =? 0)%nat with false. cbv iota.
  unfold newTensor. cbn [fst snd]. rewrite Hi.
  change (length (framesOf pg b shifts)) with 5%nat.
  split; reflexivity.
Qed.

(** A model that returns a NaN, or fewer than the 50 numbers of five rows:
    the handler still finishes, and the class it shows is -1. *)
Lemma predict_nan_output (pg : Page) (b : BBox) (probs : list float) :
  model pg = true -> boxOfPage pg = Some b ->
  infer (fst (collectFrames pg)) = Probabilities probs ->
  (exists k, (k < 50)%nat /\ PrimFloat.is_nan (probAt probs k) = true) ->
  exists max sorted,
    fst (onPredictClick pg) = ExitDone (-1) max sorted
    /\ PrimFloat.is_nan max = true
    /\ predictionResult (snd (onPredictClick pg)) = Digit (-1).
Proof.
  intros Hm Hb Hi (k & Hk & Nk).
  destruct (onPredictClick_done pg b probs Hm Hb Hi) as [E P]. cbv zeta in E, P.
  destruct (Math_max_list_nan (average probs 5) (average_nan probs 5 k ltac:(lia) Nk)) as [Nm Ei].
  rewrite Ei in E, P.
  exists (Math_max_list (average probs 5)), (contenders (average probs 5)).
  split; [exact E|]. split; [exact Nm|exact P].
Qed.

(** A model that returns five rows of ten numbers that are not negative,
    each row summing to 1 within 1e-7: the class shown is one of 0..9, it
    is the class of the first of the three contenders, the confidence is
    that contender's probability and lies between 9.99% and 100.0001%, and
    the averaged vector sums to 1 within 1e-6. *)
Lemma predict_well_formed (pg : Page) (b : BBox) (probs : list float) :
  model pg = true -> boxOfPage pg = Some b ->
  infer (fst (collectFrames pg)) = Probabilities probs ->
  length probs = 50%nat ->
  Forall (fun p => nonNegative p = true) probs ->
  (forall i, (i < 5)%nat -> withinOfOne (10 ^ 7) (exactSum (rowOf probs i))) ->
  exists (idx : nat) (max : float) (sorted : list (float * nat)) (p : float),
    fst (onPredictClick pg) = ExitDone (Z.of_nat idx) max sorted
    /\ predictionResult (snd (onPredictClick pg)) = Digit (Z.of_nat idx)
    /\ (idx < 10)%nat
    /\ length sorted = 3%nat
    /\ head sorted = Some (p, idx) /\ (p =? max)%float = true
    /\ (0.0999 <=? max)%float = true /\ (max <=? 1.000001)%float = true
    /\ nearOne (sumList (average probs 5)) = true.
Proof.
  intros Hm Hb Hi Hl Hp Hrows.
  destruct (onPredictClick_done pg b probs Hm Hb Hi) as [E P]. cbv zeta in E, P.
  destruct (average_value probs 5 ltac:(lia) Hl Hp Hrows) as (Fa & Wa & Ns & Ws).
  set (avg := average probs 5) in *.
  assert (La : length avg = 10%nat) by apply average_length.
  assert (Na : forall q, q ∈ avg -> PrimFloat.is_nan q = false).
  { intros q Hq. rewrite List.Forall_forall in Fa.
    apply list_elem_of_In, Fa in Hq. unfold nonNegative in Hq.
    apply andb_prop in Hq as [Hq _]. apply Bool.negb_true_iff, Hq. }
  assert (Hne : avg <> []) by (intros N; rewrite N in La; discriminate).
  destruct (head_contender_argmax avg Hne Na) as (p & i & Hh & Ei & Ep).
  rewrite Ei in E, P.
  destruct (Math_max_list_units avg Hne Na) as (Nm & Am & (pm & Hpm & Epm)).
  exists i, (Math_max_list avg), (contenders avg), p.
  split; [exact E|]. split; [exact P|].
  assert (Hi10 : (i < 10)%nat).
  { unfold contenders in Hh.
    destruct (contenders_ranked avg (float_ordered avg Na)) as [Hperm _].
    destruct (sort byProbability (entries avg)) as [|e rest] eqn:Es; [discriminate|].
    injection Hh as ->.
    assert (Hin : In (p, i) (entries avg)) by (apply (Permutation_in _ Hperm); left; reflexivity).
    apply list_elem_of_In, list_elem_of_lookup in Hin as [i' Hi'].
    destruct (entries_lookup avg i' (p, i) Hi') as [Hlk Ei']. cbn [snd] in Ei'. subst i'.
    apply lookup_lt_Some in Hlk. lia. }
  split; [exact Hi10|].
  split.
  { unfold contenders. rewrite length_take.
    destruct (contenders_ranked avg (float_ordered avg Na)) as [Hperm _].
    pose proof (Permutation_length Hperm) as PL. unfold Entry in PL. rewrite PL.
    unfold entries. rewrite length_imap, La. reflexivity. }
  split; [exact Hh|]. split; [exact Ep|].
  split; [|split; [|apply nearOne_units; assumption]].
  - (* ten entries, none above [max], summing to nearly 1 *)
    assert (S10 : exactSum avg <= 10 * unitsOf (Math_max_list avg)).
    { pose proof (exactSum_upper avg _ Am) as G. rewrite La in G. exact G. }
    rewrite (float_leb_units 0.0999 _ eq_refl Nm). apply Z.leb_le.
    assert (C : unitsOf 0.0999 * 10 * (5 * 10 ^ 6) <= 2 ^ 1074 * (5 * 10 ^ 6 - 1))
      by (apply Z.leb_le; vm_compute; reflexivity).
    unfold withinOfOne in Wa.
    set (u := 2 ^ 1074) in *. set (c := unitsOf 0.0999) in *. lia.
  - (* [max] is one of ten entries that are not negative *)
    assert (Spm : unitsOf pm <= exactSum avg) by (apply exactSum_elem; assumption).
    rewrite (float_leb_units _ 1.000001 Nm eq_refl). apply Z.leb_le.
    assert (C : 2 ^ 1074 * (5 * 10 ^ 6 + 1) <= unitsOf 1.000001 * (5 * 10 ^ 6))
      by (apply Z.leb_le; vm_compute; reflexivity).
    unfold withinOfOne in Wa.
    set (u := 2 ^ 1074) in *. set (c := unitsOf 1.000001) in *. lia.
Qed.

End OutcomeFacts.

Lemma inkPage_batch :
  fst (@collectFrames stubCanvas inkPage)
  = @framesOf stubCanvas inkPage {| minX := 0; minY := 0; bbox_w := 1; bbox_h := 1 |} shifts.
Proof.
  destruct (@collectFrames_spec stubCanvas inkPage) as (Hf & _).
  rewrite Hf, inkPage_box. reflexivity.
Qed.

Lemma batch_shape_witness : length (fst (@collectFrames stubCanvas inkPage)) = 5%nat.
Proof.
  destruct (@batch_shape stubCanvas stubCanvas_laws inkPage) as (_ & H & _).
  apply H. rewrite inkPage_box. discriminate.
Defined.

Lemma predict_nan_output_witness :
  exists max sorted,
    fst (@onPredictClick stubCanvas (fun _ => Probabilities []) inkPage)
    = ExitDone (-1) max sorted
    /\ PrimFloat.is_nan max = true
    /\ predictionResult (snd (@onPredictClick stubCanvas (fun _ => Probabilities []) inkPage))
       = Digit (-1).
Proof.
  apply (@predict_nan_output stubCanvas (fun _ => Probabilities []) inkPage _ []
           eq_refl inkPage_box eq_refl).
  exists 0%nat. split; [lia|reflexivity].
Defined.

Lemma steadyModel_inkPage :
  @infer steadyModel (fst (@collectFrames stubCanvas inkPage)) = Probabilities fiveRows.
Proof. rewrite inkPage_batch. reflexivity. Qed.

Lemma predict_well_formed_witness :
  exists (idx : nat) (max : float) (sorted : list (float * nat)) (p : float),
    fst (@onPredictClick stubCanvas steadyModel inkPage) = ExitDone (Z.of_nat idx) max sorted
    /\ predictionResult (snd (@onPredictClick stubCanvas steadyModel inkPage))
       = Digit (Z.of_nat idx)
    /\ (idx < 10)%nat
    /\ length sorted = 3%nat
    /\ head sorted = Some (p, idx) /\ (p =? max)%float = true
    /\ (0.0999 <=? max)%float = true /\ (max <=? 1.000001)%float = true
    /\ nearOne (sumList (average fiveRows 5)) = true.
Proof.
  apply (@predict_well_formed stubCanvas steadyModel inkPage _ fiveRows
           eq_refl inkPage_box steadyModel_inkPage eq_refl fiveRows_nonNegative fiveRows_rows).
Defined.

Lemma blankPage_exit : fst (@onPredictClick stubCanvas steadyModel blankPage) = ExitNoInk.
Proof.
  pose proof (@onPredictClick_tensors stubCanvas steadyModel blankPage eq_refl) as B.
  cbn zeta in B. rewrite blankPage_box in B. apply B.
Qed.

Lemma onPredictClick_disposes_on_return_witness :
  liveTensors (snd (@onPredictClick stubCanvas steadyModel blankPage)) = liveTensors blankPage.
Proof.
  apply (@onPredictClick_disposes_on_return stubCanvas steadyModel blankPage eq_refl).
  - intros t Ht. inversion Ht.
  - rewrite blankPage_exit. discriminate.
Defined.

(** ** The drawing engine *)

Lemma geometry_app (l k : list DrawCall) : geometry (l ++ k) = geometry l ++ geometry k.
Proof. apply omap_app. Qed.

Lemma penPosition_snoc (l k : list DrawCall) (p : float * float) :
  omap (fun c => match c with
                 | Arc x y _ | LineTo x y => Some (x, y)
                 | _ => None
                 end) k = [p] ->
  penPosition (l ++ k) = Some p.
Proof. intros E. unfold penPosition. rewrite omap_app, E. apply last_snoc. Qed.

Lemma penPosition_keep (l k : list DrawCall) :
  omap (fun c => match c with
                 | Arc x y _ | LineTo x y => Some (x, y)
                 | _ => None
                 end) k = [] ->
  penPosition (l ++ k) = penPosition l.
Proof. intros E. unfold penPosition. rewrite omap_app, E, app_nil_r. reflexivity. Qed.

Section StrokeFacts.
Variable coords : Board -> PointerEvent -> float * float.

Lemma start_calls (e : PointerEvent) (b : Board) :
  exists x y,
    visual (start coords e b)
    = draw [BeginPath; Arc x y (of_Z VISUAL_STROKE_WIDTH / 2);
            SetFillStyle VISUAL_COLOR; Fill] (visual b)
    /\ hidden (start coords e b)
       = draw [BeginPath; Arc x y (of_Z HIDDEN_STROKE_WIDTH / 2);
               SetFillStyle "#ffffff"; Fill] (hidden b)
    /\ isDrawing (start coords e b) = true
    /\ lastX (start coords e b) = x /\ lastY (start coords e b) = y.
Proof.
  unfold start. cbv zeta.
  destruct (coords (withPen true (lastX b) (lastY b) b) e) as [x y].
  exists x, y. repeat split.
Qed.

Lemma move_calls (e : PointerEvent) (b : Board) :
  isDrawing b = true ->
  exists x y,
    visual (move coords e b)
    = draw [BeginPath; MoveTo (lastX b) (lastY b); LineTo x y; Stroke] (visual b)
    /\ hidden (move coords e b)
       = draw [BeginPath; MoveTo (lastX b) (lastY b); LineTo x y; Stroke] (hidden b)
    /\ isDrawing (move coords e b) = true
    /\ lastX (move coords e b) = x /\ lastY (move coords e b) = y.
Proof.
  intros Hd. unfold move. rewrite Hd. cbn [negb]. cbv zeta.
  destruct (coords b e) as [x y]. exists x, y. cbn. rewrite Hd. repeat split.
Qed.

Lemma move_pen_up (e : PointerEvent) (b : Board) :
  isDrawing b = false -> move coords e b = b.
Proof. intros Hd. unfold move. rewrite Hd. reflexivity. Qed.

Lemma start_sameDrawing (e : PointerEvent) (b : Board) :
  sameDrawing b -> sameDrawing (start coords e b).
Proof.
  unfold sameDrawing. intros S.
  destruct (start_calls e b) as (x & y & -> & -> & _).
  cbn [draw calls]. rewrite !geometry_app, S. reflexivity.
Qed.

Lemma move_sameDrawing (e : PointerEvent) (b : Board) :
  sameDrawing b -> sameDrawing (move coords e b).
Proof.
  unfold sameDrawing. intros S. destruct (isDrawing b) eqn:Hd.
  - destruct (move_calls e b Hd) as (x & y & -> & -> & _).
    cbn [draw calls]. rewrite !geometry_app, S. reflexivity.
  - rewrite (move_pen_up e b Hd). exact S.
Qed.

Lemma end_sameDrawing (b : Board) : sameDrawing b -> sameDrawing (end_ b).
Proof.
  unfold sameDrawing, end_. cbn. intros S. rewrite !geometry_app, S. reflexivity.
Qed.

Lemma start_penTracked (e : PointerEvent) (b : Board) : penTracked (start coords e b).
Proof.
  intros _. destruct (start_calls e b) as (x & y & _ & -> & _ & -> & ->).
  cbn [draw calls]. apply penPosition_snoc. reflexivity.
Qed.

Lemma move_penTracked (e : PointerEvent) (b : Board) :
  penTracked b -> penTracked (move coords e b).
Proof.
  intros J. destruct (isDrawing b) eqn:Hd.
  - intros _. destruct (move_calls e b Hd) as (x & y & _ & -> & _ & -> & ->).
    cbn [draw calls]. apply penPosition_snoc. reflexivity.
  - rewrite (move_pen_up e b Hd). exact J.
Qed.

Lemma end_penTracked (b : Board) : penTracked (end_ b).
Proof. intros Hd. discriminate. Qed.

End StrokeFacts.

Lemma clearBoard_sameDrawing (b : Board) : sameDrawing (clearBoard b) <-> sameDrawing b.
Proof.
  unfold sameDrawing, clearBoard. cbn. rewrite !geometry_app. cbn.
  split; [intros E; apply app_inv_tail in E; exact E|intros ->; reflexivity].
Qed.

Lemma clearBoard_penTracked (b : Board) : penTracked b -> penTracked (clearBoard b).
Proof.
  unfold penTracked, clearBoard. cbn. intros J Hd.
  rewrite penPosition_keep by reflexivity. apply J, Hd.
Qed.

Lemma initCanvas_sameDrawing (b : Board) : sameDrawing (initCanvas b).
Proof. unfold initCanvas. apply clearBoard_sameDrawing. reflexivity. Qed.

Lemma step_sameDrawing (b : Board) (ev : Event) : sameDrawing b -> sameDrawing (step b ev).
Proof.
  intros S. destruct ev as [e|e| | |w h]; cbn [step].
  - apply start_sameDrawing, S.
  - apply move_sameDrawing, S.
  - apply end_sameDrawing, S.
  - apply clearBoard_sameDrawing, S.
  - exact S.
Qed.

Lemma step_sizes (b : Board) (ev : Event) :
  width (visual (step b ev)) = width (visual b)
  /\ height (visual (step b ev)) = height (visual b)
  /\ width (hidden (step b ev)) = width (hidden b)
  /\ height (hidden (step b ev)) = height (hidden b).
Proof.
  destruct ev as [e|e| | |w h]; cbn [step].
  - destruct (start_calls getCoords e b) as (x & y & -> & -> & _). repeat split.
  - destruct (isDrawing b) eqn:Hd.
    + destruct (move_calls getCoords e b Hd) as (x & y & -> & -> & _). repeat split.
    + rewrite (move_pen_up getCoords e b Hd). repeat split.
  - repeat split.
  - repeat split.
  - repeat split.
Qed.

Lemma step_penTracked (b : Board) (ev : Event) : penTracked b -> penTracked (step b ev).
Proof.
  intros J. destruct ev as [e|e| | |w h]; cbn [step].
  - apply start_penTracked.
  - apply move_penTracked, J.
  - apply end_penTracked.
  - apply clearBoard_penTracked, J.
  - exact J.
Qed.

(** On the page of [script.js], once [initCanvas] has run: whatever the
    user does, the hidden canvas has received the same drawing calls as the
    visual canvas, with the same coordinates in the same order (only the
    pen differs), and both canvases stay 560 x 560, the size
    [extractInputTensor] reads. *)
Theorem strokes_mirrored (b : Board) (trace : list Event) :
  let b' := foldl step (initCanvas b) trace in
  sameDrawing b'
  /\ width (visual b') = VISUAL_SIZE /\ height (visual b') = VISUAL_SIZE
  /\ width (hidden b') = HIDDEN_SIZE /\ height (hidden b') = HIDDEN_SIZE.
Proof.
  cbv zeta.
  assert (G : forall b0, sameDrawing b0 ->
              width (visual b0) = VISUAL_SIZE /\ height (visual b0) = VISUAL_SIZE
              /\ width (hidden b0) = HIDDEN_SIZE /\ height (hidden b0) = HIDDEN_SIZE ->
              sameDrawing (foldl step b0 trace)
              /\ width (visual (foldl step b0 trace)) = VISUAL_SIZE
              /\ height (visual (foldl step b0 trace)) = VISUAL_SIZE
              /\ width (hidden (foldl step b0 trace)) = HIDDEN_SIZE
              /\ height (hidden (foldl step b0 trace)) = HIDDEN_SIZE).
  { induction trace as [|ev trace IH]; intros b0 S Z; cbn [foldl]; [split; assumption|].
    apply IH; [apply step_sameDrawing, S|].
    destruct (step_sizes b0 ev) as (-> & -> & -> & ->). exact Z. }
  apply G; [apply initCanvas_sameDrawing|]. repeat split.
Qed.

(** On the page of [script.js], from a state with the pen up: a move with
    the pen up changes nothing, and a move with the pen down draws, on the
    hidden canvas, one line that starts where the drawing of the current
    stroke last ended (the dot of the stroke or the end of its previous
    line). *)
Theorem strokes_connected (b0 : Board) (trace : list Event) (e : PointerEvent) :
  isDrawing b0 = false ->
  let b := foldl step b0 trace in
  (isDrawing b = false -> step b (Move e) = b)
  /\ (isDrawing b = true ->
      exists x0 y0 x y,
        penPosition (calls (hidden b)) = Some (x0, y0)
        /\ calls (hidden (step b (Move e)))
           = calls (hidden b) ++ [BeginPath; MoveTo x0 y0; LineTo x y; Stroke]).
Proof.
  intros H0. cbv zeta.
  assert (J : penTracked (foldl step b0 trace)).
  { assert (G : forall b1, penTracked b1 -> penTracked (foldl step b1 trace)).
    { induction trace as [|ev trace IH]; intros b1 J1; cbn [foldl]; [exact J1|].
      apply IH, step_penTracked, J1. }
    apply G. intros Hd. congruence. }
  set (b := foldl step b0 trace) in *. cbn [step].
  split; [apply move_pen_up|].
  intros Hd. destruct (move_calls getCoords e b Hd) as (x & y & _ & -> & _).
  exists (lastX b), (lastY b), x, y. split; [apply J, Hd|reflexivity].
Qed.

Lemma strokes_connected_witness :
  let b := foldl step (initCanvas (mkBoard (mkSurface 0 0 []) (mkSurface 0 0 [])
                                           (mkSurface 0 0 []) false 0 0
                                           None None None None None))
                 [Down (mkPointer None 10 20 (mkRect 0 0 560 560))] in
  exists x0 y0 x y,
    penPosition (calls (hidden b)) = Some (x0, y0)
    /\ calls (hidden (step b (Move (mkPointer None 30 40 (mkRect 0 0 560 560)))))
       = calls (hidden b) ++ [BeginPath; MoveTo x0 y0; LineTo x y; Stroke].
Proof.
  cbv zeta.
  apply (strokes_connected
           (initCanvas (mkBoard (mkSurface 0 0 []) (mkSurface 0 0 []) (mkSurface 0 0 [])
                                false 0 0 None None None None None))
           [Down (mkPointer None 10 20 (mkRect 0 0 560 560))]
           (mkPointer None 30 40 (mkRect 0 0 560 560)) eq_refl).
  reflexivity.
Defined.

(** *** The second script: a canvas that follows its container *)

Lemma resizable_clearBoard_mirrored (b : Board) :
  sameDrawing b -> sameSize b ->
  sameDrawing (ResizableBoard.clearBoard b) /\ sameSize (ResizableBoard.clearBoard b).
Proof.
  unfold sameDrawing, sameSize, ResizableBoard.clearBoard. cbn. intros S [Ew Eh].
  rewrite !geometry_app, S, Ew, Eh. repeat split; assumption.
Qed.

Lemma resizable_step_mirrored (b : Board) (ev : Event) :
  sameDrawing b -> sameSize b ->
  sameDrawing (ResizableBoard.step b ev) /\ sameSize (ResizableBoard.step b ev).
Proof.
  intros S Z. destruct ev as [e|e| | |w h]; cbn [ResizableBoard.step].
  - split; [apply start_sameDrawing, S|].
    unfold sameSize in *.
    destruct (start_calls ResizableBoard.getCoords e b) as (x & y & -> & -> & _). exact Z.
  - split; [apply move_sameDrawing, S|].
    unfold sameSize in *. destruct (isDrawing b) eqn:Hd.
    + destruct (move_calls ResizableBoard.getCoords e b Hd) as (x & y & -> & -> & _). exact Z.
    + rewrite (move_pen_up _ e b Hd). exact Z.
  - split; [apply end_sameDrawing, S|exact Z].
  - apply resizable_clearBoard_mirrored; assumption.
  - unfold ResizableBoard.resizeCanvas.
    destruct (negb (width (visual b) =? w) || negb (height (visual b) =? h))%bool;
      [|split; assumption].
    apply resizable_clearBoard_mirrored; [reflexivity|split; reflexivity].
Qed.

(** On the page of the second script: from a state in which the two
    canvases agree in size and drawing, they agree after any events, resizes
    included; a resize to a new size makes them agree whatever came before,
    at the size of the container, the pen settings and the background
    redone on a blank bitmap; a resize to the size the visual canvas already
    has changes nothing, so the drawing survives it. *)
Theorem strokes_mirrored_resizable :
  (forall (b : Board) (trace : list Event),
      sameDrawing b -> sameSize b ->
      sameDrawing (foldl ResizableBoard.step b trace)
      /\ sameSize (foldl ResizableBoard.step b trace))
  /\ (forall (b : Board) (w h : Z),
        width (visual b) <> w \/ height (visual b) <> h ->
        let b' := ResizableBoard.resizeCanvas w h b in
        sameDrawing b' /\ sameSize b'
        /\ width (hidden b') = w /\ height (hidden b') = h
        /\ calls (hidden b')
           = [SetLineCap "round"; SetLineJoin "round"; SetStrokeStyle "#ffffff";
              SetLineWidth HIDDEN_STROKE_WIDTH; SetFillStyle DATA_BG_COLOR; FillRect 0 0 w h])
  /\ (forall b : Board,
        ResizableBoard.resizeCanvas (width (visual b)) (height (visual b)) b = b).
Proof.
  split; [|split].
  - intros b trace. revert b.
    induction trace as [|ev trace IH]; intros b S Z; cbn [foldl]; [split; assumption|].
    destruct (resizable_step_mirrored b ev S Z) as [S' Z']. apply IH; assumption.
  - intros b w h Hne. cbv zeta. unfold ResizableBoard.resizeCanvas.
    assert (E : (negb (width (visual b) =? w) || negb (height (visual b) =? h))%bool = true).
    { destruct Hne as [N|N]; apply Z.eqb_neq in N; rewrite N;
        [reflexivity|apply Bool.orb_true_r]. }
    rewrite E. repeat split.
  - intros b. unfold ResizableBoard.resizeCanvas. rewrite !Z.eqb_refl. reflexivity.
Qed.

(** A resize in the middle of a stroke does not lift the pen of the second
    script: the canvases are wiped, yet the next move draws a line from the
    last point of before the resize, where nothing is drawn any more. *)
Lemma resize_keeps_pen_down (b : Board) (w h : Z) (e : PointerEvent) :
  isDrawing b = true ->
  width (visual b) <> w \/ height (visual b) <> h ->
  let b' := ResizableBoard.resizeCanvas w h b in
  isDrawing b' = true
  /\ penPosition (calls (hidden b')) = None
  /\ exists x y,
       calls (hidden (ResizableBoard.step b' (Move e)))
       = calls (hidden b') ++ [BeginPath; MoveTo (lastX b) (lastY b); LineTo x y; Stroke].
Proof.
  intros Hd Hne. cbv zeta.
  assert (E : (negb (width (visual b) =? w) || negb (height (visual b) =? h))%bool = true).
  { destruct Hne as [N|N]; apply Z.eqb_neq in N; rewrite N;
      [reflexivity|apply Bool.orb_true_r]. }
  assert (P : isDrawing (ResizableBoard.resizeCanvas w h b) = true
              /\ lastX (ResizableBoard.resizeCanvas w h b) = lastX b
              /\ lastY (ResizableBoard.resizeCanvas w h b) = lastY b
              /\ penPosition (calls (hidden (ResizableBoard.resizeCanvas w h b))) = None).
  { unfold ResizableBoard.resizeCanvas. rewrite E. cbn. rewrite Hd. repeat split. }
  destruct P as (Pd & Px & Py & Pp).
  split; [exact Pd|]. split; [exact Pp|].
  cbn [ResizableBoard.step].
  destruct (move_calls ResizableBoard.getCoords e _ Pd) as (x & y & _ & -> & _).
  exists x, y. rewrite Px, Py. reflexivity.
Qed.

Lemma resize_keeps_pen_down_witness :
  let b := mkBoard (mkSurface 300 150 []) (mkSurface 300 150 []) (mkSurface 28 28 [])
                   true 7 9 None None None None None in
  isDrawing (ResizableBoard.resizeCanvas 800 600 b) = true
  /\ penPosition (calls (hidden (ResizableBoard.resizeCanvas 800 600 b))) = None.
Proof.
  cbv zeta.
  destruct (resize_keeps_pen_down
              (mkBoard (mkSurface 300 150 []) (mkSurface 300 150 []) (mkSurface 28 28 [])
                       true 7 9 None None None None None)
              800 600 (mkPointer None 30 40 (mkRect 0 0 800 600)) eq_refl) as (D & P & _).
  - left. cbn. lia.
  - split; [exact D|exact P].
Defined.

(** ** Start-up *)

Section StartupFacts.
Context `{CanvasAPI}.

(** What [initApp] leaves behind. The predict button is enabled on one path
    only, the one on which the library is present and the backend, the
    model file and the warm-up all succeed; there the model is set, the
    status reads "System Ready" and both warm-up tensors are disposed.
    Without the library nothing but the status changes: the canvases are
    not even set up. When the warm-up prediction throws, the model is
    already set and stays set, although the status reads "Model Error", and
    the warm-up input tensor is never disposed. *)
Lemma initApp_outcomes (env : Startup) (setup : Board -> Board)
    (b : Board) (pg : Page) (sh : Shell) :
  let r := initApp env setup (b, pg, sh) in
  let b' := fst (fst r) in
  let pg' := snd (fst r) in
  let sh' := snd r in
  let succeeds := (tfDefined env && backendOk env && modelLoads env && warmupOk env)%bool in
  predictDisabled sh' = (predictDisabled sh && negb succeeds)%bool
  /\ (succeeds = true ->
      b' = setup b /\ model pg' = true
      /\ statusText sh' = setText "System Ready" (statusText sh)
      /\ alerts sh' = alerts sh
      /\ liveTensors pg'
         = filter (fun u => u <> tensorCount pg)
                  (filter (fun u => u <> S (tensorCount pg)) (liveTensors pg)))
  /\ (tfDefined env = false ->
      b' = b /\ pg' = pg
      /\ statusText sh' = setText "TF_LIB_ERROR" (statusText sh)
      /\ alerts sh' = alerts sh)
  /\ (tfDefined env = true -> succeeds = false ->
      b' = setup b
      /\ statusText sh' = setText "Model Error" (statusText sh)
      /\ alerts sh' = alerts sh ++ ["Error loading model. Ensure files are served via HTTP."%string])
  /\ (tfDefined env = true -> backendOk env = true -> modelLoads env = true ->
      warmupOk env = false ->
      model pg' = true /\ liveTensors pg' = tensorCount pg :: liveTensors pg)
  /\ (tfDefined env = true -> (backendOk env && modelLoads env)%bool = false -> pg' = pg).
Proof.
  cbv zeta. unfold initApp.
  destruct env as [[|] [|] [|] [|]]; cbn [tfDefined backendOk modelLoads warmupOk negb andb];
    unfold newTensor, modelError, updateStatus; cbn [fst snd predictDisabled statusText alerts
      model liveTensors tensorCount dispose setModel];
    rewrite ?Bool.andb_true_r, ?Bool.andb_false_r;
    repeat split; try discriminate; try reflexivity.
  rewrite (filter_cons_False _ (S (tensorCount pg))) by (intros N; apply N; reflexivity).
  rewrite (filter_cons_True _ (tensorCount pg)) by lia.
  rewrite (filter_cons_False _ (tensorCount pg)) by (intros N; apply N; reflexivity).
  reflexivity.
Qed.

End StartupFacts.

(** ** The canonical frame of the second script *)

Section ResizableFrameFacts.
Context `{CanvasAPI}.

Lemma resizable_frameOf_copies (hidden : Canvas) (b : BBox) (shiftX shiftY : Z) :
  ResizableFrame.frameOf hidden b shiftX shiftY = frameOf hidden b shiftX shiftY.
Proof.
  unfold ResizableFrame.frameOf, frameOf. rewrite getCenterOfMass_copies. reflexivity.
Qed.

Lemma resizable_extractInputTensor_fixed (shiftX shiftY : Z) (pg : Page) :
  ResizableFrame.extractInputTensor HIDDEN_SIZE HIDDEN_SIZE shiftX shiftY pg
  = (ResizableFrame.Returns (fst (extractInputTensor shiftX shiftY pg)),
     snd (extractInputTensor shiftX shiftY pg)).
Proof.
  unfold ResizableFrame.extractInputTensor, extractInputTensor.
  change ((HIDDEN_SIZE =? 0) || (HIDDEN_SIZE =? 0))%bool with false. cbv iota.
  rewrite getBoundingBox_copies.
  destruct (getBoundingBox _ _ _) as [b|]; [|reflexivity].
  cbv zeta. rewrite resizable_frameOf_copies. reflexivity.
Qed.

Lemma resizable_extractInputTensor_throws (w h shiftX shiftY : Z) (pg : Page) :
  w = 0 \/ h = 0 ->
  ResizableFrame.extractInputTensor w h shiftX shiftY pg = (ResizableFrame.Throws, pg).
Proof.
  intros Hz. unfold ResizableFrame.extractInputTensor.
  destruct Hz as [-> | ->]; [reflexivity|]. rewrite Bool.orb_true_r. reflexivity.
Qed.

Lemma resizable_extractInputTensor_returns (w h shiftX shiftY : Z) (pg : Page) :
  0 < w -> 0 < h ->
  ResizableFrame.extractInputTensor w h shiftX shiftY pg
  = let bbox := getBoundingBox (getImageData (hiddenCanvas pg) 0 0 w h) w h in
    match bbox with
    | None => (ResizableFrame.Returns None, logBox bbox pg)
    | Some b =>
        let temp := ResizableFrame.frameOf (hiddenCanvas pg) b shiftX shiftY in
        (ResizableFrame.Returns (Some (readInput (getImageData temp 0 0 28 28))),
         if ((shiftX =? 0) && (shiftY =? 0))%bool
         then setSensor (drawImageAt temp 0 0 (sensorCanvas (logBox bbox pg))) (logBox bbox pg)
         else logBox bbox pg)
    end.
Proof.
  intros Hw Hh. unfold ResizableFrame.extractInputTensor.
  destruct (Z.eqb_spec w 0) as [|_]; [lia|]. destruct (Z.eqb_spec h 0) as [|_]; [lia|].
  cbn [orb]. cbv zeta. rewrite getBoundingBox_copies.
  destruct (getBoundingBox _ _ _); reflexivity.
Qed.

End ResizableFrameFacts.

(** [extractInputTensor] of the second script, on a hidden canvas of
    [w] x [h] pixels. With [w] or [h] zero the call throws (the
    [IndexSizeError] of [getImageData]) and leaves the page as it is. On a
    canvas with [0 < w] and [0 < h] it returns: [null] exactly when no pixel
    of the raster has a first channel above 50, otherwise 784 numbers
    between 0 and 1; it touches the sensor canvas only when called without
    a shift and with ink on the canvas. It never changes the hidden canvas.
    On a 560 x 560 canvas it returns what the function of [script.js]
    returns, and leaves the same page. *)
Theorem resizable_extractInputTensor_spec `{CanvasLaws} (w h shiftX shiftY : Z) (pg : Page) :
  0 <= w -> 0 <= h ->
  let data := getImageData (hiddenCanvas pg) 0 0 w h in
  let r := ResizableFrame.extractInputTensor w h shiftX shiftY pg in
  (fst r = ResizableFrame.Throws <-> w = 0 \/ h = 0)
  /\ (w = 0 \/ h = 0 -> snd r = pg)
  /\ (0 < w -> 0 < h ->
      (fst r = ResizableFrame.Returns None
       <-> forall x y, inRaster w h x y -> isInk data w x y = false)
      /\ (forall input, fst r = ResizableFrame.Returns (Some input) ->
            length input = 784%nat
            /\ forall v, v ∈ input -> (0 <=? v)%float = true /\ (v <=? 1)%float = true)
      /\ ((shiftX, shiftY) <> (0, 0) \/ fst r = ResizableFrame.Returns None ->
          sensorCanvas (snd r) = sensorCanvas pg))
  /\ hiddenCanvas (snd r) = hiddenCanvas pg
  /\ (w = HIDDEN_SIZE -> h = HIDDEN_SIZE ->
      r = (ResizableFrame.Returns (fst (extractInputTensor shiftX shiftY pg)),
           snd (extractInputTensor shiftX shiftY pg))).
Proof.
  intros Hw Hh data r. subst r.
  split; [|split; [|split; [|split]]].
  - split.
    + intros Ht. destruct (Z.eq_dec w 0) as [|Nw]; [left; assumption|].
      destruct (Z.eq_dec h 0) as [|Nh]; [right; assumption|]. exfalso.
      rewrite resizable_extractInputTensor_returns in Ht by lia. cbv zeta in Ht.
      destruct (getBoundingBox _ w h); discriminate.
    + intros Hz. rewrite resizable_extractInputTensor_throws by exact Hz. reflexivity.
  - intros Hz. rewrite resizable_extractInputTensor_throws by exact Hz. reflexivity.
  - intros Pw Ph. rewrite resizable_extractInputTensor_returns by assumption.
    cbv zeta. fold data.
    pose proof (getBoundingBox_None_iff data w h) as N.
    split; [|split].
    + rewrite <- N. destruct (getBoundingBox data w h); cbn [fst]; split; congruence.
    + intros input. destruct (getBoundingBox data w h) as [b|]; cbn [fst]; [|discriminate].
      intros [= <-].
      set (fd := getImageData _ 0 0 28 28).
      assert (Hl : Z.of_nat (length fd) = 4 * 784).
      { unfold fd. rewrite getImageData_length by lia. reflexivity. }
      split; [apply (readInput_length _ 784); [lia|exact Hl]|].
      intros v Hv. apply list_elem_of_lookup in Hv as [k Hk].
      assert (Hlt : (k < 784)%nat).
      { apply lookup_lt_Some in Hk.
        rewrite (readInput_length fd 784) in Hk; [exact Hk|lia|exact Hl]. }
      destruct (readInput_lookup fd 784 k Hl) as (raw & Hraw & Hin); [lia|].
      rewrite Hin in Hk. injection Hk as <-.
      apply (boost_byte_range raw).
      apply (getImageData_bytes
               (ResizableFrame.frameOf (hiddenCanvas pg) b shiftX shiftY) 0 0 28 28).
      apply list_elem_of_lookup. exists (4 * k)%nat. exact Hraw.
    + intros Hs. destruct (getBoundingBox data w h) as [b|]; cbn [snd fst] in *;
        [|reflexivity].
      destruct Hs as [Hs|Hs]; [|discriminate].
      destruct (Z.eqb_spec shiftX 0) as [->|]; [|reflexivity].
      destruct (Z.eqb_spec shiftY 0) as [->|]; [|reflexivity].
      contradiction Hs. reflexivity.
  - destruct (Z.eq_dec w 0) as [Zw|Nw];
      [rewrite resizable_extractInputTensor_throws by (left; exact Zw); reflexivity|].
    destruct (Z.eq_dec h 0) as [Zh|Nh];
      [rewrite resizable_extractInputTensor_throws by (right; exact Zh); reflexivity|].
    rewrite resizable_extractInputTensor_returns by lia. cbv zeta.
    destruct (getBoundingBox _ w h) as [b|]; cbn [snd]; [|reflexivity].
    destruct ((shiftX =? 0) && (shiftY =? 0))%bool; reflexivity.
  - intros -> ->. apply resizable_extractInputTensor_fixed.
Qed.

Lemma resizable_extractInputTensor_spec_witness :
  (exists input,
     fst (@ResizableFrame.extractInputTensor stubCanvas 3 2 0 0 inkPage)
     = ResizableFrame.Returns (Some input)
     /\ length input = 784%nat)
  /\ fst (@ResizableFrame.extractInputTensor stubCanvas 0 2 0 0 inkPage)
     = ResizableFrame.Throws.
Proof.
  split.
  - destruct (@resizable_extractInputTensor_spec stubCanvas stubCanvas_laws 3 2 0 0 inkPage)
      as (_ & _ & Hret & _); [lia|lia|].
    destruct Hret as (_ & Hsome & _); [lia|lia|].
    eexists. split; [reflexivity|].
    apply (Hsome _ eq_refl).
  - destruct (@resizable_extractInputTensor_spec stubCanvas stubCanvas_laws 0 2 0 0 inkPage)
      as (Ht & _); [lia|lia|].
    apply Ht. left. reflexivity.
Defined.
